(** * Property protocol, invocation and for-in head of the interpreter core

    A shallow embedding of the object/property algorithms
    (methods/properties.js), the descriptor predicates (methods/is.js), the
    string wrapper kind (values/StringExotic.js), the call helpers
    (methods/call.js) and the head of the for-in/of evaluator,
    followed by the properties established about them.

    Conventions of the embedding:
    - a JavaScript object is a reference [ObjRef] into the realm's heap, so
      that in-place mutation and aliasing are those of the source;
    - a [Map] is an association list in insertion order;
    - interpreter code runs in the monad [M]: it threads the [Realm] and
      ends normally, with a language-level abrupt completion, with an
      IntrospectionError, or with a host error (a failed [invariant]);
    - the collaborators that live outside these files (conversions,
      evaluator, environment records, the internal-method table of each
      object kind) are the fields of the classes [Externals],
      [KeyExternals] and [InternalMethods]. *)

From Stdlib Require Import ZArith QArith Qround Qabs String Ascii List Bool Lia DecimalString Sorted.
From stdpp Require Import base option strings gmap.
Import ListNotations.

Set Default Proof Using "Type".
Open Scope string_scope.
Open Scope list_scope.

(** ** Numbers *)

(** The Number type, as far as these algorithms look at it: they classify
    a number (NaN, infinite, negative zero, integral) and compare it with
    integers.  Finite non-zero numbers and +0 are rationals; every double
    is one, and the operations used here are exact on doubles. *)
Inductive number : Type :=
| NaN
| Infinity (negative : bool)
| NegZero
| Fin (q : Q).

Definition of_Z (z : Z) : number := Fin (inject_Z z).

(** [x < y], [x <= y] and [x === y] on numbers; any comparison with NaN is
    false and the two zeros compare equal. *)
Definition num_lt (x y : number) : bool :=
  match x, y with
  | NaN, _ | _, NaN => false
  | Infinity true, Infinity true => false
  | Infinity true, _ => true
  | _, Infinity true => false
  | Infinity false, _ => false
  | _, Infinity false => true
  | NegZero, NegZero => false
  | NegZero, Fin q => negb (Qle_bool q 0)
  | Fin q, NegZero => negb (Qle_bool 0 q)
  | Fin p, Fin q => negb (Qle_bool q p)
  end.

Definition num_eq (x y : number) : bool :=
  match x, y with
  | NaN, _ | _, NaN => false
  | Infinity a, Infinity b => Bool.eqb a b
  | Infinity _, _ | _, Infinity _ => false
  | NegZero, NegZero => true
  | NegZero, Fin q | Fin q, NegZero => Qeq_bool q 0
  | Fin p, Fin q => Qeq_bool p q
  end.

Definition num_le (x y : number) : bool := num_lt x y || num_eq x y.

(** ** Values *)

Definition ObjRef := nat.
Definition SymbolRef := nat.

(** The type estimate of a value ([getType]). *)
Inductive ValueType : Type :=
| TUndefined | TNull | TEmpty | TBoolean | TNumber | TString | TSymbol
| TObject | TFunction | TValue.

(** An abstract value: its identity, its type estimate, the deletion flag
    and whether it was already resolved by the generator ([kind]). *)
Record AbstractData : Type := mkAbstract {
  abs_id : nat;
  abs_type : ValueType;
  abs_mightHaveBeenDeleted : bool;
  abs_resolved : bool
}.

Inductive Value : Type :=
| UndefinedValue
| NullValue
| EmptyValue
| BooleanValue (b : bool)
| NumberValue (n : number)
| StringValue (s : string)
| SymbolValue (y : SymbolRef)
| ObjectValue (r : ObjRef)
| AbstractValue (a : AbstractData).

(** [v instanceof ConcreteValue] *)
Definition isConcrete (v : Value) : bool :=
  match v with AbstractValue _ => false | _ => true end.

Definition getType (v : Value) : ValueType :=
  match v with
  | UndefinedValue => TUndefined
  | NullValue => TNull
  | EmptyValue => TEmpty
  | BooleanValue _ => TBoolean
  | NumberValue _ => TNumber
  | StringValue _ => TString
  | SymbolValue _ => TSymbol
  | ObjectValue _ => TObject
  | AbstractValue a => abs_type a
  end.

#[global] Instance ValueType_eq_dec : EqDecision ValueType.
Proof. solve_decision. Defined.

#[global] Instance AbstractData_eq_dec : EqDecision AbstractData.
Proof. solve_decision. Defined.

(** Modelled from the spec: [Value.mightHaveBeenDeleted] (the value classes
    are not among the sources).  Section 3: an Abstract value may be flagged
    [mightHaveBeenDeleted]; a concrete value never is. *)
Definition mightHaveBeenDeleted (v : Value) : bool :=
  match v with
  | AbstractValue a => abs_mightHaveBeenDeleted a
  | _ => false
  end.

(** Modelled from the spec: [HasSomeCompatibleType(realm, v, ...types)]
    (methods/has.js is not among the sources): the type of [v], for an
    abstract value its type estimate, is one of the listed types. *)
Definition HasSomeCompatibleType (v : Value) (tys : list ValueType) : bool :=
  existsb (fun t => bool_decide (getType v = t)) tys.

(** Reference identity [x === y] of two value objects of which one at
    least is abstract: an abstract value is only identical to itself. *)
Definition same_reference (x y : Value) : bool :=
  match x, y with
  | AbstractValue a, AbstractValue b => bool_decide (a = b)
  | _, _ => false
  end.

(** ** Property keys *)

(** [PropertyKeyValue = string | StringValue | SymbolValue] *)
Inductive PropertyKeyValue : Type :=
| PKstring (s : string)
| PKStringValue (s : string)
| PKSymbolValue (y : SymbolRef).

(** The key under which a binding is filed: a string in [properties], a
    symbol in [symbols]. *)
Inductive MapKey : Type :=
| StrKey (s : string)
| SymKey (y : SymbolRef).

#[global] Instance MapKey_eq_dec : EqDecision MapKey.
Proof. solve_decision. Defined.

(** ** Descriptors *)

(** A descriptor is an object with optional fields; a field that is
    present holds a defined value. *)
Record Descriptor : Type := mkDesc {
  value : option Value;
  writable : option bool;
  get : option Value;
  set : option Value;
  enumerable : option bool;
  configurable : option bool
}.

Definition empty_desc : Descriptor := mkDesc None None None None None None.

Inductive Field : Type :=
| f_value | f_writable | f_get | f_set | f_enumerable | f_configurable.

(** What a field holds: [void | boolean | Value]. *)
Inductive FieldValue : Type :=
| FBool (b : bool)
| FVal (v : Value).

(** [Desc[field]] *)
Definition field_get (D : Descriptor) (f : Field) : option FieldValue :=
  match f with
  | f_value => FVal <$> value D
  | f_writable => FBool <$> writable D
  | f_get => FVal <$> get D
  | f_set => FVal <$> set D
  | f_enumerable => FBool <$> enumerable D
  | f_configurable => FBool <$> configurable D
  end.

(** [field in Desc] *)
Definition field_in (f : Field) (D : Descriptor) : bool :=
  match field_get D f with Some _ => true | None => false end.

Definition all_fields : list Field :=
  [f_value; f_writable; f_get; f_set; f_enumerable; f_configurable].

(** [Object.keys(Desc)], the fields a [for (field in Desc)] visits. *)
Definition desc_keys (D : Descriptor) : list Field :=
  filter (fun f => field_in f D = true) all_fields.

(** [property[field] = Desc[field]] for one field of [Desc] *)
Definition field_copy (f : Field) (Desc property : Descriptor) : Descriptor :=
  match f with
  | f_value => mkDesc (value Desc) (writable property) (get property) (set property) (enumerable property) (configurable property)
  | f_writable => mkDesc (value property) (writable Desc) (get property) (set property) (enumerable property) (configurable property)
  | f_get => mkDesc (value property) (writable property) (get Desc) (set property) (enumerable property) (configurable property)
  | f_set => mkDesc (value property) (writable property) (get property) (set Desc) (enumerable property) (configurable property)
  | f_enumerable => mkDesc (value property) (writable property) (get property) (set property) (enumerable Desc) (configurable property)
  | f_configurable => mkDesc (value property) (writable property) (get property) (set property) (enumerable property) (configurable Desc)
  end.

(** [!x] for an optional boolean field: absent counts as false. *)
Definition truthy (b : option bool) : bool :=
  match b with Some true => true | _ => false end.

(** [v || realm.intrinsics.undefined] for an optional value field. *)
Definition value_or_undefined (v : option Value) : Value :=
  match v with Some x => x | None => UndefinedValue end.

(** *** methods/is.js *)

(** ECMA262 6.2.4.1 *)
Definition IsAccessorDescriptor (Desc : option Descriptor) : bool :=
  match Desc with
  | None => false
  | Some D => if negb (field_in f_get D) && negb (field_in f_set D) then false else true
  end.

(** ECMA262 6.2.4.2 *)
Definition IsDataDescriptor (Desc : option Descriptor) : bool :=
  match Desc with
  | None => false
  | Some D => if negb (field_in f_value D) && negb (field_in f_writable D) then false else true
  end.

(** ECMA262 6.2.4.3 *)
Definition IsGenericDescriptor (Desc : option Descriptor) : bool :=
  match Desc with
  | None => false
  | Some D =>
      if negb (IsAccessorDescriptor (Some D)) && negb (IsDataDescriptor (Some D))
      then true else false
  end.

(** ECMA262 7.2.6 *)
Definition IsInteger (argument : number) : bool :=
  match argument with
  | NaN | Infinity _ => false
  | NegZero => true
  | Fin q => if negb (Qeq_bool (inject_Z (Qfloor (Qabs q))) (Qabs q)) then false else true
  end.

(** Syntax-tree nodes are opaque to this part of the interpreter; only
    the node type is kept. *)
Record BabelNode : Type := mkNode { node_type : string }.

(** ECMA262 14.6.1 *)
Definition IsInTailPosition (node : BabelNode) : bool :=
  (* TODO: implement tail calls *)
  false.

(** ** Objects, environments and the realm *)

(** A property binding; the object and key it belongs to never change. *)
Record PropertyBinding : Type := mkBinding {
  descriptor : option Descriptor;
  object : ObjRef;
  key : MapKey
}.

Inductive ThisMode : Type := ThisLexical | ThisStrict | ThisGlobal.

(** The slots of an object that these algorithms read or write. *)
Record ObjectData : Type := mkObject {
  properties : list (string * PropertyBinding);
  symbols : list (SymbolRef * PropertyBinding);
  Prototype : Value;
  Extensible : bool;
  isIntrinsic : bool;
  isPartial : bool;
  isSimple : bool;
  StringData : option string;
  isFunctionValue : bool;
  isNativeFunctionValue : bool;
  hasCall : bool;
  ThisModeSlot : option ThisMode
}.

Definition fresh_object : ObjectData :=
  mkObject [] [] NullValue true false false false None false false false None.

#[global] Instance ObjectData_inhabited : Inhabited ObjectData := populate fresh_object.

Inductive EnvironmentRecord : Type :=
| DeclarativeEnvironmentRecord (id : nat)
| FunctionEnvironmentRecord (id : nat)
| GlobalEnvironmentRecord (id : nat) (GlobalThisValue : Value).

Record LexicalEnvironment : Type := mkLexEnv { environmentRecord : EnvironmentRecord }.

Record ExecutionContext : Type := mkContext {
  lexicalEnvironment : option LexicalEnvironment;
  suspended : bool
}.

(** A request logged with the residual-code generator. *)
Inductive GeneratorEntry : Type :=
| emitGlobalDelete (P : string)
| emitPropertyDelete (O : ObjRef) (P : string)
| emitGlobalDeclaration (P : string) (v : Value)
| emitGlobalAssignment (P : string) (v : Value)
| emitPropertyAssignment (O : ObjRef) (P : string) (v : Value)
| emitDefineProperty (O : ObjRef) (P : string) (desc : Descriptor).

Record Realm : Type := mkRealm {
  heap : gmap ObjRef ObjectData;
  (** the modified-set of the effects region, a binding being named by its
      object and key *)
  modifiedProperties : list (ObjRef * MapKey);
  generator : option (list GeneratorEntry);
  GlobalObject : ObjRef;
  GlobalEnv : LexicalEnvironment;
  contextStack : list ExecutionContext;
  (** the [[ThisValue]] slots of the function environment records *)
  thisValues : list (nat * Value)
}.

(** ** The interpreter monad *)

Inductive NativeError : Type := TypeError | RangeError | ReferenceError.

(** Language-level abrupt completions.  A thrown error object is kept as
    the intrinsic constructor it was built from, with its message. *)
Inductive AbruptCompletion : Type :=
| ThrowCompletion (e : NativeError) (message : option string)
| BreakCompletion (v : Value) (target : option string)
| ReturnCompletion (v : Value).

Inductive Failure : Type :=
| Abrupt (c : AbruptCompletion)
| IntrospectionError
| HostError (message : string)
| OutOfFuel.

Inductive Outcome (A : Type) : Type :=
| Normal (a : A)
| Fail (f : Failure).
Arguments Normal {A} a.
Arguments Fail {A} f.

(** Code that threads a state [S] and may fail; the state reached is kept
    on failure, as the heap is when a JavaScript exception unwinds. *)
Definition SF (S A : Type) : Type := S -> Outcome A * S.

(** Interpreter code threads the realm. *)
Definition M (A : Type) : Type := SF Realm A.

Definition ret {S A} (a : A) : SF S A := fun s => (Normal a, s).

Definition bind {S A B} (m : SF S A) (k : A -> SF S B) : SF S B :=
  fun s =>
    match m s with
    | (Normal a, s') => k a s'
    | (Fail f, s') => (Fail f, s')
    end.

Definition fail {S A} (f : Failure) : SF S A := fun s => (Fail f, s).

Notation "x <- c1 ;; c2" := (bind c1 (fun x => c2))
  (at level 100, c1 at next level, right associativity).
Notation "c1 ;;; c2" := (bind c1 (fun _ => c2))
  (at level 100, right associativity).

Definition throw {S A} (c : AbruptCompletion) : SF S A := fail (Abrupt c).
Definition throwIntrospectionError {S A} : SF S A := fail IntrospectionError.

(** [invariant(condition, message)] *)
Definition invariant {S} (condition : bool) (message : string) : SF S unit :=
  if condition then ret tt else fail (HostError message).

(** [realm.createErrorThrowCompletion(type)] and
    [new ThrowCompletion(Construct(realm, type, [message]))] *)
Definition createErrorThrowCompletion (e : NativeError) : AbruptCompletion :=
  ThrowCompletion e None.

Definition gets {S A} (f : S -> A) : SF S A := fun s => (Normal (f s), s).
Definition modify {S} (f : S -> S) : SF S unit := fun s => (Normal tt, f s).

(** [try { body } finally { cleanup }] *)
Definition try_finally {S A} (body : SF S A) (cleanup : SF S unit) : SF S A :=
  fun s =>
    match body s with
    | (r, s') =>
        match cleanup s' with
        | (Normal _, s'') => (r, s'')
        | (Fail f, s'') => (Fail f, s'')
        end
    end.

(** [v.throwIfNotConcrete()] *)
Definition throwIfNotConcrete {S} (v : Value) : SF S Value :=
  if isConcrete v then ret v else throwIntrospectionError.

(** *** Heap access *)

Definition set_heap (h : gmap ObjRef ObjectData) (realm : Realm) : Realm :=
  mkRealm h (modifiedProperties realm) (generator realm) (GlobalObject realm)
          (GlobalEnv realm) (contextStack realm) (thisValues realm).

Definition obj (realm : Realm) (O : ObjRef) : ObjectData := heap realm !!! O.

Definition set_obj (O : ObjRef) (o : ObjectData) (realm : Realm) : Realm :=
  set_heap (<[O := o]> (heap realm)) realm.

(** A [Map] in insertion order: [get] and [set]. *)
Fixpoint map_get {K V} `{EqDecision K} (k : K) (m : list (K * V)) : option V :=
  match m with
  | [] => None
  | (k', v) :: rest => if decide (k = k') then Some v else map_get k rest
  end.

Fixpoint map_set {K V} `{EqDecision K} (k : K) (v : V) (m : list (K * V)) : list (K * V) :=
  match m with
  | [] => [(k, v)]
  | (k', v') :: rest =>
      if decide (k = k') then (k, v) :: rest else (k', v') :: map_set k v rest
  end.

Definition InternalGetPropertiesKey (P : PropertyKeyValue) : MapKey :=
  match P with
  | PKstring s => StrKey s
  | PKStringValue s => StrKey s
  | PKSymbolValue y => SymKey y
  end.

(** [InternalGetPropertiesMap(O, P).get(key)] *)
Definition binding_get (o : ObjectData) (k : MapKey) : option PropertyBinding :=
  match k with
  | StrKey s => map_get s (properties o)
  | SymKey y => map_get y (symbols o)
  end.

(** [InternalGetPropertiesMap(O, P).set(key, binding)] *)
Definition binding_set (k : MapKey) (b : PropertyBinding) (o : ObjectData) : ObjectData :=
  match k with
  | StrKey s =>
      mkObject (map_set s b (properties o)) (symbols o) (Prototype o) (Extensible o)
               (isIntrinsic o) (isPartial o) (isSimple o) (StringData o)
               (isFunctionValue o) (isNativeFunctionValue o) (hasCall o) (ThisModeSlot o)
  | SymKey y =>
      mkObject (properties o) (map_set y b (symbols o)) (Prototype o) (Extensible o)
               (isIntrinsic o) (isPartial o) (isSimple o) (StringData o)
               (isFunctionValue o) (isNativeFunctionValue o) (hasCall o) (ThisModeSlot o)
  end.

(** The descriptor currently held by the binding of [O] under [k]. *)
Definition own_descriptor (realm : Realm) (O : ObjRef) (k : MapKey) : option Descriptor :=
  match binding_get (obj realm O) k with
  | Some b => descriptor b
  | None => None
  end.

(** [propertyBinding.descriptor = desc] on the binding of [O] filed under
    [k] (the binding object is the one the map holds). *)
Definition set_descriptor (O : ObjRef) (k : MapKey) (desc : option Descriptor) : M unit :=
  modify (fun realm => set_obj O (binding_set k (mkBinding desc O k) (obj realm O)) realm).

(** Modelled from the spec: [realm.recordModifiedProperty(binding)]
    (realm.js is not among the sources).  Section 4.4: on the first touch
    of a binding within the region nothing is snapshot, the binding is
    added to the region's modified-set. *)
Definition recordModifiedProperty (O : ObjRef) (k : MapKey) : M unit :=
  modify (fun realm =>
    if bool_decide ((O, k) ∈ modifiedProperties realm) then realm
    else mkRealm (heap realm) (modifiedProperties realm ++ [(O, k)]) (generator realm)
                 (GlobalObject realm) (GlobalEnv realm) (contextStack realm)
                 (thisValues realm)).

(** [generator.emit...(...)] with the generator of the realm *)
Definition emit (e : GeneratorEntry) : M unit :=
  modify (fun realm =>
    match generator realm with
    | Some log => mkRealm (heap realm) (modifiedProperties realm) (Some (log ++ [e]))
                          (GlobalObject realm) (GlobalEnv realm) (contextStack realm)
                          (thisValues realm)
    | None => realm
    end).

(** ** The collaborators *)

(** Operations of the interpreter that live outside the files at hand. *)
Class Externals : Type := {
  (** methods/abstract.js *)
  SameValue : Value -> Value -> bool;
  SameValuePartial : Value -> Value -> M bool;
  (** methods/to.js *)
  ToUint32 : Value -> M Z;
  ToNumber : Value -> M number;
  ToObject : Value -> M Value;
  ToObjectPartial : Value -> M Value;
  CanonicalNumericIndexString : string -> option number;
  (** methods/create.js *)
  CreateDataProperty : Value -> PropertyKeyValue -> Value -> M bool;
  (** the generator: [derive(types, values, args, buildNode, "resolved")] *)
  derive : AbstractData -> M Value;
  deriveAbstract : list Value -> M Value;
  (** environment.js *)
  BindThisValue : EnvironmentRecord -> Value -> M Value;
  NewDeclarativeEnvironment : option LexicalEnvironment -> M LexicalEnvironment;
  CreateMutableBinding : EnvironmentRecord -> string -> bool -> M unit;
  (** the evaluator: [env.evaluate(ast, strictCode)] followed by
      [GetValue], and [GetIterator] *)
  evaluate : LexicalEnvironment -> BabelNode -> bool -> M Value;
  GetValue : Value -> M Value;
  GetIterator : Value -> M Value;
  (** [ArgumentListEvaluation] of methods/call.js, which runs the evaluator
      and the iteration protocol over the argument nodes *)
  ArgumentListEvaluation : bool -> LexicalEnvironment -> list BabelNode -> M (list Value)
}.

(** Operations that [$OwnPropertyKeys] of the string wrapper kind calls and
    that live outside the files at hand. *)
Class KeyExternals : Type := {
  (** methods/to.js *)
  ToString : Value -> M string;
  ToInteger : number -> M number;
  (** values/ObjectValue.js: the string keys of the own properties *)
  getOwnPropertyKeysArray : ObjRef -> M (list string)
}.

(** The internal methods of an object, dispatched on its kind
    ([O.$GetOwnProperty(P)] and the like). *)
Class InternalMethods : Type := {
  dollar_GetOwnProperty : Value -> PropertyKeyValue -> M (option Descriptor);
  dollar_GetPrototypeOf : Value -> M Value;
  dollar_Set : Value -> PropertyKeyValue -> Value -> Value -> M bool;
  dollar_Delete : Value -> PropertyKeyValue -> M bool;
  dollar_DefineOwnProperty : Value -> PropertyKeyValue -> Descriptor -> M bool;
  dollar_OwnPropertyKeys : Value -> M (list PropertyKeyValue);
  dollar_Call : Value -> Value -> list Value -> M Value
}.

(** ** methods/properties.js *)

Section Properties.
Context {ext : Externals} {im : InternalMethods}.

Definition InternalDescriptorPropertyToValue (v : option FieldValue) : Value :=
  match v with
  | None => UndefinedValue
  | Some (FBool b) => BooleanValue b
  | Some (FVal x) => x
  end.

Definition InternalSetProperty (O : ObjRef) (P : PropertyKeyValue) (desc : Descriptor) : M unit :=
  let key := InternalGetPropertiesKey P in
  propertyBinding <- gets (fun realm => binding_get (obj realm O) key) ;;
  (match propertyBinding with
   | None => set_descriptor O key None
   | Some _ => ret tt
   end) ;;;
  recordModifiedProperty O key ;;;
  set_descriptor O key (Some desc).

Definition InternalUpdatedProperty (O : ObjRef) (P : PropertyKeyValue) : M unit :=
  intrinsic <- gets (fun realm => isIntrinsic (obj realm O)) ;;
  if negb intrinsic then ret tt else
  gen <- gets generator ;;
  match gen with
  | None => ret tt
  | Some _ =>
    match P with
    | PKSymbolValue _ => ret tt
    | PKstring P | PKStringValue P =>
        desc <- gets (fun realm => own_descriptor realm O (StrKey P)) ;;
        isGlobal <- gets (fun realm => bool_decide (O = GlobalObject realm)) ;;
        match desc with
        | None =>
            if isGlobal then emit (emitGlobalDelete P) else emit (emitPropertyDelete O P)
        | Some desc =>
            match value desc with
            | Some v =>
                if negb (truthy (configurable desc)) && truthy (enumerable desc) && isGlobal
                then emit (emitGlobalDeclaration P v)
                else if truthy (configurable desc) && truthy (enumerable desc)
                then (if isGlobal then emit (emitGlobalAssignment P v)
                      else emit (emitPropertyAssignment O P v))
                else emit (emitDefineProperty O P desc)
            | None => emit (emitDefineProperty O P desc)
            end
        end
    end
  end.

Definition ThrowIfMightHaveBeenDeleted (v : option Value) : M unit :=
  match v with
  | None => ret tt
  | Some v =>
      if negb (mightHaveBeenDeleted v) then ret tt else
      invariant (negb (isConcrete v)) "real empty values should never get here" ;;;
      throwIntrospectionError
  end.

(** ECMA262 7.2.7 *)
Definition IsPropertyKey (arg : PropertyKeyValue) : bool :=
  match arg with
  | PKstring _ => true
  | PKStringValue _ => true
  | PKSymbolValue _ => true
  end.

(** ECMA262 9.1.5.1 *)
Definition OrdinaryGetOwnProperty (O : ObjRef) (P : PropertyKeyValue) : M (option Descriptor) :=
  invariant (IsPropertyKey P) "expected a property key" ;;;
  o <- gets (fun realm => obj realm O) ;;
  match binding_get o (InternalGetPropertiesKey P) with
  | None =>
      if isPartial o && negb (isSimple o) then throwIntrospectionError
      else ret None
  | Some existingBinding =>
      match descriptor existingBinding with
      | None => ret None
      | Some X =>
          if IsDataDescriptor (Some X) then
            v <- (match value X with
                  | Some (AbstractValue a) =>
                      if isPartial o && negb (abs_resolved a) then
                        gen <- gets generator ;;
                        invariant (bool_decide (is_Some gen)) "realmGenerator" ;;;
                        v <- derive a ;;
                        InternalSetProperty O P
                          (mkDesc (Some v)
                                  (Some (match writable X with Some w => w | None => false end))
                                  None None
                                  (Some (match enumerable X with Some e => e | None => false end))
                                  (Some (match configurable X with Some c => c | None => false end))) ;;;
                        ret (Some v)
                      else ret (value X)
                  | other => ret other
                  end) ;;
            ret (Some (mkDesc v (writable X) None None (enumerable X) (configurable X)))
          else
            invariant (IsAccessorDescriptor (Some X)) "expected accessor property" ;;;
            ret (Some (mkDesc None None (get X) (set X) (enumerable X) (configurable X)))
      end
  end.

(** The loop of step 4 over the fields of [Desc], leaving at the first
    field that is not identical. *)
Fixpoint identical_fields (fields : list Field) (Desc current : Descriptor) (identical : bool) : bool :=
  match fields with
  | [] => identical
  | field :: rest =>
      let identical :=
        if negb (field_in field current) then false
        else
          let dval := InternalDescriptorPropertyToValue (field_get Desc field) in
          let cval := InternalDescriptorPropertyToValue (field_get current field) in
          if isConcrete dval && isConcrete cval then SameValue dval cval
          else same_reference dval cval in
      if negb identical then identical
      else identical_fields rest Desc current identical
  end.

(** [for (let field in Desc) property[field] = Desc[field]] *)
Definition copy_fields (Desc property : Descriptor) : Descriptor :=
  fold_left (fun property field => field_copy field Desc property) (desc_keys Desc) property.

(** ECMA262 9.1.6.3 *)
Definition ValidateAndApplyPropertyDescriptor
    (O : option ObjRef) (P : option PropertyKeyValue) (extensible : bool)
    (Desc : Descriptor) (current : option Descriptor) : M bool :=
  (* 1. Assert: If O is not undefined, then IsPropertyKey(P) is true. *)
  (match O, P with
   | Some _, None => invariant false "P !== undefined"
   | Some _, Some P => invariant (IsPropertyKey P) "IsPropertyKey(realm, P)"
   | None, _ => ret tt
   end) ;;;
  match current with
  | None =>
      (* 2. If current is undefined, then *)
      (* a. If extensible is false, return false. *)
      if negb extensible then ret false else
      (* c. If IsGenericDescriptor(Desc) is true or IsDataDescriptor(Desc) is true, then *)
      (if IsGenericDescriptor (Some Desc) || IsDataDescriptor (Some Desc) then
         match O, P with
         | Some O_, Some P_ =>
             InternalSetProperty O_ P_
               (mkDesc (Some (match value Desc with Some v => v | None => UndefinedValue end))
                       (Some (match writable Desc with Some w => w | None => false end))
                       None None
                       (Some (match enumerable Desc with Some e => e | None => false end))
                       (Some (match configurable Desc with Some c => c | None => false end))) ;;;
             InternalUpdatedProperty O_ P_
         | Some _, None => invariant false "P !== undefined"
         | None, _ => ret tt
         end
       else
         (* d. Else Desc must be an accessor Property Descriptor, *)
         match O, P with
         | Some O_, Some P_ =>
             InternalSetProperty O_ P_
               (mkDesc None None
                       (Some (match get Desc with Some g => g | None => UndefinedValue end))
                       (Some (match set Desc with Some s => s | None => UndefinedValue end))
                       (Some (match enumerable Desc with Some e => e | None => false end))
                       (Some (match configurable Desc with Some c => c | None => false end))) ;;;
             InternalUpdatedProperty O_ P_
         | Some _, None => invariant false "P !== undefined"
         | None, _ => ret tt
         end) ;;;
      (* e. Return true. *)
      ret true
  | Some current =>
      ThrowIfMightHaveBeenDeleted (value current) ;;;
      (* 3. Return true, if every field in Desc is absent. *)
      if bool_decide (length (desc_keys Desc) = 0) then ret true else
      (* 4. Return true, if every field in Desc also occurs in current and the
            value of every field in Desc is the same value as the corresponding
            field in current when compared using the SameValue algorithm. *)
      if identical_fields (desc_keys Desc) Desc current true then ret true else
      (* 5. If the [[Configurable]] field of current is false, then *)
      if negb (truthy (configurable current)) && truthy (configurable Desc) then ret false else
      if negb (truthy (configurable current)) && field_in f_enumerable Desc
         && negb (bool_decide (enumerable Desc = enumerable current)) then ret false else
      (* 10. If O is not undefined, then *)
      let apply : M bool :=
        (match O, P with
         | Some O_, Some P_ =>
             let key := InternalGetPropertiesKey P_ in
             propertyBinding <- gets (fun realm => binding_get (obj realm O_) key) ;;
             property <-
               (match propertyBinding with
                | None =>
                    recordModifiedProperty O_ key ;;;
                    set_descriptor O_ key (Some current) ;;;
                    ret current
                | Some b =>
                    match descriptor b with
                    | None =>
                        recordModifiedProperty O_ key ;;;
                        set_descriptor O_ key (Some current) ;;;
                        ret current
                    | Some property =>
                        recordModifiedProperty O_ key ;;;
                        ret property
                    end
                end) ;;
             (* a. For each field of Desc that is present, set the corresponding
                   attribute of the property named P of object O to the value of
                   the field. *)
             set_descriptor O_ key (Some (copy_fields Desc property)) ;;;
             InternalUpdatedProperty O_ P_
         | Some _, None => invariant false "P !== undefined"
         | None, _ => ret tt
         end) ;;;
        (* 11. Return true. *)
        ret true in
      (* the stored descriptor of P, rewritten in place by step 7 *)
      let convert (f : Descriptor -> Descriptor) : M unit :=
        match O, P with
        | Some O_, Some P_ =>
            let key := InternalGetPropertiesKey P_ in
            propertyBinding <- gets (fun realm => binding_get (obj realm O_) key) ;;
            match propertyBinding with
            | None => invariant false "propertyBinding !== undefined"
            | Some b =>
                match descriptor b with
                | Some desc => set_descriptor O_ key (Some (f desc))
                | None => ret tt
                end
            end
        | Some _, None => invariant false "P !== undefined"
        | None, _ => ret tt
        end in
      (* 6. If IsGenericDescriptor(Desc) is true, no further validation is required. *)
      if IsGenericDescriptor (Some Desc) then apply
      else if negb (Bool.eqb (IsDataDescriptor (Some current)) (IsDataDescriptor (Some Desc))) then
        (* 7. a. Return false, if the [[Configurable]] field of current is false. *)
        if negb (truthy (configurable current)) then ret false else
        if IsDataDescriptor (Some current) then
          (* b. convert the property from a data property to an accessor property *)
          convert (fun desc => mkDesc None None (Some UndefinedValue) (Some UndefinedValue)
                                      (enumerable desc) (configurable desc)) ;;;
          apply
        else
          (* c. convert the property from an accessor property to a data property *)
          convert (fun desc => mkDesc (Some UndefinedValue) (Some false) None None
                                      (enumerable desc) (configurable desc)) ;;;
          apply
      else if IsDataDescriptor (Some current) && IsDataDescriptor (Some Desc) then
        (* 8. a. If the [[Configurable]] field of current is false, then *)
        if negb (truthy (configurable current)) then
          (* i. Return false, if the [[Writable]] field of current is false and
                the [[Writable]] field of Desc is true. *)
          if negb (truthy (writable current)) && truthy (writable Desc) then ret false else
          (* ii. If the [[Writable]] field of current is false, then *)
          if negb (truthy (writable current)) then
            match value Desc with
            | Some v =>
                same <- SameValuePartial v (value_or_undefined (value current)) ;;
                if negb same then ret false else apply
            | None => apply
            end
          else apply
        else apply
      else
        (* 9. Else IsAccessorDescriptor(current) and IsAccessorDescriptor(Desc) are both true, *)
        if negb (truthy (configurable current)) then
          sameSet <- (match set Desc with
                      | Some s => SameValuePartial s (value_or_undefined (set current))
                      | None => ret true
                      end) ;;
          if negb sameSet then ret false else
          sameGet <- (match get Desc with
                      | Some g => SameValuePartial g (value_or_undefined (get current))
                      | None => ret true
                      end) ;;
          if negb sameGet then ret false else apply
        else apply
  end.

(** ECMA262 9.1.6.2 *)
Definition IsCompatiblePropertyDescriptor (extensible : bool) (Desc : Descriptor)
    (current : option Descriptor) : M bool :=
  ValidateAndApplyPropertyDescriptor None None extensible Desc current.

(** ECMA262 9.1.6.1 *)
Definition OrdinaryDefineOwnProperty (O : ObjRef) (P : PropertyKeyValue) (Desc : Descriptor) : M bool :=
  (* 1. Let current be ? O.[[GetOwnProperty]](P). *)
  current <- dollar_GetOwnProperty (ObjectValue O) P ;;
  (* 2. Let extensible be the value of the [[Extensible]] internal slot of O. *)
  extensible <- gets (fun realm => Extensible (obj realm O)) ;;
  (* 3. Return ValidateAndApplyPropertyDescriptor(O, P, extensible, Desc, current). *)
  ValidateAndApplyPropertyDescriptor (Some O) (Some P) extensible Desc current.

(** ECMA262 9.1.10.1 *)
Definition OrdinaryDelete (O : ObjRef) (P : PropertyKeyValue) : M bool :=
  (* 1. Assert: IsPropertyKey(P) is true. *)
  invariant (IsPropertyKey P) "expected a property key" ;;;
  (* 2. Let desc be ? O.[[GetOwnProperty]](P). *)
  desc <- dollar_GetOwnProperty (ObjectValue O) P ;;
  match desc with
  | None => (* 3. If desc is undefined, return true. *) ret true
  | Some desc =>
      (* 4. If desc.[[Configurable]] is true, then *)
      if truthy (configurable desc) then
        let key := InternalGetPropertiesKey P in
        propertyBinding <- gets (fun realm => binding_get (obj realm O) key) ;;
        invariant (bool_decide (is_Some propertyBinding)) "propertyBinding !== undefined" ;;;
        recordModifiedProperty O key ;;;
        set_descriptor O key None ;;;
        InternalUpdatedProperty O P ;;;
        ret true
      else
        (* 5. Return false. *)
        ret false
  end.

(** ECMA262 7.3.8 *)
Definition DeletePropertyOrThrow (O : ObjRef) (P : PropertyKeyValue) : M bool :=
  invariant (IsPropertyKey P) "expected a property key" ;;;
  (* 3. Let success be ? O.[[Delete]](P). *)
  success <- dollar_Delete (ObjectValue O) P ;;
  (* 4. If success is false, throw a TypeError exception. *)
  if negb success then
    throw (ThrowCompletion TypeError (Some "couldn't delete property"))
  else
    (* 5. Return success. *)
    ret success.

(** ECMA262 7.3.3 [Set]; the name is reserved here, hence the underscore. *)
Definition Set_ (O : Value) (P : PropertyKeyValue) (V : Value) (Throw : bool) : M bool :=
  (* 1. Assert: Type(O) is Object. *)
  invariant (match O with ObjectValue _ => true | AbstractValue a => bool_decide (abs_type a = TObject) | _ => false end)
            "expected object value" ;;;
  invariant (IsPropertyKey P) "expected property key" ;;;
  (* 4. Let success be ? O.[[Set]](P, V, O). *)
  success <- dollar_Set O P V O ;;
  (* 5. If success is false and Throw is true, throw a TypeError exception. *)
  if negb success && Throw then throw (createErrorThrowCompletion TypeError)
  else
    (* 6. Return success. *)
    ret success.

(** ECMA262 7.3.7 *)
Definition DefinePropertyOrThrow (O : Value) (P : PropertyKeyValue) (desc : Descriptor) : M bool :=
  invariant (match O with ObjectValue _ => true | AbstractValue a => bool_decide (abs_type a = TObject) | _ => false end)
            "expected object" ;;;
  invariant (IsPropertyKey P) "expected property key" ;;;
  (* 3. Let success be ? O.[[DefineOwnProperty]](P, desc). *)
  success <- dollar_DefineOwnProperty O P desc ;;
  (* 4. If success is false, throw a TypeError exception. *)
  if negb success then throw (createErrorThrowCompletion TypeError)
  else
    (* 5. Return success. *)
    ret success.

(** Determines if an object with parent O may create its own property P.
    The recursion follows the prototype chain; [fuel] bounds its depth. *)
Fixpoint parentPermitsChildPropertyCreation (fuel : nat) (O : Value) (P : PropertyKeyValue) : M bool :=
  match fuel with
  | O => fail OutOfFuel
  | S fuel =>
      ownDesc <- dollar_GetOwnProperty O P ;;
      let ownDescValue :=
        match ownDesc with
        | None => UndefinedValue
        | Some d => value_or_undefined (value d)
        end in
      let objects : M bool :=
        (* O might have a property P and so might object *)
        match ownDesc with
        | None => invariant false "ownDesc !== undefined" ;;; ret false
        | Some d =>
            if IsDataDescriptor (Some d) && truthy (writable d) then ret true
            else ret false
        end in
      if negb (bool_decide (is_Some ownDesc)) || mightHaveBeenDeleted ownDescValue then
        (* O might not object, so first ask its parent *)
        parent <- dollar_GetPrototypeOf O ;;
        throwIfNotConcrete parent ;;;
        permitted <- (match parent with
                      | NullValue => ret true
                      | _ => parentPermitsChildPropertyCreation fuel parent P
                      end) ;;
        if negb permitted then ret false else
        (* Parent is OK, so if O does not object return true *)
        if negb (bool_decide (is_Some ownDesc)) then ret true
        else objects
      else objects
  end.

(** ECMA262 7.2.3 *)
Definition IsCallable (func : Value) : M bool :=
  (* 1. If Type(argument) is not Object, return false. *)
  match func with
  | ObjectValue r =>
      isFunction <- gets (fun realm => isFunctionValue (obj realm r)) ;;
      if isFunction then ret true else
      (* 2. If argument has a [[Call]] internal method, return true. *)
      call <- gets (fun realm => hasCall (obj realm r)) ;;
      if call then ret true else ret false
  | AbstractValue a =>
      if negb (bool_decide (abs_type a = TObject) || bool_decide (abs_type a = TFunction)
               || bool_decide (abs_type a = TValue)) then ret false
      else if bool_decide (abs_type a = TFunction) then ret true
      else throwIntrospectionError
  | _ => ret false
  end.

(** ECMA262 7.3.12 *)
Definition Call (F V : Value) (argsList : list Value) : M Value :=
  (* 2. If IsCallable(F) is false, throw a TypeError exception. *)
  callable <- IsCallable F ;;
  if negb callable then throw (ThrowCompletion TypeError (Some "not callable")) else
  invariant (match F with ObjectValue _ => true | _ => false end) "F instanceof ObjectValue" ;;;
  call <- gets (fun realm => match F with ObjectValue r => hasCall (obj realm r) | _ => false end) ;;
  invariant call "no call method on this value" ;;;
  (* 3. Return ? F.[[Call]](V, argumentsList). *)
  dollar_Call F V argsList.

(** ECMA262 9.1.9.1 *)
Definition OrdinarySet (fuel : nat) (O : ObjRef) (P : PropertyKeyValue) (V Receiver : Value) : M bool :=
  let weakDeletion := mightHaveBeenDeleted V in
  (* 1. Assert: IsPropertyKey(P) is true. *)
  invariant (IsPropertyKey P) "expected property key" ;;;
  (* 2. Let ownDesc be ? O.[[GetOwnProperty]](P). *)
  ownDesc <- dollar_GetOwnProperty (ObjectValue O) P ;;
  let ownDescValue :=
    match ownDesc with
    | None => UndefinedValue
    | Some d => value_or_undefined (value d)
    end in
  (* steps 4 to 9, once ownDesc is settled *)
  let assign (ownDesc : Descriptor) : M bool :=
    (* 4. If IsDataDescriptor(ownDesc) is true, then *)
    if IsDataDescriptor (Some ownDesc) then
      (* a. If ownDesc.[[Writable]] is false, return false. *)
      if negb (truthy (writable ownDesc)) && negb weakDeletion then
        if mightHaveBeenDeleted ownDescValue then
          invariant (negb (isConcrete ownDescValue)) "ownDescValue instanceof AbstractValue" ;;;
          throwIntrospectionError
        else ret false
      else
      (* b. If Type(Receiver) is not Object, return false. *)
      Receiver <- throwIfNotConcrete Receiver ;;
      match Receiver with
      | ObjectValue _ =>
          (* c. Let existingDescriptor be ? Receiver.[[GetOwnProperty]](P). *)
          existingDescriptor <- dollar_GetOwnProperty Receiver P ;;
          match existingDescriptor with
          | Some existingDescriptor =>
              let existingDescValue := value_or_undefined (value existingDescriptor) in
              (* i. If IsAccessorDescriptor(existingDescriptor) is true, return false. *)
              if IsAccessorDescriptor (Some existingDescriptor) then
                invariant (negb (mightHaveBeenDeleted existingDescValue))
                  "should not fail until weak deletes of accessors are suppported" ;;;
                ret false
              else
              (* ii. If existingDescriptor.[[Writable]] is false, return false. *)
              if negb (truthy (writable existingDescriptor))
                 && negb (weakDeletion && truthy (configurable existingDescriptor)) then
                if mightHaveBeenDeleted existingDescValue then
                  invariant (negb (isConcrete existingDescValue))
                    "existingDescValue instanceof AbstractValue" ;;;
                  throwIntrospectionError
                else ret false
              else
              (* iii. Let valueDesc be the PropertyDescriptor{[[Value]]: V}. *)
              let valueDesc :=
                if weakDeletion then
                  mkDesc (Some V) (writable existingDescriptor) (get existingDescriptor)
                         (set existingDescriptor) (enumerable existingDescriptor)
                         (configurable existingDescriptor)
                else mkDesc (Some V) None None None None None in
              (* iv. Return ? Receiver.[[DefineOwnProperty]](P, valueDesc). *)
              (if weakDeletion || mightHaveBeenDeleted existingDescValue then
                 dollar_Delete Receiver P ;;; ret tt
               else ret tt) ;;;
              dollar_DefineOwnProperty Receiver P valueDesc
          | None =>
              (* e. i. Return ? CreateDataProperty(Receiver, P, V). *)
              CreateDataProperty Receiver P V
          end
      | _ => ret false
      end
    else
      (* 5. Assert: IsAccessorDescriptor(ownDesc) is true. *)
      invariant (IsAccessorDescriptor (Some ownDesc)) "expected accessor" ;;;
      (* 6. Let setter be ownDesc.[[Set]]. *)
      match set ownDesc with
      | None | Some UndefinedValue =>
          (* 7. If setter is undefined, return false. *)
          ret false
      | Some setter =>
          (* 8. Perform ? Call(setter, Receiver, « V »). *)
          setter <- throwIfNotConcrete setter ;;
          Call setter Receiver [V] ;;;
          (* 9. Return true. *)
          ret true
      end in
  (* 3. If ownDesc is undefined (or might be), then *)
  if negb (bool_decide (is_Some ownDesc)) || mightHaveBeenDeleted ownDescValue then
    (* a. Let parent be ? O.[[GetPrototypeOf]](). *)
    parent <- dollar_GetPrototypeOf (ObjectValue O) ;;
    throwIfNotConcrete parent ;;;
    let carry_on : M bool :=
      (* i. Let ownDesc be the PropertyDescriptor{[[Value]]: undefined,
            [[Writable]]: true, [[Enumerable]]: true, [[Configurable]]: true}. *)
      match ownDesc with
      | None => assign (mkDesc (Some UndefinedValue) (Some true) None None (Some true) (Some true))
      | Some d => assign d
      end in
    (* b. If parent is not null, then *)
    match parent with
    | NullValue => carry_on
    | _ =>
        match ownDesc with
        | None =>
            (* i. Return ? parent.[[Set]](P, V, Receiver). *)
            dollar_Set parent P V Receiver
        | Some _ =>
            (* But since we don't know if O has its own property P, the parent
               might actually have a say. Give up, unless the parent would be
               OK with it. *)
            permitted <- parentPermitsChildPropertyCreation fuel parent P ;;
            if negb permitted then
              invariant (negb (isConcrete ownDescValue)) "ownDescValue instanceof AbstractValue" ;;;
              throwIntrospectionError
            else carry_on
        end
    end
  else
    match ownDesc with
    | Some d => assign d
    | None => invariant false "ownDesc" ;;; ret false
    end.

(** *** ArraySetLength *)

(** [StrWhiteSpaceChar], for the code units a string of this model holds *)
Definition isWhiteSpace (c : ascii) : bool :=
  let n := nat_of_ascii c in
  bool_decide (n ∈ [9; 10; 11; 12; 13; 32; 160]).

Fixpoint trimLeft (s : string) : string :=
  match s with
  | String c rest => if isWhiteSpace c then trimLeft rest else s
  | EmptyString => s
  end.

Definition digit_of (c : ascii) : option Z :=
  let n := Z.of_nat (nat_of_ascii c) in
  if ((48 <=? n) && (n <=? 57))%Z then Some (n - 48)%Z else None.

(** The value of the longest prefix of decimal digits, if there is one. *)
Fixpoint parse_digits (s : string) (acc : option Z) : option Z :=
  match s with
  | String c rest =>
      match digit_of c with
      | Some d => parse_digits rest (Some (10 * default 0 acc + d)%Z)
      | None => acc
      end
  | EmptyString => acc
  end.

(** [parseInt(x, 10)]: leading white space, a sign, then decimal digits;
    [None] is NaN.  The integer is kept exact: a rounded result lies above
    any array length and is filtered out all the same. *)
Definition parseInt (x : string) : option Z :=
  let s := trimLeft x in
  let '(sign, s) :=
    match s with
    | String "-" rest => ((-1)%Z, rest)
    | String "+" rest => (1%Z, rest)
    | _ => (1%Z, s)
    end in
  match parse_digits s None with
  | Some n => Some (sign * n)%Z
  | None => None
  end.

(** [x + ""] for an integer *)
Definition ToString_int (x : Z) : string := NilZero.string_of_int (Z.to_int x).

Fixpoint insert_sorted {A} (le : A -> A -> bool) (x : A) (l : list A) : list A :=
  match l with
  | [] => [x]
  | y :: rest => if le x y then x :: l else y :: insert_sorted le x rest
  end.

(** [Array.prototype.sort()] without a comparison function: the elements
    are ordered by their string conversions, code unit by code unit. *)
Definition sort (l : list Z) : list Z :=
  fold_right (insert_sorted (fun x y => String.leb (ToString_int x) (ToString_int y))) [] l.

Definition with_value (v : Value) (D : Descriptor) : Descriptor :=
  mkDesc (Some v) (writable D) (get D) (set D) (enumerable D) (configurable D).

Definition with_writable (w : bool) (D : Descriptor) : Descriptor :=
  mkDesc (value D) (Some w) (get D) (set D) (enumerable D) (configurable D).

(** The indices that step 16 visits, in the order it visits them. *)
Definition ArraySetLength_keys (properties : list (string * PropertyBinding))
    (newLen : Z) (oldLenCopy : number) : list Z :=
  rev (sort (filter (fun x => Z.leb newLen x && num_le (of_Z x) oldLenCopy)
                    (omap parseInt (map fst properties)))).

(** 16. While newLen < oldLen repeat; the result tells whether the loop ran
    to its end ([false]: it returned false from the function). *)
Fixpoint ArraySetLength_loop (A : ObjRef) (keys : list Z) (newLenDesc : Descriptor)
    (newWritable : bool) : M bool :=
  match keys with
  | [] => ret true
  | key :: keys =>
      (* a. Set oldLen to oldLen - 1. *)
      let oldLen := key in
      (* b. Let deleteSucceeded be ! A.[[Delete]](! ToString(oldLen)). *)
      deleteSucceeded <- dollar_Delete (ObjectValue A) (PKstring (ToString_int oldLen)) ;;
      (* c. If deleteSucceeded is false, then *)
      if negb deleteSucceeded then
        (* i. Set newLenDesc.[[Value]] to oldLen + 1. *)
        let newLenDesc := with_value (NumberValue (of_Z (oldLen + 1)%Z)) newLenDesc in
        (* ii. If newWritable is false, set newLenDesc.[[Writable]] to false. *)
        let newLenDesc := if negb newWritable then with_writable false newLenDesc else newLenDesc in
        (* iii. Let succeeded be ! OrdinaryDefineOwnProperty(A, "length", newLenDesc). *)
        OrdinaryDefineOwnProperty A (PKstring "length") newLenDesc ;;;
        (* iv. Return false. *)
        ret false
      else ArraySetLength_loop A keys newLenDesc newWritable
  end.

(** ECMA262 9.4.2.4 *)
Definition ArraySetLength (A : ObjRef) (Desc : Descriptor) : M bool :=
  (* 1. If the [[Value]] field of Desc is absent, then *)
  match value Desc with
  | None =>
      (* a. Return OrdinaryDefineOwnProperty(A, "length", Desc). *)
      OrdinaryDefineOwnProperty A (PKstring "length") Desc
  | Some DescValue =>
      (* 2. Let newLenDesc be a copy of Desc. *)
      let newLenDesc := Desc in
      (* 3. Let newLen be ? ToUint32(Desc.[[Value]]). *)
      newLen <- ToUint32 DescValue ;;
      (* 4. Let numberLen be ? ToNumber(Desc.[[Value]]). *)
      numberLen <- ToNumber DescValue ;;
      (* 5. If newLen ≠ numberLen, throw a RangeError exception. *)
      if negb (num_eq (of_Z newLen) numberLen) then
        throw (ThrowCompletion RangeError (Some "should be a uint"))
      else
      (* 6. Set newLenDesc.[[Value]] to newLen. *)
      let newLenDesc := with_value (NumberValue (of_Z newLen)) newLenDesc in
      (* 7. Let oldLenDesc be OrdinaryGetOwnProperty(A, "length"). *)
      oldLenDesc <- OrdinaryGetOwnProperty A (PKstring "length") ;;
      (* 8. Assert: oldLenDesc will never be undefined or an accessor descriptor *)
      invariant (bool_decide (is_Some oldLenDesc) && negb (IsAccessorDescriptor oldLenDesc))
                "cannot be undefined or an accessor descriptor" ;;;
      (* 9. Let oldLen be oldLenDesc.[[Value]]. *)
      oldLen <- (match oldLenDesc ≫= value with
                 | None => invariant false "oldLen !== undefined" ;;; ret NaN
                 | Some oldLen =>
                     oldLen <- throwIfNotConcrete oldLen ;;
                     match oldLen with
                     | NumberValue n => ret n
                     | _ => invariant false "should be a number" ;;; ret NaN
                     end
                 end) ;;
      (* 10. If newLen ≥ oldLen, then *)
      if num_le oldLen (of_Z newLen) then
        (* a. Return OrdinaryDefineOwnProperty(A, "length", newLenDesc). *)
        OrdinaryDefineOwnProperty A (PKstring "length") newLenDesc
      else
      (* 11. If oldLenDesc.[[Writable]] is false, return false. *)
      if negb (truthy (oldLenDesc ≫= writable)) then ret false else
      (* 12. If newLenDesc.[[Writable]] is absent or has the value true, let
             newWritable be true. *)
      let newWritable :=
        if negb (field_in f_writable newLenDesc) || bool_decide (writable newLenDesc = Some true)
        then true else false in
      (* 13. c. Set newLenDesc.[[Writable]] to true. *)
      let newLenDesc := if newWritable then newLenDesc else with_writable true newLenDesc in
      (* 14. Let succeeded be ! OrdinaryDefineOwnProperty(A, "length", newLenDesc). *)
      succeeded <- OrdinaryDefineOwnProperty A (PKstring "length") newLenDesc ;;
      (* 15. If succeeded is false, return false. *)
      if negb succeeded then ret false else
      (* Here we diverge from the spec: instead of traversing all indices from
         oldLen to newLen, only the indices that are actually present are touched. *)
      let oldLenCopy := oldLen in
      keys <- gets (fun realm => ArraySetLength_keys (properties (obj realm A)) newLen oldLenCopy) ;;
      completed <- ArraySetLength_loop A keys newLenDesc newWritable ;;
      if negb completed then ret false else
      (* 17. If newWritable is false, then *)
      if negb newWritable then
        OrdinaryDefineOwnProperty A (PKstring "length")
          (mkDesc None (Some false) None None None None)
      else
        (* 18. Return true. *)
        ret true
  end.

(** *** values/StringExotic.js *)

(** [str.charAt(index)] for an integral index *)
Definition charAt (str : string) (index : number) : string :=
  match index with
  | Fin q =>
      if Z.ltb (Qfloor q) 0%Z then ""
      else match String.get (Z.to_nat (Qfloor q)) str with
           | Some c => String c ""
           | None => ""
           end
  | NegZero => match String.get 0 str with Some c => String c "" | None => "" end
  | _ => ""
  end.

(** ECMA262 9.4.3.1, [$GetOwnProperty] of the string wrapper kind *)
Definition StringExotic_GetOwnProperty (this : ObjRef) (P : PropertyKeyValue) : M (option Descriptor) :=
  (* 2. Let desc be OrdinaryGetOwnProperty(S, P). *)
  desc <- OrdinaryGetOwnProperty this P ;;
  match desc with
  | Some desc =>
      (* 3. If desc is not undefined, return desc. *)
      ThrowIfMightHaveBeenDeleted (value desc) ;;;
      ret (Some desc)
  | None =>
      match P with
      | PKSymbolValue _ =>
          (* 4. If Type(P) is not String, return undefined. *)
          ret None
      | PKstring p | PKStringValue p =>
          (* 5. Let index be ! CanonicalNumericIndexString(P). *)
          match CanonicalNumericIndexString p with
          | None => (* 6. If index is undefined, return undefined. *) ret None
          | Some index =>
              (* 7. If IsInteger(index) is false, return undefined. *)
              if negb (IsInteger index) then ret None else
              (* 8. If index = -0, return undefined. *)
              if match index with NegZero => true | _ => false end then ret None else
              (* 9. Let str be the String value of S.[[StringData]]. *)
              str <- gets (fun realm => StringData (obj realm this)) ;;
              match str with
              | None => invariant false "str" ;;; ret None
              | Some str =>
                  (* 10. Let len be the number of elements in str. *)
                  let len := Z.of_nat (String.length str) in
                  (* 11. If index < 0 or len <= index, return undefined. *)
                  if num_lt index (of_Z 0%Z) || num_le (of_Z len) index then ret None else
                  (* 12. Let resultStr be a String value of length 1, containing
                         one code unit from str, the code unit at index index. *)
                  let resultStr := StringValue (charAt str index) in
                  (* 13. Return a PropertyDescriptor{[[Value]]: resultStr,
                         [[Writable]]: false, [[Enumerable]]: true,
                         [[Configurable]]: false}. *)
                  ret (Some (mkDesc (Some resultStr) (Some false) None None (Some true) (Some false)))
              end
          end
      end
  end.

(** [l.filter(f)] and [l.map(f)] for a callback that runs interpreter
    code: the elements are visited from first to last. *)
Fixpoint filterM {A} (f : A -> M bool) (l : list A) : M (list A) :=
  match l with
  | [] => ret []
  | x :: rest =>
      keep <- f x ;;
      rest <- filterM f rest ;;
      ret (if (keep : bool) then x :: rest else rest)
  end.

Fixpoint mapM {A B} (f : A -> M B) (l : list A) : M (list B) :=
  match l with
  | [] => ret []
  | x :: rest =>
      y <- f x ;;
      rest <- mapM f rest ;;
      ret (y :: rest)
  end.

(** The number that [parseInt] returns; [None] is NaN. *)
Definition number_of_parsed (x : option Z) : number :=
  match x with
  | Some z => of_Z z
  | None => NaN
  end.

(** [x + ""] for a result of [parseInt] *)
Definition string_of_parsed (x : option Z) : string :=
  match x with
  | Some z => ToString_int z
  | None => "NaN"
  end.

(** [sort((x, y) => x - y)] on results of [parseInt]: ascending numeric
    order.  A difference that is NaN counts as zero; the order of such
    elements is left open by the language and is here that of an insertion
    from the right. *)
Definition sort_ascending (l : list (option Z)) : list (option Z) :=
  fold_right (insert_sorted (fun x y => match x, y with
                                        | Some a, Some b => Z.leb a b
                                        | _, _ => true
                                        end)) [] l.

Section StringKeys.
Context {kext : KeyExternals}.

(** ECMA262 9.4.2 (methods/is.js) *)
Definition IsArrayIndex (P : PropertyKeyValue) : M bool :=
  match P with
  | PKstring key | PKStringValue key =>
      i <- ToUint32 (StringValue key) ;;
      if negb (Z.eqb i (2 ^ 32 - 1)) then
        s <- ToString (NumberValue (of_Z i)) ;;
        ret (String.eqb s key)
      else ret false
  | PKSymbolValue _ => ret false
  end.

(** ECMA262 9.4.3.2, [$OwnPropertyKeys] of the string wrapper kind *)
Definition StringExotic_OwnPropertyKeys (this : ObjRef) : M (list PropertyKeyValue) :=
  (* 2. Let str be the String value of O.[[StringData]]. *)
  str <- gets (fun realm => StringData (obj realm this)) ;;
  match str with
  | None => invariant false "str" ;;; ret []
  | Some str =>
      (* 3. Let len be the number of elements in str. *)
      let len := String.length str in
      (* 4. For each integer i starting with 0 such that i < len, in
            ascending order, add ! ToString(i) as the last element of keys. *)
      indices <- mapM (fun i => s <- ToString (NumberValue (of_Z (Z.of_nat i))) ;;
                                ret (PKStringValue s)) (seq 0 len) ;;
      (* 5. For each own property key P of O such that P is an integer
            index and ToInteger(P) >= len, in ascending numeric index order, *)
      properties <- getOwnPropertyKeysArray this ;;
      own <- filterM (fun x => IsArrayIndex (PKstring x)) properties ;;
      above <- filterM (fun x => n <- ToInteger (number_of_parsed x) ;;
                                 ret (num_le (of_Z (Z.of_nat len)) n))
                       (map parseInt own) ;;
      let numeric := map (fun key => PKStringValue (string_of_parsed key))
                         (sort_ascending above) in
      (* 6. For each own property key P of O such that Type(P) is String and
            P is not an integer index, in ascending chronological order of
            property creation, *)
      others <- filterM (fun x => index <- IsArrayIndex (PKstring x) ;; ret (negb index))
                        properties ;;
      (* 7. For each own property key P of O such that Type(P) is Symbol, in
            ascending chronological order of property creation, *)
      symbolKeys <- gets (fun realm => map fst (symbols (obj realm this))) ;;
      (* 12. Return keys. *)
      ret (indices ++ numeric ++ map PKStringValue others ++ map PKSymbolValue symbolKeys)
  end.

End StringKeys.

(** *** EnumerateObjectProperties *)

(** The variables that the [next] closure of the iterator captures. *)
Record Enumerator : Type := mkEnum {
  visited : gset string;
  enum_obj : Value;
  keys : list PropertyKeyValue;
  index : nat
}.

(** [CreateIterResultObject(realm, value, done)] *)
Record IterResult : Type := CreateIterResultObject {
  iter_value : Value;
  iter_done : bool
}.

(** Code of the closure: it threads the captured variables next to the
    realm, so that an assignment made before a failing call stays made. *)
Definition Closure (A : Type) : Type := SF (Enumerator * Realm) A.

Definition lift {A} (m : M A) : Closure A :=
  fun s => let '(r, realm') := m (snd s) in (r, (fst s, realm')).

Definition assign (f : Enumerator -> Enumerator) : Closure unit :=
  modify (fun s => (f (fst s), snd s)).

(** Why a turn of the loop ends in [continue]. *)
Inductive Omitted : Type :=
| omit_symbol
| omit_non_enumerable (key : string)
| omit_duplicate (key : string).

(** How a turn of the [while (true)] loop of [next] ends: it returns an
    iterator result or it continues with the next turn. *)
Inductive Turn : Type :=
| Returned (result : IterResult)
| Continued (why : Omitted).

(** The head of a turn: past the last key the walk moves on to the
    prototype, or returns the final result when there is none. *)
Definition advance : Closure (option IterResult) :=
  e <- gets fst ;;
  if bool_decide (length (keys e) <= index e) then
    proto <- lift (dollar_GetPrototypeOf (enum_obj e)) ;;
    match proto with
    | NullValue => ret (Some (CreateIterResultObject UndefinedValue true))
    | _ =>
        assign (fun e => mkEnum (visited e) proto (keys e) (index e)) ;;;
        keys' <- lift (dollar_OwnPropertyKeys proto) ;;
        assign (fun e => mkEnum (visited e) (enum_obj e) keys' 0) ;;;
        ret None
    end
  else ret None.

(** The rest of a turn: the key under the cursor is omitted or yielded. *)
Definition visit : Closure Turn :=
  e <- gets fst ;;
  match keys e !! index e with
  | Some (PKStringValue key) =>
      (* Omit non-enumerable properties. *)
      desc <- lift (dollar_GetOwnProperty (enum_obj e) (PKStringValue key)) ;;
      omitted <-
        (match desc with
         | Some d =>
             if negb (truthy (enumerable d)) then
               lift (ThrowIfMightHaveBeenDeleted (value d)) ;;;
               assign (fun e => mkEnum (visited e) (enum_obj e) (keys e) (index e + 1)) ;;;
               assign (fun e => mkEnum ({[key]} ∪ visited e) (enum_obj e) (keys e) (index e)) ;;;
               ret true
             else ret false
         | None => ret false
         end) ;;
      if (omitted : bool) then ret (Continued (omit_non_enumerable key)) else
      (* Omit duplicates. *)
      if bool_decide (key ∈ visited e) then
        assign (fun e => mkEnum (visited e) (enum_obj e) (keys e) (index e + 1)) ;;;
        ret (Continued (omit_duplicate key))
      else
        assign (fun e => mkEnum ({[key]} ∪ visited e) (enum_obj e) (keys e) (index e)) ;;;
        (* Yield the key. *)
        ret (Returned (CreateIterResultObject (StringValue key) false))
  | _ =>
      (* Omit symbols. *)
      assign (fun e => mkEnum (visited e) (enum_obj e) (keys e) (index e + 1)) ;;;
      ret (Continued omit_symbol)
  end.

(** One turn of the [while (true)] loop of [next]. *)
Definition next_turn : Closure Turn :=
  returned <- advance ;;
  match returned with
  | Some result => ret (Returned result)
  | None => visit
  end.

(** The native method [next] of the iterator; [fuel] bounds the number of
    turns of its loop. *)
Fixpoint next (fuel : nat) : Closure IterResult :=
  match fuel with
  | O => fail OutOfFuel
  | S fuel =>
      turn <- next_turn ;;
      match turn with
      | Returned result => ret result
      | Continued _ => next fuel
      end
  end.

(** ECMA262 13.7.5.15.  The iterator object is represented by the
    variables its [next] method closes over. *)
Definition EnumerateObjectProperties (O : Value) : M Enumerator :=
  keys <- dollar_OwnPropertyKeys O ;;
  ret (mkEnum ∅ O keys 0).

(** ** methods/call.js *)

(** ECMA262 9.2.1.2 *)
Definition OrdinaryCallBindThis (F : ObjRef) (calleeContext : ExecutionContext)
    (thisArgument : Value) : M Value :=
  (* 1. Let thisMode be the value of F's [[ThisMode]] internal slot. *)
  thisMode <- gets (fun realm => ThisModeSlot (obj realm F)) ;;
  (* 2. If thisMode is lexical, return NormalCompletion(undefined). *)
  if match thisMode with Some ThisLexical => true | _ => false end then ret UndefinedValue else
  (* 4. Let localEnv be the LexicalEnvironment of calleeContext. *)
  let localEnv := lexicalEnvironment calleeContext in
  native <- gets (fun realm => isNativeFunctionValue (obj realm F)) ;;
  thisValue <-
    (* 5. If thisMode is strict, let thisValue be thisArgument. *)
    (if match thisMode with Some ThisStrict => true | _ => false end || native then
       ret thisArgument
     else
       (* 6. a. If thisArgument is null or undefined, then *)
       if HasSomeCompatibleType thisArgument [TNull; TUndefined] then
         (* i. Let globalEnv be calleeRealm.[[GlobalEnv]]. *)
         globalEnv <- gets GlobalEnv ;;
         (* ii. Let globalEnvRec be globalEnv's EnvironmentRecord. *)
         match environmentRecord globalEnv with
         | GlobalEnvironmentRecord _ GlobalThisValue =>
             (* iii. Let thisValue be globalEnvRec.[[GlobalThisValue]]. *)
             ret GlobalThisValue
         | _ => invariant false "globalEnvRec instanceof GlobalEnvironmentRecord" ;;;
                ret UndefinedValue
         end
       else
         (* b. i. Let thisValue be ! ToObject(thisArgument). *)
         ToObjectPartial thisArgument) ;;
  (* 7. Let envRec be localEnv's EnvironmentRecord. *)
  match localEnv with
  | None => invariant false "localEnv !== undefined" ;;; ret UndefinedValue
  | Some localEnv =>
      let envRec := environmentRecord localEnv in
      (* 9. Return envRec.BindThisValue(thisValue). *)
      BindThisValue envRec thisValue
  end.

Definition set_contextStack (stack : list ExecutionContext) (realm : Realm) : Realm :=
  mkRealm (heap realm) (modifiedProperties realm) (generator realm) (GlobalObject realm)
          (GlobalEnv realm) stack (thisValues realm).

(** Modelled from the spec: [realm.getRunningContext()] (realm.js is not
    among the sources).  Section 3: the contexts form a stack; the running
    context is its top. *)
Definition getRunningContext : M ExecutionContext :=
  stack <- gets contextStack ;;
  match stack with
  | leaf :: _ => ret leaf
  | [] => fail (HostError "There's no running execution context")
  end.

(** Modelled from the spec: [context.suspend()] on the running context. *)
Definition suspend : M unit :=
  modify (fun realm =>
    match contextStack realm with
    | leaf :: rest => set_contextStack (mkContext (lexicalEnvironment leaf) true :: rest) realm
    | [] => realm
    end).

(** Modelled from the spec: [realm.popContext(context)], for the running
    context. *)
Definition popContext : M unit :=
  modify (fun realm => set_contextStack (tail (contextStack realm)) realm).

(** [realm.getRunningContext().lexicalEnvironment = env] *)
Definition set_running_lexicalEnvironment (env : option LexicalEnvironment) : M unit :=
  modify (fun realm =>
    match contextStack realm with
    | leaf :: rest => set_contextStack (mkContext env (suspended leaf) :: rest) realm
    | [] => realm
    end).

(** ECMA262 14.6.3 *)
Definition PrepareForTailCall : M unit :=
  (* 1. Let leafContext be the running execution context. *)
  getRunningContext ;;;
  (* 2. Suspend leafContext. *)
  suspend ;;;
  (* 3. Pop leafContext from the execution context stack. *)
  popContext.

(** ECMA262 12.3.4.3 *)
Definition EvaluateDirectCall (strictCode : bool) (env : LexicalEnvironment)
    (func thisValue : Value) (args : list BabelNode) (tailPosition : option bool) : M Value :=
  (* 1. Let argList be ? ArgumentListEvaluation(arguments). *)
  argList <- ArgumentListEvaluation strictCode env args ;;
  match func with
  | AbstractValue a =>
      if bool_decide (abs_type a = TFunction) then deriveAbstract (func :: argList)
      else throwIntrospectionError
  | ObjectValue _ =>
      (* 3. If IsCallable(func) is false, throw a TypeError exception. *)
      callable <- IsCallable func ;;
      if negb callable then throw (ThrowCompletion TypeError (Some "not callable")) else
      (* 4. If tailPosition is true, perform PrepareForTailCall(). *)
      (if bool_decide (tailPosition = Some true) then PrepareForTailCall else ret tt) ;;;
      (* 5. Let result be Call(func, thisValue, argList). *)
      result <- Call func thisValue argList ;;
      (* 8. Return result. *)
      ret result
  | _ =>
      (* 2. If Type(func) is not Object, throw a TypeError exception. *)
      throw (ThrowCompletion TypeError (Some "not an object"))
  end.

(** ** The head of a for-in/of loop *)

Inductive IterationKind : Type := iterate | enumerate.

(** What the head hands to the body: the enumerator of a for-in, or the
    iterator object of a for-of. *)
Inductive HeadResult : Type :=
| HeadEnumerator (e : Enumerator)
| HeadIterator (iterator : Value).

(** ECMA262 13.7.5.12, steps 1 to 5: the value of the head expression *)
Definition ForInOfHeadEvaluation_exprValue (env : LexicalEnvironment) (TDZnames : list string)
    (expr : BabelNode) (strictCode : bool) : M Value :=
  (* 1. Let oldEnv be the running execution context's LexicalEnvironment. *)
  running <- getRunningContext ;;
  let oldEnv := lexicalEnvironment running in
  (* 2. If TDZnames is not an empty List, then *)
  env <- (match TDZnames with
          | [] => ret env
          | _ =>
              (* b. Let TDZ be NewDeclarativeEnvironment(oldEnv). *)
              TDZ <- NewDeclarativeEnvironment oldEnv ;;
              (* d. For each string name in TDZnames, do *)
              fold_left (fun done name =>
                           done ;;; CreateMutableBinding (environmentRecord TDZ) name false)
                        TDZnames (ret tt) ;;;
              (* e. Set the running execution context's LexicalEnvironment to TDZ. *)
              set_running_lexicalEnvironment (Some TDZ) ;;;
              ret TDZ
          end) ;;
  (* 3. Let exprRef be the result of evaluating expr. *)
  exprRef <- try_finally (evaluate env expr strictCode)
               (* 4. Set the running execution context's LexicalEnvironment to oldEnv. *)
               (set_running_lexicalEnvironment oldEnv) ;;
  (* 5. Let exprValue be ? GetValue(exprRef). *)
  GetValue exprRef.

(** ECMA262 13.7.5.12 *)
Definition ForInOfHeadEvaluation (env : LexicalEnvironment) (TDZnames : list string)
    (expr : BabelNode) (iterationKind : IterationKind) (strictCode : bool) : M HeadResult :=
  exprValue <- ForInOfHeadEvaluation_exprValue env TDZnames expr strictCode ;;
  (* 6. If iterationKind is enumerate, then *)
  match iterationKind with
  | enumerate =>
      (* a. If exprValue.[[Value]] is null or undefined, then *)
      if HasSomeCompatibleType exprValue [TNull; TUndefined] then
        (* i. Return Completion{[[Type]]: break, [[Value]]: empty, [[Target]]: empty}. *)
        throw (BreakCompletion EmptyValue None)
      else
      (* b. Let obj be ToObject(exprValue). *)
      concrete <- throwIfNotConcrete exprValue ;;
      object <- ToObject concrete ;;
      (* c. Return ? EnumerateObjectProperties(obj). *)
      e <- EnumerateObjectProperties object ;;
      ret (HeadEnumerator e)
  | iterate =>
      (* 1. Return ? GetIterator(exprValue). *)
      iterator <- GetIterator exprValue ;;
      ret (HeadIterator iterator)
  end.

End Properties.

(** ** The object kinds of the examples *)

(** The SameValue algorithm (ECMA262 7.2.10) on concrete values. *)
Definition SameValue_std (x y : Value) : bool :=
  match x, y with
  | UndefinedValue, UndefinedValue => true
  | NullValue, NullValue => true
  | EmptyValue, EmptyValue => true
  | BooleanValue a, BooleanValue b => Bool.eqb a b
  | NumberValue NaN, NumberValue NaN => true
  | NumberValue NegZero, NumberValue NegZero => true
  | NumberValue NegZero, NumberValue (Fin _) => false
  | NumberValue (Fin _), NumberValue NegZero => false
  | NumberValue a, NumberValue b => num_eq a b
  | StringValue a, StringValue b => String.eqb a b
  | SymbolValue a, SymbolValue b => Nat.eqb a b
  | ObjectValue a, ObjectValue b => Nat.eqb a b
  | _, _ => false
  end.

(** The canonical numeric strings that denote an integer, and "-0". *)
Definition CanonicalNumericIndexString_int (p : string) : option number :=
  if String.eqb p "-0" then Some NegZero
  else match parseInt p with
       | Some n => if String.eqb (ToString_int n) p then Some (of_Z n) else None
       | None => None
       end.

(** ToObject: an object is returned as it is; a primitive is boxed into a
    fresh wrapper, a string into a wrapper of the string kind. *)
Definition ToObject_std (v : Value) : M Value :=
  match v with
  | ObjectValue r => ret v
  | UndefinedValue | NullValue | EmptyValue => throw (createErrorThrowCompletion TypeError)
  | AbstractValue a =>
      if bool_decide (abs_type a = TObject) then ret v else throwIntrospectionError
  | _ =>
      r <- gets (fun realm => fresh (dom (heap realm))) ;;
      modify (set_obj r (mkObject [] [] NullValue true false false false
                           (match v with StringValue s => Some s | _ => None end)
                           false false false None)) ;;;
      ret (ObjectValue r)
  end.

(** BindThisValue of a function environment record. *)
Definition BindThisValue_std (envRec : EnvironmentRecord) (V : Value) : M Value :=
  match envRec with
  | FunctionEnvironmentRecord id =>
      bound <- gets (fun realm => map_get id (thisValues realm)) ;;
      match bound with
      | Some _ => throw (createErrorThrowCompletion ReferenceError)
      | None =>
          modify (fun realm =>
            mkRealm (heap realm) (modifiedProperties realm) (generator realm)
                    (GlobalObject realm) (GlobalEnv realm) (contextStack realm)
                    (map_set id V (thisValues realm))) ;;;
          ret V
      end
  | _ => fail (HostError "BindThisValue")
  end.

(** Collaborators for the examples.  The evaluator is a table from nodes to
    values; [CreateDataProperty] defines through the internal methods. *)
Definition std_externals (im : InternalMethods) (literal : BabelNode -> Value) : Externals := {|
  SameValue := SameValue_std;
  SameValuePartial x y :=
    if isConcrete x && isConcrete y then ret (SameValue_std x y) else throwIntrospectionError;
  ToUint32 v :=
    match v with
    | NumberValue (Fin q) => ret (Qfloor q mod 2 ^ 32)%Z
    | NumberValue _ => ret 0%Z
    | StringValue s =>
        ret (match CanonicalNumericIndexString_int s with
             | Some (Fin q) => (Qfloor q mod 2 ^ 32)%Z
             | _ => 0%Z
             end)
    | AbstractValue _ => throwIntrospectionError
    | _ => fail (HostError "ToUint32")
    end;
  ToNumber v :=
    match v with
    | NumberValue n => ret n
    | AbstractValue _ => throwIntrospectionError
    | _ => fail (HostError "ToNumber")
    end;
  ToObject := ToObject_std;
  ToObjectPartial := ToObject_std;
  CanonicalNumericIndexString := CanonicalNumericIndexString_int;
  CreateDataProperty O P V :=
    dollar_DefineOwnProperty O P
      (mkDesc (Some V) (Some true) None None (Some true) (Some true));
  derive a := ret (AbstractValue (mkAbstract (abs_id a) (abs_type a) (abs_mightHaveBeenDeleted a) true));
  deriveAbstract args := ret (AbstractValue (mkAbstract 0 TValue false true));
  BindThisValue := BindThisValue_std;
  NewDeclarativeEnvironment oldEnv := ret (mkLexEnv (DeclarativeEnvironmentRecord 0));
  CreateMutableBinding envRec name deletable := ret tt;
  evaluate env ast strictCode := ret (literal ast);
  GetValue v := ret v;
  GetIterator v := ret v;
  ArgumentListEvaluation strictCode env args := ret (map literal args)
|}.

(** Collaborators of the key listing for the examples.  ToString covers
    strings and integral numbers, ToInteger truncates; the key array holds
    the string keys that still have a descriptor, in creation order, and is
    refused on a partial object. *)
Definition std_key_externals : KeyExternals := {|
  ToString v :=
    match v with
    | StringValue s => ret s
    | NumberValue (Fin q) =>
        if Qeq_bool q (inject_Z (Qfloor q)) then ret (ToString_int (Qfloor q))
        else fail (HostError "ToString")
    | NumberValue NegZero => ret "0"
    | NumberValue NaN => ret "NaN"
    | AbstractValue _ => throwIntrospectionError
    | _ => fail (HostError "ToString")
    end;
  ToInteger n :=
    ret (match n with
         | NaN => of_Z 0
         | Fin q => of_Z (if Z.ltb (Qfloor q) 0 then Qceiling q else Qfloor q)
         | other => other
         end);
  getOwnPropertyKeysArray O :=
    o <- gets (fun realm => obj realm O) ;;
    if isPartial o then throwIntrospectionError
    else ret (omap (fun kb => match descriptor (snd kb) with
                              | Some _ => Some (fst kb)
                              | None => None
                              end) (properties o))
|}.

Section OrdinaryKeys.
Context {ext : Externals} {kext : KeyExternals}.

(** Modelled from the spec: section 4.2, OwnPropertyKeys.  The keys in the
    fixed order: the numeric-index keys among the own properties in
    ascending order (the ordinary kind has no synthesized range), then the
    string keys in creation order, then the symbol keys in creation order;
    a deleted binding is no own property. *)
Definition OrdinaryOwnPropertyKeys (O : ObjRef) : M (list PropertyKeyValue) :=
  properties <- getOwnPropertyKeysArray O ;;
  own <- filterM (fun x => IsArrayIndex (PKstring x)) properties ;;
  let numeric := map (fun key => PKStringValue (string_of_parsed key))
                     (sort_ascending (map parseInt own)) in
  others <- filterM (fun x => index <- IsArrayIndex (PKstring x) ;; ret (negb index))
                    properties ;;
  symbolKeys <- gets (fun realm =>
                  omap (fun kb => match descriptor (snd kb) with
                                  | Some _ => Some (PKSymbolValue (fst kb))
                                  | None => None
                                  end) (symbols (obj realm O))) ;;
  ret (numeric ++ map PKStringValue others ++ symbolKeys).

End OrdinaryKeys.

(** The internal methods of an abstract or a non-object receiver. *)
Definition no_method {A} (this : Value) : M A :=
  match this with
  | AbstractValue _ => throwIntrospectionError
  | _ => fail (HostError "not an object")
  end.

(** Modelled from the spec: the internal-method table of the ordinary kind
    and of the string wrapper kind (the value classes are not among the
    sources).  Section 6: each kind implements the hooks through the
    ordinary algorithms unless it overrides them; the string wrapper kind
    overrides [GetOwnProperty] and [OwnPropertyKeys].  [fuel] bounds the
    nesting of internal method calls. *)
Fixpoint kind_methods (literal : BabelNode -> Value) (fuel : nat) : InternalMethods :=
  match fuel with
  | O =>
      {| dollar_GetOwnProperty this P := fail OutOfFuel;
         dollar_GetPrototypeOf this := fail OutOfFuel;
         dollar_Set this P V Receiver := fail OutOfFuel;
         dollar_Delete this P := fail OutOfFuel;
         dollar_DefineOwnProperty this P Desc := fail OutOfFuel;
         dollar_OwnPropertyKeys this := fail OutOfFuel;
         dollar_Call this V args := fail OutOfFuel |}
  | S fuel =>
      let im := kind_methods literal fuel in
      let ext := std_externals im literal in
      let kext := std_key_externals in
      {| dollar_GetOwnProperty this P :=
           match this with
           | ObjectValue r =>
               str <- gets (fun realm => StringData (obj realm r)) ;;
               match str with
               | Some _ => StringExotic_GetOwnProperty r P
               | None => OrdinaryGetOwnProperty r P
               end
           | _ => no_method this
           end;
         dollar_GetPrototypeOf this :=
           match this with
           | ObjectValue r => gets (fun realm => Prototype (obj realm r))
           | _ => no_method this
           end;
         dollar_Set this P V Receiver :=
           match this with
           | ObjectValue r => OrdinarySet fuel r P V Receiver
           | _ => no_method this
           end;
         dollar_Delete this P :=
           match this with
           | ObjectValue r => OrdinaryDelete r P
           | _ => no_method this
           end;
         dollar_DefineOwnProperty this P Desc :=
           match this with
           | ObjectValue r => OrdinaryDefineOwnProperty r P Desc
           | _ => no_method this
           end;
         dollar_OwnPropertyKeys this :=
           match this with
           | ObjectValue r =>
               str <- gets (fun realm => StringData (obj realm r)) ;;
               match str with
               | Some _ => StringExotic_OwnPropertyKeys r
               | None => OrdinaryOwnPropertyKeys r
               end
           | _ => no_method this
           end;
         dollar_Call this V args := ret UndefinedValue |}
  end.

(** Nodes of the examples evaluate to the value their type names. *)
Definition literal_of (v : Value) (ast : BabelNode) : Value :=
  if String.eqb (node_type ast) "NullLiteral" then NullValue else v.

Definition methods : InternalMethods := kind_methods (literal_of UndefinedValue) 8.
Definition externals : Externals := std_externals methods (literal_of UndefinedValue).

(** A data property and a realm holding the given objects. *)
Definition data (v : Value) (w e c : bool) : Descriptor :=
  mkDesc (Some v) (Some w) None None (Some e) (Some c).

Definition props (O : ObjRef) (l : list (string * Descriptor)) : list (string * PropertyBinding) :=
  map (fun kd => (fst kd, mkBinding (Some (snd kd)) O (StrKey (fst kd)))) l.

Definition object_with (O : ObjRef) (proto : Value) (l : list (string * Descriptor)) : ObjectData :=
  mkObject (props O l) [] proto true false false false None false false false None.

Definition realm_of (objects : list (ObjRef * ObjectData)) : Realm :=
  mkRealm (list_to_map objects) [] None 0
          (mkLexEnv (GlobalEnvironmentRecord 0 (ObjectValue 0)))
          [mkContext (Some (mkLexEnv (FunctionEnvironmentRecord 1))) false] [].

(** ** Statements of the specification *)

(** [v] is null or undefined, as far as its type tells. *)
Definition is_null_or_undefined (v : Value) : bool :=
  bool_decide (getType v = TNull) || bool_decide (getType v = TUndefined).

(** What a call binds as [this], told from the function's this-mode, from
    whether it is native, and from the this-argument. *)
Inductive ThisBinding : Type :=
| BindsNothing
| BindsValue (v : Value)
| BindsWrapperOf (v : Value).

Definition this_binding (thisMode : option ThisMode) (native : bool)
    (thisArgument globalThis : Value) : ThisBinding :=
  match thisMode with
  | Some ThisLexical => BindsNothing
  | Some ThisStrict => BindsValue thisArgument
  | _ =>
      if native then BindsValue thisArgument
      else if is_null_or_undefined thisArgument then BindsValue globalThis
      else BindsWrapperOf thisArgument
  end.

(** *** Realms of the examples *)

Definition function_object (mode : option ThisMode) (native : bool) : ObjectData :=
  mkObject [] [] NullValue true false false false None true native true mode.

Definition env0 : LexicalEnvironment := mkLexEnv (FunctionEnvironmentRecord 1).

(** A realm with a global object 0, a plain object 1 and functions 2 to 4:
    non-strict, strict and an arrow function. *)
Definition realm_calls : Realm :=
  realm_of [(0, object_with 0 NullValue []);
            (1, object_with 1 NullValue [("a", data (NumberValue (of_Z 1)) true true true)]);
            (2, function_object (Some ThisGlobal) false);
            (3, function_object (Some ThisStrict) false);
            (4, function_object (Some ThisLexical) false)].

(** An abstract value known to be an object, and one whose property may
    have been deleted. *)
Definition abstract_object : Value := AbstractValue (mkAbstract 7 TObject false true).
Definition maybe_deleted : Value := AbstractValue (mkAbstract 8 TValue true true).

Definition methods_for (v : Value) : InternalMethods := kind_methods (literal_of v) 8.
Definition externals_for (v : Value) : Externals := std_externals (methods_for v) (literal_of v).

(** *** Statements about ValidateAndApplyPropertyDescriptor *)

(** The data property that a descriptor describes, a missing field taking
    its default: value undefined, the three attributes false. *)
Definition created_data (Desc : Descriptor) : Descriptor :=
  mkDesc (Some (default UndefinedValue (value Desc))) (Some (default false (writable Desc)))
         None None
         (Some (default false (enumerable Desc))) (Some (default false (configurable Desc))).

(** The accessor property that a descriptor describes, a missing get or set
    being undefined. *)
Definition created_accessor (Desc : Descriptor) : Descriptor :=
  mkDesc None None
         (Some (default UndefinedValue (get Desc))) (Some (default UndefinedValue (set Desc)))
         (Some (default false (enumerable Desc))) (Some (default false (configurable Desc))).

Section Identical.
Context {ext : Externals}.

(** Two field values are identical: the same value for concrete values,
    the same reference otherwise. *)
Definition identical_value (d c : Value) : Prop :=
  if isConcrete d && isConcrete c then SameValue d c = true else d = c.

(** Every field present in [Desc] occurs in [current] with an identical
    value. *)
Definition fields_identical (Desc current : Descriptor) : Prop :=
  forall field, field_in field Desc = true ->
    field_in field current = true /\
    identical_value (InternalDescriptorPropertyToValue (field_get Desc field))
                    (InternalDescriptorPropertyToValue (field_get current field)).

End Identical.

(** A realm whose object 1 holds "a", a property whose value may have been
    deleted. *)
Definition realm_uncertain : Realm :=
  realm_of [(1, object_with 1 NullValue [("a", data maybe_deleted true true true)])].

(** *** Statements about the string wrapper kind *)

Section Index.
Context {ext : Externals}.

(** [P] is a canonical integer-index string, of the integer [i]: a string
    whose canonical numeric value is the integer [i] (and not -0). *)
Definition canonical_integer_index (P : PropertyKeyValue) (i : Z) : Prop :=
  exists p q, (P = PKstring p \/ P = PKStringValue p) /\
    CanonicalNumericIndexString p = Some (Fin q) /\ (q == inject_Z i)%Q.

End Index.

(** The descriptor synthesized for the code unit [c]. *)
Definition synthesized (c : ascii) : Descriptor :=
  mkDesc (Some (StringValue (String c ""))) (Some false) None None (Some true) (Some false).

(** A realm whose object 5 wraps the string "abc" and owns "x", a property
    whose value may have been deleted. *)
Definition realm_string : Realm :=
  realm_of [(5, mkObject (props 5 [("x", data maybe_deleted true true true)]) [] NullValue
                         true false false false (Some "abc") false false false None)].

(** *** Statements about OrdinarySet *)

(** The internal methods [im] with [g] in place of [$GetPrototypeOf]. *)
Definition with_GetPrototypeOf (g : Value -> M Value) (im : InternalMethods) : InternalMethods :=
  {| dollar_GetOwnProperty := @dollar_GetOwnProperty im;
     dollar_GetPrototypeOf := g;
     dollar_Set := @dollar_Set im;
     dollar_Delete := @dollar_Delete im;
     dollar_DefineOwnProperty := @dollar_DefineOwnProperty im;
     dollar_OwnPropertyKeys := @dollar_OwnPropertyKeys im;
     dollar_Call := @dollar_Call im |}.

(** A realm whose object 1 may have lost its property "a" and inherits
    from the object 2, where "a" is read-only. *)
Definition realm_chain : Realm :=
  realm_of [(1, object_with 1 (ObjectValue 2) [("a", data maybe_deleted true true true)]);
            (2, object_with 2 NullValue [("a", data (NumberValue (of_Z 0)) false true true)])].

(** *** Statements about ArraySetLength *)

(** [x] comes before [y] in the order of [Array.prototype.sort()]. *)
Definition string_le (x y : Z) : Prop :=
  String.leb (ToString_int x) (ToString_int y) = true.

(** An array of length 11 whose elements 9 and 10 are present, the former
    not configurable. *)
Definition realm_array : Realm :=
  realm_of [(1, object_with 1 NullValue
                  [("length", data (NumberValue (of_Z 11)) true false false);
                   ("9", data (StringValue "a") true true false);
                   ("10", data (StringValue "b") true true true)])].

(** An array of length 5 with the elements 0, 2 and 4, the element 2 not
    configurable. *)
Definition realm_array024 : Realm :=
  realm_of [(1, object_with 1 NullValue
                  [("length", data (NumberValue (of_Z 5)) true false false);
                   ("0", data (StringValue "a") true true true);
                   ("2", data (StringValue "b") true true false);
                   ("4", data (StringValue "c") true true true)])].

(** *** Statements about failed sets *)

Section Set_target.
Context {im : InternalMethods}.

(** Steps 2 and 3 of OrdinarySet settle on the descriptor [d] and leave the
    realm [realm1].  [d] is the own property of O when its value is
    certain; it is the writable data descriptor of step 3 when O has no
    own property and no prototype; and it is the own property whose value
    might have been deleted when O has no prototype or its prototype
    permits the creation of the property. *)
Inductive settles (fuel : nat) (O : ObjRef) (P : PropertyKeyValue) (realm : Realm) :
    Descriptor -> Realm -> Prop :=
| settles_own d realm1 :
    dollar_GetOwnProperty (ObjectValue O) P realm = (Normal (Some d), realm1) ->
    mightHaveBeenDeleted (value_or_undefined (value d)) = false ->
    settles fuel O P realm d realm1
| settles_new realm1 realm2 :
    dollar_GetOwnProperty (ObjectValue O) P realm = (Normal None, realm1) ->
    dollar_GetPrototypeOf (ObjectValue O) realm1 = (Normal NullValue, realm2) ->
    settles fuel O P realm
      (mkDesc (Some UndefinedValue) (Some true) None None (Some true) (Some true)) realm2
| settles_orphan d realm1 realm2 :
    dollar_GetOwnProperty (ObjectValue O) P realm = (Normal (Some d), realm1) ->
    mightHaveBeenDeleted (value_or_undefined (value d)) = true ->
    dollar_GetPrototypeOf (ObjectValue O) realm1 = (Normal NullValue, realm2) ->
    settles fuel O P realm d realm2
| settles_permitted d realm1 parent realm2 realm3 :
    dollar_GetOwnProperty (ObjectValue O) P realm = (Normal (Some d), realm1) ->
    mightHaveBeenDeleted (value_or_undefined (value d)) = true ->
    dollar_GetPrototypeOf (ObjectValue O) realm1 = (Normal parent, realm2) ->
    isConcrete parent = true ->
    parent <> NullValue ->
    parentPermitsChildPropertyCreation fuel parent P realm2 = (Normal true, realm3) ->
    settles fuel O P realm d realm3.

End Set_target.

(** *** Statements about EnumerateObjectProperties *)

(** The results of [next]: the end of the enumeration, and a key. *)
Definition done_result : IterResult := CreateIterResultObject UndefinedValue true.
Definition yield (key : string) : IterResult := CreateIterResultObject (StringValue key) false.

Section Enumeration.
Context {ext : Externals} {im : InternalMethods}.

(** The turns that the loop of [next] takes, over any number of calls and
    whatever the realm has become from one turn to the next.  A turn that
    raises leaves its assignments behind and no entry in the trace. *)
Inductive turns : Enumerator -> list Turn -> Enumerator -> Prop :=
| turns_nil e : turns e [] e
| turns_turn e realm t e1 realm1 ts e2 :
    next_turn (e, realm) = (Normal t, (e1, realm1)) ->
    turns e1 ts e2 ->
    turns e (t :: ts) e2
| turns_raise e realm f e1 realm1 ts e2 :
    next_turn (e, realm) = (Fail f, (e1, realm1)) ->
    turns e1 ts e2 ->
    turns e ts e2.

(** The keys that successive calls of [next] produce until one of them
    reports the end. *)
Inductive enumerates (fuel : nat) : Enumerator -> Realm -> list string -> Prop :=
| enumerates_done e realm s :
    next fuel (e, realm) = (Normal done_result, s) ->
    enumerates fuel e realm []
| enumerates_yield e realm key e1 realm1 keys :
    next fuel (e, realm) = (Normal (yield key), (e1, realm1)) ->
    enumerates fuel e1 realm1 keys ->
    enumerates fuel e realm (key :: keys).

(** In [realm] the object [v] lists its own keys and describes each string
    key that it lists, without failing and without changing the realm, and
    none of these properties that is not enumerable has a value that might
    have been deleted. *)
Definition lists_keys (realm : Realm) (v : Value) : Prop :=
  exists ks,
    dollar_OwnPropertyKeys v realm = (Normal ks, realm) /\
    forall key, PKStringValue key ∈ ks ->
      exists d,
        dollar_GetOwnProperty v (PKStringValue key) realm = (Normal d, realm) /\
        forall x, d = Some x -> truthy (enumerable x) = false ->
                  mightHaveBeenDeleted (value_or_undefined (value x)) = false.

(** In [realm] the prototype chain of [v] reaches null after [n] objects,
    each of which names its prototype without changing the realm and lists
    its keys. *)
Inductive walk_ends (realm : Realm) : Value -> nat -> Prop :=
| walk_ends_here v :
    lists_keys realm v ->
    dollar_GetPrototypeOf v realm = (Normal NullValue, realm) ->
    walk_ends realm v 0
| walk_ends_next v p n :
    lists_keys realm v ->
    dollar_GetPrototypeOf v realm = (Normal p, realm) ->
    p <> NullValue ->
    walk_ends realm p n ->
    walk_ends realm v (S n).

(** What the internal methods answer in [realm], where they answer. *)
Definition proto_in (realm : Realm) (v : Value) : Value :=
  match fst (dollar_GetPrototypeOf v realm) with
  | Normal p => p
  | Fail _ => NullValue
  end.

Definition keys_in (realm : Realm) (v : Value) : list PropertyKeyValue :=
  match fst (dollar_OwnPropertyKeys v realm) with
  | Normal ks => ks
  | Fail _ => []
  end.

Definition desc_in (realm : Realm) (v : Value) (key : string) : option Descriptor :=
  match fst (dollar_GetOwnProperty v (PKStringValue key) realm) with
  | Normal d => d
  | Fail _ => None
  end.

(** In [realm] the internal methods answer for [v] as the tables say and
    leave the realm alone; no value of a property that is not enumerable is
    flagged as possibly deleted. *)
Record reads_tables (realm : Realm) (proto : Value -> Value)
    (keysOf : Value -> list PropertyKeyValue)
    (descOf : Value -> string -> option Descriptor) (v : Value) : Prop := {
  reads_proto : dollar_GetPrototypeOf v realm = (Normal (proto v), realm);
  reads_keys : dollar_OwnPropertyKeys v realm = (Normal (keysOf v), realm);
  reads_desc : forall key,
    PKStringValue key ∈ keysOf v ->
    dollar_GetOwnProperty v (PKStringValue key) realm = (Normal (descOf v key), realm);
  reads_certain : forall key d,
    PKStringValue key ∈ keysOf v ->
    descOf v key = Some d -> truthy (enumerable d) = false ->
    mightHaveBeenDeleted (value_or_undefined (value d)) = false
}.

End Enumeration.

(** The prototype chain of [v] reaches null after [n] objects. *)
Inductive reaches_null (proto : Value -> Value) : Value -> nat -> Prop :=
| reaches_null_here v : proto v = NullValue -> reaches_null proto v 0
| reaches_null_next v n :
    proto v <> NullValue -> reaches_null proto (proto v) n -> reaches_null proto v (S n).

(** The keys of the [n] objects that follow [v] on its chain, plus one turn
    for each of them. *)
Fixpoint rest_cost (proto : Value -> Value) (keysOf : Value -> list PropertyKeyValue)
    (n : nat) (v : Value) : nat :=
  match n with
  | O => 0
  | S n => 1 + length (keysOf (proto v)) + rest_cost proto keysOf n (proto v)
  end.

(** A bound on the turns left: twice the keys left on the chain, plus one
    when the key under the cursor has not been visited. *)
Definition turns_left (proto : Value -> Value) (keysOf : Value -> list PropertyKeyValue)
    (n : nat) (e : Enumerator) : nat :=
  2 * ((length (keys e) - index e) + rest_cost proto keysOf n (enum_obj e))
  + match keys e !! index e with
    | Some (PKStringValue key) => if bool_decide (key ∈ visited e) then 0 else 1
    | _ => 0
    end.

(** A realm whose object 1 hides "b" of its prototype 2 behind a
    non-enumerable "b". *)
Definition realm_enum : Realm :=
  realm_of [(1, object_with 1 (ObjectValue 2)
                  [("b", data NullValue true false true);
                   ("d", data NullValue true true true)]);
            (2, object_with 2 NullValue
                  [("a", data NullValue true true true);
                   ("b", data NullValue true true true);
                   ("c", data NullValue true false true)])].

(** * More of the sources *)

(** ** methods/properties.js, continued *)

(** ECMA262 6.2.4.6.  The source fills the missing fields of [Desc] in
    place and returns [Desc]; here the filled descriptor is returned. *)
Definition CompletePropertyDescriptor (Desc : Descriptor) : Descriptor :=
  (* 2. Let like be Record{[[Value]]: undefined, [[Writable]]: false,
        [[Get]]: undefined, [[Set]]: undefined, [[Enumerable]]: false,
        [[Configurable]]: false}. *)
  let like := mkDesc (Some UndefinedValue) (Some false) (Some UndefinedValue)
                     (Some UndefinedValue) (Some false) (Some false) in
  (* [if (!(field in Desc)) Desc[field] = like[field]] *)
  let fill (field : Field) (Desc : Descriptor) : Descriptor :=
    if negb (field_in field Desc) then field_copy field like Desc else Desc in
  let Desc :=
    (* 3. If either IsGenericDescriptor(Desc) or IsDataDescriptor(Desc) is true, then *)
    if IsGenericDescriptor (Some Desc) || IsDataDescriptor (Some Desc) then
      fill f_writable (fill f_value Desc)
    else
      (* 4. Else, *)
      fill f_set (fill f_get Desc) in
  (* 5., 6. *)
  fill f_configurable (fill f_enumerable Desc).

(** [O.$Prototype = V] *)
Definition set_Prototype (V : Value) (o : ObjectData) : ObjectData :=
  mkObject (properties o) (symbols o) V (Extensible o) (isIntrinsic o) (isPartial o)
           (isSimple o) (StringData o) (isFunctionValue o) (isNativeFunctionValue o)
           (hasCall o) (ThisModeSlot o).

Section Prototypes.
Context {ext : Externals}.

(** 8. Repeat while done is false; the result tells whether the loop came
    to its end ([false]: it returned false from the function).  [fuel]
    bounds the turns of the loop, which follows the [$Prototype] slots. *)
Fixpoint OrdinarySetPrototypeOf_loop (fuel : nat) (O : ObjRef) (p : Value) : M bool :=
  match fuel with
  | 0 => fail OutOfFuel
  | S fuel =>
      match p with
      | NullValue =>
          (* a. If p is null, let done be true. *)
          ret true
      | _ =>
          (* b. Else if SameValue(p, O) is true, return false. *)
          if SameValue p (ObjectValue O) then ret false
          else
            (* c. ii. Else, let p be the value of p's [[Prototype]] internal slot. *)
            match p with
            | ObjectValue r =>
                p <- gets (fun realm => Prototype (obj realm r)) ;;
                OrdinarySetPrototypeOf_loop fuel O p
            | _ => fail (HostError "p.$Prototype")
            end
      end
  end.

(** ECMA262 9.1.2.1 *)
Definition OrdinarySetPrototypeOf (fuel : nat) (O : ObjRef) (V : Value) : M bool :=
  (* 1. Assert: Either Type(V) is Object or Type(V) is Null. *)
  invariant (match V with ObjectValue _ | NullValue => true | _ => false end)
            "V instanceof ObjectValue || V instanceof NullValue" ;;;
  (* 2. Let extensible be the value of the [[Extensible]] internal slot of O. *)
  extensible <- gets (fun realm => Extensible (obj realm O)) ;;
  (* 3. Let current be the value of the [[Prototype]] internal slot of O. *)
  current <- gets (fun realm => Prototype (obj realm O)) ;;
  (* 4. If SameValue(V, current) is true, return true. *)
  if SameValue V current then ret true else
  (* 5. If extensible is false, return false. *)
  if negb extensible then ret false else
  (* 6. to 8. *)
  done <- OrdinarySetPrototypeOf_loop fuel O V ;;
  if negb done then ret false else
  (* 9. Set the value of the [[Prototype]] internal slot of O to V. *)
  modify (fun realm => set_obj O (set_Prototype V (obj realm O)) realm) ;;;
  (* 10. Return true. *)
  ret true.

End Prototypes.

(** ** evaluators/ReturnStatement.js and the loop helpers *)

Record BabelNodeReturnStatement : Type := mkReturnStatement {
  argument : option BabelNode
}.

Section Statements.
Context {ext : Externals}.

(** The evaluator of a return statement. *)
Definition ReturnStatement (ast : BabelNodeReturnStatement) (strictCode : bool)
    (env : LexicalEnvironment) : M Value :=
  arg <- (match argument ast with
          | Some node =>
              ref <- evaluate env node strictCode ;;
              GetValue ref
          | None => ret UndefinedValue
          end) ;;
  throw (ReturnCompletion arg).

End Statements.

(** What evaluating a statement hands to a loop
    ([Reference | Value | AbruptCompletion]).  A continue completion only
    travels between a loop body and its loop; the other abrupt completions
    are those of the interpreter monad. *)
Inductive Completion : Type :=
| CompletionValue (v : Value)
| CompletionReference
| ContinueCompletion (v : option Value) (target : option string)
| OtherCompletion (c : AbruptCompletion).

(** ECMA262 13.7.1.2.  A target that is the empty string counts as no
    target ([!completion.target]). *)
Definition LoopContinues (completion : Completion) (labelSet : option (list string)) : bool :=
  match completion with
  | CompletionValue _ | CompletionReference =>
      (* 1. If completion.[[Type]] is normal, return true. *)
      true
  | OtherCompletion _ =>
      (* 2. If completion.[[Type]] is not continue, return false. *)
      false
  | ContinueCompletion _ target =>
      match target with
      | None | Some "" =>
          (* 3. If completion.[[Target]] is empty, return true. *)
          true
      | Some target =>
          (* 4. If completion.[[Target]] is an element of labelSet, return true. *)
          match labelSet with
          | Some labelSet => if bool_decide (target ∈ labelSet) then true else false
          | None =>
              (* 5. Return false. *)
              false
          end
      end
  end.

(** ** Statements about the other functions *)

(** The objects on the prototype chain that starts at [p], a chain that
    ends in null. *)
Inductive prototype_chain (realm : Realm) : Value -> list ObjRef -> Prop :=
| chain_null : prototype_chain realm NullValue []
| chain_object r rest :
    prototype_chain realm (Prototype (obj realm r)) rest ->
    prototype_chain realm (ObjectValue r) (r :: rest).

Section Identity.
Context {ext : Externals}.

(** SameValue tells two objects apart by their identity. *)
Definition SameValue_on_objects : Prop :=
  forall r r', SameValue (ObjectValue r) (ObjectValue r') = bool_decide (r = r').

End Identity.

Section Comparison.
Context {ext : Externals}.

(** SameValuePartial only compares: it leaves the realm as it is. *)
Definition SameValuePartial_reads : Prop :=
  forall x y realm, snd (SameValuePartial x y realm) = realm.

End Comparison.

#[global] Instance Field_eq_dec : EqDecision Field.
Proof. solve_decision. Defined.

Section Owner.
Context {im : InternalMethods}.

(** Walking up the prototype chain from [v] in [realm], where the lookups
    only read: the first object that has an own property [P] is [n]
    objects above [v] and holds the descriptor [d], whose value is
    certain; [d] is [None] when the chain ends in null with no owner. *)
Inductive nearest_owner (P : PropertyKeyValue) (realm : Realm) :
    Value -> option Descriptor -> nat -> Prop :=
| owner_here v d :
    dollar_GetOwnProperty v P realm = (Normal (Some d), realm) ->
    mightHaveBeenDeleted (value_or_undefined (value d)) = false ->
    nearest_owner P realm v (Some d) 0
| owner_none v :
    dollar_GetOwnProperty v P realm = (Normal None, realm) ->
    dollar_GetPrototypeOf v realm = (Normal NullValue, realm) ->
    nearest_owner P realm v None 0
| owner_above v parent d n :
    dollar_GetOwnProperty v P realm = (Normal None, realm) ->
    dollar_GetPrototypeOf v realm = (Normal parent, realm) ->
    isConcrete parent = true ->
    parent <> NullValue ->
    nearest_owner P realm parent d n ->
    nearest_owner P realm v d (S n).

End Owner.

(** A chain of three objects; only the last one owns "a", read-only. *)
Definition realm_owner : Realm :=
  realm_of [(1, object_with 1 (ObjectValue 2) []);
            (2, object_with 2 (ObjectValue 3) []);
            (3, object_with 3 NullValue [("a", data (NumberValue (of_Z 0)) false true true)])].

(** [m] leaves the stack of execution contexts as it found it, whether it
    returns or fails. *)
Definition keeps_contexts {A} (m : M A) : Prop :=
  forall realm, contextStack (snd (m realm)) = contextStack realm.

Section Collaborators.
Context {ext : Externals} {im : InternalMethods}.

(** What the head of a for-in/of loop calls leaves the stack of execution
    contexts as it found it. *)
Record head_collaborators_keep_contexts : Prop := {
  keeps_NewDeclarativeEnvironment :
    forall env, keeps_contexts (NewDeclarativeEnvironment env);
  keeps_CreateMutableBinding :
    forall envRec name deletable, keeps_contexts (CreateMutableBinding envRec name deletable);
  keeps_evaluate : forall env ast strictCode, keeps_contexts (evaluate env ast strictCode);
  keeps_GetValue : forall v, keeps_contexts (GetValue v);
  keeps_ToObject : forall v, keeps_contexts (ToObject v);
  keeps_GetIterator : forall v, keeps_contexts (GetIterator v);
  keeps_OwnPropertyKeys : forall v, keeps_contexts (dollar_OwnPropertyKeys v)
}.

End Collaborators.

(** * Properties *)

(** Unfolds the monad operations at the head of a goal. *)
Ltac run :=
  unfold bind, ret, gets, modify, fail, throw, throwIntrospectionError, invariant; simpl.

(** ** Invocation *)

Section Call_facts.
Context {ext : Externals} {im : InternalMethods}.

(** PrepareForTailCall suspends the running context and pops it. *)
Lemma PrepareForTailCall_pops realm leaf rest :
  contextStack realm = leaf :: rest ->
  PrepareForTailCall realm = (Normal tt, set_contextStack rest realm).
Proof.
  intros Hstack. destruct realm; simpl in *; subst.
  reflexivity.
Qed.

(** With a true tailPosition flag the call is issued after the caller's
    context has been popped. *)
Lemma EvaluateDirectCall_tail strictCode env r thisValue args realm argList realm1 :
  ArgumentListEvaluation strictCode env args realm = (Normal argList, realm1) ->
  IsCallable (ObjectValue r) realm1 = (Normal true, realm1) ->
  EvaluateDirectCall strictCode env (ObjectValue r) thisValue args (Some true) realm
  = (PrepareForTailCall ;;; Call (ObjectValue r) thisValue argList) realm1.
Proof.
  intros Hargs Hcallable.
  unfold EvaluateDirectCall, bind at 1 2. rewrite Hargs, Hcallable. simpl.
  unfold bind. destruct (PrepareForTailCall realm1) as [[[]|f] realm2]; [|reflexivity].
  destruct (Call (ObjectValue r) thisValue argList realm2) as [[v|f] realm3]; reflexivity.
Qed.

(** C10: IsInTailPosition is false on every node.  Hence a direct call
    whose tailPosition flag comes from IsInTailPosition behaves as one
    without the flag, and for a callable function object the call is issued
    on the realm that argument evaluation left: PrepareForTailCall has not
    run and the caller's context is still on the stack. *)
Theorem tail_call_path_not_taken :
  (forall node, IsInTailPosition node = false) /\
  (forall strictCode env func thisValue args node,
     EvaluateDirectCall strictCode env func thisValue args (Some (IsInTailPosition node)) =
     EvaluateDirectCall strictCode env func thisValue args None) /\
  (forall strictCode env r thisValue args node realm argList realm1,
     ArgumentListEvaluation strictCode env args realm = (Normal argList, realm1) ->
     IsCallable (ObjectValue r) realm1 = (Normal true, realm1) ->
     EvaluateDirectCall strictCode env (ObjectValue r) thisValue args
       (Some (IsInTailPosition node)) realm
     = Call (ObjectValue r) thisValue argList realm1).
Proof.
  split; [reflexivity|]. split; [reflexivity|].
  intros strictCode env r thisValue args node realm argList realm1 Hargs Hcallable.
  unfold EvaluateDirectCall, bind. rewrite Hargs, Hcallable. simpl.
  destruct (Call (ObjectValue r) thisValue argList realm1) as [[v|f] realm2]; reflexivity.
Qed.

(** C8: OrdinaryCallBindThis decides the this-binding from the this-mode.
    A lexical function binds nothing: the result is undefined and the realm
    is untouched.  Otherwise, the callee having a local environment and the
    global environment record being a global one, a strict or native
    function binds the this-argument as given, and any other function
    binds the global this-value when the this-argument is null or
    undefined and the object coercion of the this-argument when it is
    not. *)
Theorem OrdinaryCallBindThis_by_this_mode F calleeContext thisArgument realm :
  (ThisModeSlot (obj realm F) = Some ThisLexical ->
   OrdinaryCallBindThis F calleeContext thisArgument realm = (Normal UndefinedValue, realm)) /\
  (forall localEnv id globalThis,
     lexicalEnvironment calleeContext = Some localEnv ->
     environmentRecord (GlobalEnv realm) = GlobalEnvironmentRecord id globalThis ->
     OrdinaryCallBindThis F calleeContext thisArgument realm =
     match this_binding (ThisModeSlot (obj realm F)) (isNativeFunctionValue (obj realm F))
                        thisArgument globalThis with
     | BindsNothing => (Normal UndefinedValue, realm)
     | BindsValue v => BindThisValue (environmentRecord localEnv) v realm
     | BindsWrapperOf v =>
         (thisValue <- ToObjectPartial v ;;
          BindThisValue (environmentRecord localEnv) thisValue) realm
     end).
Proof.
  split.
  - intros Hmode. unfold OrdinaryCallBindThis. run. rewrite Hmode. reflexivity.
  - intros localEnv id globalThis Henv Hglobal.
    unfold OrdinaryCallBindThis, this_binding, is_null_or_undefined,
      HasSomeCompatibleType. run.
    rewrite Henv.
    destruct (ThisModeSlot (obj realm F)) as [[]|]; simpl; try reflexivity;
      destruct (isNativeFunctionValue (obj realm F)); simpl; try reflexivity;
      rewrite ?orb_false_r;
      destruct (bool_decide (getType thisArgument = TNull)),
               (bool_decide (getType thisArgument = TUndefined)); simpl;
      rewrite ?Hglobal; simpl; try reflexivity;
      match goal with
      | |- context [BindThisValue ?e ?v ?r] =>
          destruct (BindThisValue e v r) as [[? | ?] ?]; reflexivity
      end.
Qed.

End Call_facts.

(** A call of the function object 2 from a tail-flagged site runs on the
    unchanged realm. *)
Lemma tail_call_path_not_taken_witness :
  EvaluateDirectCall (ext := externals) (im := methods) false env0 (ObjectValue 2)
    UndefinedValue [] (Some (IsInTailPosition (mkNode "CallExpression"))) realm_calls
  = Call (im := methods) (ObjectValue 2) UndefinedValue [] realm_calls.
Proof.
  apply (proj2 (proj2 (@tail_call_path_not_taken externals methods))).
  - reflexivity.
  - reflexivity.
Defined.

(** The non-strict function 2 called on null binds the global object, the
    strict function 3 binds null, the arrow function 4 binds nothing. *)
Lemma OrdinaryCallBindThis_by_this_mode_witness :
  fst (OrdinaryCallBindThis (ext := externals) 2 (mkContext (Some env0) false) NullValue realm_calls)
    = Normal (ObjectValue 0) /\
  fst (OrdinaryCallBindThis (ext := externals) 3 (mkContext (Some env0) false) NullValue realm_calls)
    = Normal NullValue /\
  OrdinaryCallBindThis (ext := externals) 4 (mkContext (Some env0) false) NullValue realm_calls
    = (Normal UndefinedValue, realm_calls).
Proof.
  split; [|split].
  - rewrite (proj2 (@OrdinaryCallBindThis_by_this_mode externals 2
               (mkContext (Some env0) false) NullValue realm_calls) env0 0 (ObjectValue 0));
      reflexivity.
  - rewrite (proj2 (@OrdinaryCallBindThis_by_this_mode externals 3
               (mkContext (Some env0) false) NullValue realm_calls) env0 0 (ObjectValue 0));
      reflexivity.
  - apply (proj1 (@OrdinaryCallBindThis_by_this_mode externals 4
               (mkContext (Some env0) false) NullValue realm_calls)).
    reflexivity.
Defined.

(** ** The for-in head *)

Section Head_and_wrappers.
Context {ext : Externals} {im : InternalMethods}.

(** C9 (amended): in enumerate mode, once the head expression has a value,
    a value that is null or undefined makes the head a Break completion
    with the empty value and no target; any other concrete value makes it
    the EnumerateObjectProperties enumerator of the object coercion of the
    value; an abstract value that is not known to be null or undefined
    makes it fail with IntrospectionError. *)
Theorem ForInOfHeadEvaluation_enumerate env TDZnames expr strictCode realm exprValue realm1 :
  ForInOfHeadEvaluation_exprValue env TDZnames expr strictCode realm = (Normal exprValue, realm1) ->
  ForInOfHeadEvaluation env TDZnames expr enumerate strictCode realm =
    if is_null_or_undefined exprValue then
      (Fail (Abrupt (BreakCompletion EmptyValue None)), realm1)
    else if isConcrete exprValue then
      (object <- ToObject exprValue ;;
       e <- EnumerateObjectProperties object ;;
       ret (HeadEnumerator e)) realm1
    else (Fail IntrospectionError, realm1).
Proof.
  intros Hvalue. unfold ForInOfHeadEvaluation, bind at 1. rewrite Hvalue.
  unfold is_null_or_undefined, HasSomeCompatibleType. simpl. rewrite orb_false_r.
  destruct (bool_decide (getType exprValue = TNull) || bool_decide (getType exprValue = TUndefined));
    [reflexivity|].
  unfold throwIfNotConcrete. destruct (isConcrete exprValue); reflexivity.
Qed.

End Head_and_wrappers.

(** C9, as stated, fails: the head expression has the value of an abstract
    object, which is neither null nor undefined, and the head does not
    return an enumerator, it fails with IntrospectionError. *)
Lemma ForInOfHeadEvaluation_abstract_fails :
  let head := ForInOfHeadEvaluation (ext := externals_for abstract_object)
                (im := methods_for abstract_object) env0 [] (mkNode "Identifier") in
  ForInOfHeadEvaluation_exprValue (ext := externals_for abstract_object)
    env0 [] (mkNode "Identifier") false realm_calls = (Normal abstract_object, realm_calls) /\
  is_null_or_undefined abstract_object = false /\
  head enumerate false realm_calls = (Fail IntrospectionError, realm_calls) /\
  ~ (exists e realm', head enumerate false realm_calls = (Normal (HeadEnumerator e), realm')).
Proof.
  assert (H : ForInOfHeadEvaluation (ext := externals_for abstract_object)
                (im := methods_for abstract_object) env0 [] (mkNode "Identifier")
                enumerate false realm_calls = (Fail IntrospectionError, realm_calls))
    by (vm_compute; reflexivity).
  cbv zeta. repeat split; try exact H; try (vm_compute; reflexivity).
  intros (e & realm' & Heq). rewrite H in Heq. discriminate.
Qed.

(** The head over the object 1 is the enumerator of that object; over null
    it is the Break completion. *)
Lemma ForInOfHeadEvaluation_enumerate_witness :
  ForInOfHeadEvaluation (ext := externals_for (ObjectValue 1)) (im := methods_for (ObjectValue 1))
    env0 [] (mkNode "Identifier") enumerate false realm_calls
  = (Normal (HeadEnumerator (mkEnum ∅ (ObjectValue 1) [PKStringValue "a"] 0)), realm_calls) /\
  ForInOfHeadEvaluation (ext := externals) (im := methods)
    env0 [] (mkNode "NullLiteral") enumerate false realm_calls
  = (Fail (Abrupt (BreakCompletion EmptyValue None)), realm_calls).
Proof.
  split.
  - rewrite (@ForInOfHeadEvaluation_enumerate (externals_for (ObjectValue 1))
               (methods_for (ObjectValue 1)) env0 [] (mkNode "Identifier") false
               realm_calls (ObjectValue 1) realm_calls); reflexivity.
  - rewrite (@ForInOfHeadEvaluation_enumerate externals methods env0 []
               (mkNode "NullLiteral") false realm_calls NullValue realm_calls); reflexivity.
Defined.

(** ** The heap *)

Lemma map_get_set {K V} `{EqDecision K} (k k' : K) (v : V) (m : list (K * V)) :
  map_get k' (map_set k v m) = if decide (k = k') then Some v else map_get k' m.
Proof.
  induction m as [|[k0 v0] m IH]; simpl.
  - destruct (decide (k' = k)), (decide (k = k')); congruence.
  - destruct (decide (k = k0)) as [->|Hne]; simpl.
    + destruct (decide (k' = k0)), (decide (k0 = k')); congruence.
    + destruct (decide (k' = k0)) as [->|Hne'].
      * destruct (decide (k = k0)); congruence.
      * exact IH.
Qed.

Lemma binding_get_set k k' b o :
  binding_get (binding_set k b o) k' = if decide (k = k') then Some b else binding_get o k'.
Proof.
  destruct k as [s|y], k' as [s'|y']; simpl; rewrite ?map_get_set;
    repeat case_decide; congruence.
Qed.

Lemma obj_set_obj realm O o O' :
  obj (set_obj O o realm) O' = if decide (O = O') then o else obj realm O'.
Proof. unfold obj, set_obj, set_heap. simpl. apply lookup_total_insert. Qed.

Lemma own_descriptor_set realm O k d O' k' :
  own_descriptor (set_obj O (binding_set k (mkBinding d O k) (obj realm O)) realm) O' k'
  = if decide ((O, k) = (O', k')) then d else own_descriptor realm O' k'.
Proof.
  unfold own_descriptor. rewrite obj_set_obj.
  destruct (decide (O = O')) as [->|HO].
  - rewrite binding_get_set.
    destruct (decide (k = k')), (decide ((O', k) = (O', k'))); simplify_eq; simpl;
      try reflexivity; congruence.
  - destruct (decide ((O, k) = (O', k'))); simplify_eq; reflexivity.
Qed.

Lemma own_descriptor_heap realm realm' O k :
  heap realm' = heap realm -> own_descriptor realm' O k = own_descriptor realm O k.
Proof. unfold own_descriptor, obj. intros ->. reflexivity. Qed.

(** ** ValidateAndApplyPropertyDescriptor *)

Section Define_facts.
Context {ext : Externals} {im : InternalMethods}.

(** The generator hook leaves the heap alone. *)
Lemma InternalUpdatedProperty_heap O P realm :
  exists realm', InternalUpdatedProperty O P realm = (Normal tt, realm') /\
                 heap realm' = heap realm.
Proof.
  unfold InternalUpdatedProperty, emit. run.
  destruct (isIntrinsic (obj realm O)); simpl; [|eauto].
  destruct (generator realm) as [log|] eqn:Hgen; simpl; [|eauto].
  destruct P as [P|P|y]; simpl; [| |eauto].
  all: destruct (own_descriptor realm O (StrKey P)) as [desc|]; simpl.
  all: repeat match goal with
       | |- context [match ?x with _ => _ end] => destruct x eqn:?; simpl
       end; rewrite ?Hgen; eauto.
Qed.

(** InternalSetProperty stores the descriptor under the key of [P] and
    changes no other binding. *)
Lemma InternalSetProperty_descriptor O P desc realm :
  exists realm', InternalSetProperty O P desc realm = (Normal tt, realm') /\
    forall O' k', own_descriptor realm' O' k' =
      if decide ((O, InternalGetPropertiesKey P) = (O', k')) then Some desc
      else own_descriptor realm O' k'.
Proof.
  unfold InternalSetProperty, set_descriptor, recordModifiedProperty. run.
  destruct (binding_get (obj realm O) (InternalGetPropertiesKey P)) as [b|] eqn:Hb; simpl.
  - eexists. split; [reflexivity|]. intros O' k'.
    match goal with |- own_descriptor (set_obj _ (binding_set _ _ (obj ?r _)) ?r) _ _ = _ =>
      rewrite own_descriptor_set end.
    case_decide; [reflexivity|]. apply own_descriptor_heap. case_bool_decide; reflexivity.
  - eexists. split; [reflexivity|]. intros O' k'.
    match goal with |- own_descriptor (set_obj _ (binding_set _ _ (obj ?r _)) ?r) _ _ = _ =>
      rewrite own_descriptor_set end.
    case_decide; [reflexivity|].
    match goal with |- own_descriptor ?r _ _ = _ =>
      rewrite (own_descriptor_heap
                 (set_obj O (binding_set (InternalGetPropertiesKey P)
                                         (mkBinding None O (InternalGetPropertiesKey P))
                                         (obj realm O)) realm) r)
    end.
    + rewrite own_descriptor_set. case_decide; [congruence|]. reflexivity.
    + case_bool_decide; reflexivity.
Qed.

(** C2: with no current descriptor, ValidateAndApplyPropertyDescriptor on
    an object O and key P returns false and leaves the realm as it is when
    extensible is false.  When extensible is true it returns true, and the
    binding of P in O then holds, for a generic or data Desc, the data
    property of Desc with value undefined and writable, enumerable and
    configurable false for the missing fields, and for an accessor Desc
    the accessor property of Desc with get and set undefined and enumerable
    and configurable false for the missing fields; no other binding
    changes.  Without an object the call only validates: it returns
    extensible and leaves the realm as it is. *)
Theorem ValidateAndApplyPropertyDescriptor_absent O P Desc realm :
  ValidateAndApplyPropertyDescriptor (Some O) (Some P) false Desc None realm
    = (Normal false, realm) /\
  (IsGenericDescriptor (Some Desc) = true \/ IsDataDescriptor (Some Desc) = true ->
   exists realm',
     ValidateAndApplyPropertyDescriptor (Some O) (Some P) true Desc None realm
       = (Normal true, realm') /\
     forall O' k', own_descriptor realm' O' k' =
       if decide ((O, InternalGetPropertiesKey P) = (O', k')) then Some (created_data Desc)
       else own_descriptor realm O' k') /\
  (IsAccessorDescriptor (Some Desc) = true -> IsDataDescriptor (Some Desc) = false ->
   exists realm',
     ValidateAndApplyPropertyDescriptor (Some O) (Some P) true Desc None realm
       = (Normal true, realm') /\
     forall O' k', own_descriptor realm' O' k' =
       if decide ((O, InternalGetPropertiesKey P) = (O', k')) then Some (created_accessor Desc)
       else own_descriptor realm O' k') /\
  (forall extensible,
     ValidateAndApplyPropertyDescriptor None None extensible Desc None realm
       = (Normal extensible, realm)).
Proof.
  assert (Hkey : IsPropertyKey P = true) by (destruct P; reflexivity).
  repeat split.
  - unfold ValidateAndApplyPropertyDescriptor. run. rewrite Hkey. reflexivity.
  - intros Hkind.
    assert (Hb : IsGenericDescriptor (Some Desc) || IsDataDescriptor (Some Desc) = true)
      by (destruct Hkind as [-> | ->]; [reflexivity | apply orb_true_r]).
    destruct (InternalSetProperty_descriptor O P (created_data Desc) realm)
      as (realm1 & Hset & Hdesc).
    destruct (InternalUpdatedProperty_heap O P realm1) as (realm2 & Hupd & Hheap).
    exists realm2. split.
    + unfold ValidateAndApplyPropertyDescriptor, bind, invariant. rewrite Hkey. cbn [ret negb].
      rewrite Hb. unfold created_data, default in Hset.
      cbn [id] in Hset. rewrite Hset, Hupd. reflexivity.
    + intros O' k'. rewrite (own_descriptor_heap realm1 realm2 O' k' Hheap). apply Hdesc.
  - intros Hacc Hdata.
    assert (Hb : IsGenericDescriptor (Some Desc) || IsDataDescriptor (Some Desc) = false).
    { rewrite Hdata, orb_false_r. unfold IsGenericDescriptor. rewrite Hacc. reflexivity. }
    destruct (InternalSetProperty_descriptor O P (created_accessor Desc) realm)
      as (realm1 & Hset & Hdesc).
    destruct (InternalUpdatedProperty_heap O P realm1) as (realm2 & Hupd & Hheap).
    exists realm2. split.
    + unfold ValidateAndApplyPropertyDescriptor, bind, invariant. rewrite Hkey. cbn [ret negb].
      rewrite Hb. unfold created_accessor, default in Hset.
      cbn [id] in Hset. rewrite Hset, Hupd. reflexivity.
    + intros O' k'. rewrite (own_descriptor_heap realm1 realm2 O' k' Hheap). apply Hdesc.
  - intros [|]; unfold ValidateAndApplyPropertyDescriptor, bind; cbn [ret negb]; [|reflexivity].
    destruct (IsGenericDescriptor (Some Desc) || IsDataDescriptor (Some Desc)); reflexivity.
Qed.

Lemma same_reference_refl v : isConcrete v = false -> same_reference v v = true.
Proof.
  destruct v; try discriminate. intros _. simpl. apply bool_decide_eq_true. reflexivity.
Qed.

(** The loop of step 4 finds identical fields identical. *)
Lemma identical_fields_true fields Desc current :
  (forall field, In field fields -> field_in field Desc = true) ->
  fields_identical Desc current ->
  identical_fields fields Desc current true = true.
Proof.
  intros Hin Hid. induction fields as [|field fields IH]; [reflexivity|].
  cbn [identical_fields].
  destruct (Hid field (Hin field (or_introl eq_refl))) as [Hcur Hval].
  rewrite Hcur. cbn [negb]. unfold identical_value in Hval.
  destruct (isConcrete (InternalDescriptorPropertyToValue (field_get Desc field))) eqn:Hd,
           (isConcrete (InternalDescriptorPropertyToValue (field_get current field))) eqn:Hc;
    cbv beta iota delta [andb] in Hval; cbn [andb].
  - rewrite Hval. cbn [negb]. apply IH. intros f Hf. apply Hin. right. exact Hf.
  - rewrite Hval in Hd. congruence.
  - rewrite Hval in Hd. congruence.
  - rewrite Hval. rewrite (same_reference_refl _ Hc). cbn [negb].
    apply IH. intros f Hf. apply Hin. right. exact Hf.
Qed.

(** C3 (amended): when a current descriptor exists whose value is not
    flagged as possibly deleted, and every field present in Desc occurs in
    current with an identical value (the same value for concrete values,
    the same reference otherwise), ValidateAndApplyPropertyDescriptor
    returns true and the realm is the one it started from: no binding has
    changed and the modified-set of the effects region has no new entry. *)
Theorem identical_descriptor_is_noop O P extensible Desc current realm :
  (is_Some O -> is_Some P) ->
  mightHaveBeenDeleted (value_or_undefined (value current)) = false ->
  fields_identical Desc current ->
  ValidateAndApplyPropertyDescriptor O P extensible Desc (Some current) realm
    = (Normal true, realm).
Proof.
  intros HP Hcertain Hid.
  assert (Hinv : (match O, P with
                  | Some _, None => invariant false "P !== undefined"
                  | Some _, Some P => invariant (IsPropertyKey P) "IsPropertyKey(realm, P)"
                  | None, _ => ret tt
                  end) realm = (Normal tt, realm)).
  { destruct O as [O|]; [|reflexivity]. destruct (HP (mk_is_Some _ _ eq_refl)) as [p ->].
    destruct p; reflexivity. }
  assert (Hthrow : ThrowIfMightHaveBeenDeleted (value current) realm = (Normal tt, realm)).
  { unfold ThrowIfMightHaveBeenDeleted. destruct (value current) as [v|]; [|reflexivity].
    simpl in Hcertain. rewrite Hcertain. reflexivity. }
  unfold ValidateAndApplyPropertyDescriptor, bind at 1. rewrite Hinv.
  unfold bind at 1. rewrite Hthrow.
  destruct (bool_decide (length (desc_keys Desc) = 0)); [reflexivity|].
  rewrite identical_fields_true; [reflexivity| |exact Hid].
  intros field Hf. unfold desc_keys in Hf.
  apply list_elem_of_In, list_elem_of_filter in Hf. exact (proj1 Hf).
Qed.

End Define_facts.

(** Defining "b" with only a value on the extensible object 1 creates the
    data property with the three attributes false. *)
Lemma ValidateAndApplyPropertyDescriptor_absent_witness :
  let Desc := mkDesc (Some NullValue) None None None None None in
  exists realm',
    ValidateAndApplyPropertyDescriptor (ext := externals)
      (Some 1) (Some (PKstring "b")) true Desc None realm_calls
      = (Normal true, realm') /\
    own_descriptor realm' 1 (StrKey "b") = Some (data NullValue false false false) /\
    own_descriptor realm' 1 (StrKey "a") = own_descriptor realm_calls 1 (StrKey "a").
Proof.
  cbv zeta.
  destruct (proj1 (proj2 (@ValidateAndApplyPropertyDescriptor_absent externals 1 (PKstring "b")
              (mkDesc (Some NullValue) None None None None None) realm_calls)))
    as (realm' & Hcall & Hdesc); [right; reflexivity|].
  exists realm'. split; [exact Hcall|]. split.
  - rewrite Hdesc. reflexivity.
  - rewrite Hdesc. reflexivity.
Defined.

(** C3, as stated, fails: the current descriptor exists and Desc is that
    very descriptor, yet the call does not return true, it fails with
    IntrospectionError, because the value of current may have been
    deleted. *)
Lemma identical_descriptor_may_fail :
  let current := data maybe_deleted true true true in
  fields_identical (ext := externals) current current /\
  ValidateAndApplyPropertyDescriptor (ext := externals)
    (Some 1) (Some (PKstring "a")) true current (Some current) realm_uncertain
  = (Fail IntrospectionError, realm_uncertain).
Proof.
  cbv zeta. split.
  - intros field Hf. destruct field; try discriminate Hf; split; reflexivity.
  - reflexivity.
Qed.

(** Writing the value of "a" a second time on the object 1 changes
    nothing. *)
Lemma identical_descriptor_is_noop_witness :
  ValidateAndApplyPropertyDescriptor (ext := externals)
    (Some 1) (Some (PKstring "a")) true
    (mkDesc (Some (NumberValue (of_Z 1))) None None None None None)
    (Some (data (NumberValue (of_Z 1)) true true true)) realm_calls
  = (Normal true, realm_calls).
Proof.
  apply (@identical_descriptor_is_noop externals).
  - intros _. eexists. reflexivity.
  - reflexivity.
  - intros field Hf. destruct field; try discriminate Hf. split; reflexivity.
Defined.

(** ** Numbers and strings *)

Lemma String_get_in_range (str : string) (n : nat) :
  n < String.length str -> exists c, String.get n str = Some c.
Proof.
  revert n. induction str as [|a str IH]; intros n Hn; simpl in *; [lia|].
  destruct n as [|n]; [eauto|]. apply IH. lia.
Qed.

Lemma inject_Z_le x y : (x <= y)%Z <-> (inject_Z x <= inject_Z y)%Q.
Proof. rewrite Zle_Qle. reflexivity. Qed.

Lemma inject_Z_lt x y : (x < y)%Z <-> (inject_Z x < inject_Z y)%Q.
Proof. rewrite Zlt_Qlt. reflexivity. Qed.

Lemma IsInteger_of_integral q i :
  (q == inject_Z i)%Q -> (0 <= i)%Z -> IsInteger (Fin q) = true.
Proof.
  intros Hq Hi. unfold IsInteger.
  assert (Hpos : (0 <= q)%Q) by (rewrite Hq; apply (proj1 (inject_Z_le 0 i)); exact Hi).
  assert (Habs : (Qabs q == inject_Z i)%Q) by (rewrite (Qabs_pos q Hpos); exact Hq).
  rewrite (Qfloor_comp _ _ Habs), Qfloor_Z.
  rewrite (Qeq_eq_bool (inject_Z i) (Qabs q)); [reflexivity|]. symmetry. exact Habs.
Qed.

Lemma integral_of_IsInteger q :
  IsInteger (Fin q) = true -> (0 <= q)%Q -> (q == inject_Z (Qfloor (Qabs q)))%Q.
Proof.
  unfold IsInteger. intros Hint Hpos.
  destruct (Qeq_bool (inject_Z (Qfloor (Qabs q))) (Qabs q)) eqn:Heq; [|discriminate].
  apply Qeq_bool_eq in Heq. rewrite Heq. symmetry. apply Qabs_pos. exact Hpos.
Qed.

(** ** The string wrapper kind *)

Section String_facts.
Context {ext : Externals} {im : InternalMethods}.

(** C5 (amended): for the string wrapper kind, once the ordinary lookup
    of P has completed on a wrapper of the string str: an ordinary own
    descriptor is returned as it is unless its value is flagged as possibly
    deleted, in which case the lookup fails with IntrospectionError; when
    there is no ordinary own descriptor and P is a canonical integer-index
    string whose index lies in [0, length of str), the result is the
    descriptor with the code unit at that index as value, writable false,
    enumerable true and configurable false; for every other key without
    an ordinary own descriptor the result is absent. *)
Theorem StringExotic_GetOwnProperty_cases this P realm ordinary realm1 str :
  OrdinaryGetOwnProperty this P realm = (Normal ordinary, realm1) ->
  StringData (obj realm1 this) = Some str ->
  (forall desc, ordinary = Some desc ->
     StringExotic_GetOwnProperty this P realm =
       if mightHaveBeenDeleted (value_or_undefined (value desc))
       then (Fail IntrospectionError, realm1)
       else (Normal (Some desc), realm1)) /\
  (ordinary = None ->
   forall i, canonical_integer_index P i ->
     (0 <= i < Z.of_nat (String.length str))%Z ->
     exists c, String.get (Z.to_nat i) str = Some c /\
       StringExotic_GetOwnProperty this P realm = (Normal (Some (synthesized c)), realm1)) /\
  (ordinary = None ->
   (forall i, canonical_integer_index P i -> ~ (0 <= i < Z.of_nat (String.length str))%Z) ->
   StringExotic_GetOwnProperty this P realm = (Normal None, realm1)).
Proof.
  intros Hord Hstr. split; [|split].
  - intros desc ->. unfold StringExotic_GetOwnProperty, bind at 1. rewrite Hord.
    unfold ThrowIfMightHaveBeenDeleted. destruct (value desc) as [v|]; simpl; [|reflexivity].
    destruct v; try reflexivity. simpl. destruct (abs_mightHaveBeenDeleted a); reflexivity.
  - intros -> i (p & q & HP & Hcanon & Hq) [Hlo Hhi].
    destruct (String_get_in_range str (Z.to_nat i)) as [c Hc]; [lia|].
    exists c. split; [exact Hc|].
    assert (Hfloor : Qfloor q = i) by (rewrite (Qfloor_comp _ _ Hq); apply Qfloor_Z).
    assert (Hpos : Qle_bool (inject_Z 0) q = true).
    { apply Qle_bool_iff. rewrite Hq. apply (proj1 (inject_Z_le 0 i)). exact Hlo. }
    assert (Hlt : Qle_bool q (inject_Z (Z.of_nat (String.length str))) = true).
    { apply Qle_bool_iff. rewrite Hq. apply (proj1 (inject_Z_le i _)). lia. }
    assert (Hne : Qeq_bool (inject_Z (Z.of_nat (String.length str))) q = false).
    { destruct (Qeq_bool _ q) eqn:E; [|reflexivity]. apply Qeq_bool_eq in E.
      rewrite Hq in E. unfold Qeq in E. simpl in E. lia. }
    unfold StringExotic_GetOwnProperty, bind at 1. rewrite Hord.
    assert (Hgoal : (match CanonicalNumericIndexString p with
      | Some index =>
          if negb (IsInteger index) then ret None
          else if match index with NegZero => true | _ => false end then ret None
          else
            str0 <- gets (fun realm => StringData (obj realm this)) ;;
            match str0 with
            | Some str0 =>
                if num_lt index (of_Z 0) || num_le (of_Z (Z.of_nat (String.length str0))) index
                then ret None
                else ret (Some (mkDesc (Some (StringValue (charAt str0 index))) (Some false)
                                       None None (Some true) (Some false)))
            | None => invariant false "str" ;;; ret None
            end
      | None => ret None
      end) realm1 = (Normal (Some (synthesized c)), realm1)).
    { rewrite Hcanon, (IsInteger_of_integral q i Hq Hlo). run. rewrite Hstr.
      unfold num_le, num_lt, num_eq, of_Z. rewrite Hpos, Hlt, Hne. simpl.
      unfold charAt. rewrite Hfloor.
      destruct (Z.ltb_spec i 0); [lia|]. rewrite Hc. reflexivity. }
    destruct HP as [-> | ->]; exact Hgoal.
  - intros -> Hnone. unfold StringExotic_GetOwnProperty, bind at 1. rewrite Hord.
    destruct P as [p|p|y]; [| |reflexivity].
    all: destruct (CanonicalNumericIndexString p) as [index|] eqn:Hcanon; [|reflexivity].
    all: destruct (IsInteger index) eqn:Hint; [|reflexivity].
    all: destruct index as [| |  |q]; try discriminate; try reflexivity.
    all: cbn [negb]; unfold bind, gets; rewrite Hstr.
    all: destruct (num_lt (Fin q) (of_Z 0) || num_le (of_Z (Z.of_nat (String.length str))) (Fin q))
           eqn:Hrange; [reflexivity|exfalso].
    all: apply orb_false_iff in Hrange; destruct Hrange as [Hlo Hhi].
    all: unfold num_le, num_lt, num_eq, of_Z in Hlo, Hhi.
    all: apply negb_false_iff, Qle_bool_iff in Hlo.
    all: apply orb_false_iff in Hhi; destruct Hhi as [Hhi Hne].
    all: apply negb_false_iff, Qle_bool_iff in Hhi.
    all: pose proof (integral_of_IsInteger q Hint Hlo) as Hq.
    all: apply (Hnone (Qfloor (Qabs q))); [exists p, q; eauto|].
    all: split.
    all: try (apply (proj2 (inject_Z_le 0 _)); rewrite <- Hq; exact Hlo).
    all: apply (proj2 (inject_Z_lt _ _)); rewrite <- Hq; apply Qle_lteq in Hhi; destruct Hhi as [Hhi|Hhi];
      [exact Hhi|].
    all: apply Qeq_bool_neq in Hne; exfalso; apply Hne; symmetry; exact Hhi.
Qed.

End String_facts.

(** C5, as stated, fails: "x" has an ordinary own descriptor on the wrapper
    5, yet the lookup does not return it, it fails with IntrospectionError,
    because the value of that descriptor may have been deleted. *)
Lemma StringExotic_GetOwnProperty_may_fail :
  OrdinaryGetOwnProperty (ext := externals) 5 (PKstring "x") realm_string
    = (Normal (Some (data maybe_deleted true true true)), realm_string) /\
  StringExotic_GetOwnProperty (ext := externals) 5 (PKstring "x") realm_string
    = (Fail IntrospectionError, realm_string).
Proof. split; reflexivity. Qed.

(** On the wrapper of "abc", "1" yields the descriptor of "b" and "3"
    yields nothing. *)
Lemma StringExotic_GetOwnProperty_cases_witness :
  StringExotic_GetOwnProperty (ext := externals) 5 (PKstring "1") realm_string
    = (Normal (Some (synthesized "b")), realm_string) /\
  StringExotic_GetOwnProperty (ext := externals) 5 (PKstring "3") realm_string
    = (Normal None, realm_string).
Proof.
  split.
  - destruct (proj1 (proj2 (@StringExotic_GetOwnProperty_cases externals 5 (PKstring "1")
                realm_string None realm_string "abc" eq_refl eq_refl)) eq_refl 1%Z)
      as (c & Hc & Hcall).
    + exists "1", (inject_Z 1). split; [left; reflexivity|]. split; reflexivity.
    + simpl. lia.
    + simpl in Hc. injection Hc as <-. exact Hcall.
  - apply (proj2 (proj2 (@StringExotic_GetOwnProperty_cases externals 5 (PKstring "3")
                realm_string None realm_string "abc" eq_refl eq_refl)) eq_refl).
    intros i (p & q & [Hp | Hp] & Hcanon & Hq); [|discriminate Hp].
    injection Hp as <-. vm_compute in Hcanon. injection Hcanon as <-.
    unfold Qeq in Hq. simpl in Hq. simpl. lia.
Defined.

(** ** OrdinarySet *)

Section Set_facts.
Context {ext : Externals} {im : InternalMethods}.

(** More fuel does not change a result that was reached. *)
Lemma parentPermitsChildPropertyCreation_fuel fuel fuel' O P realm out realm' :
  fuel <= fuel' ->
  parentPermitsChildPropertyCreation fuel O P realm = (out, realm') ->
  out <> Fail OutOfFuel ->
  parentPermitsChildPropertyCreation fuel' O P realm = (out, realm').
Proof.
  revert fuel' O realm out realm'.
  induction fuel as [|fuel IH]; intros fuel' O realm out realm' Hle Hrun Hout.
  - simpl in Hrun. unfold fail in Hrun. injection Hrun as <- <-. congruence.
  - destruct fuel' as [|fuel']; [lia|].
    cbn [parentPermitsChildPropertyCreation] in *. unfold bind in *.
    destruct (dollar_GetOwnProperty O P realm) as [[ownDesc|f] realm1]; [|exact Hrun].
    destruct (negb (bool_decide (is_Some ownDesc))
              || mightHaveBeenDeleted
                   match ownDesc with
                   | Some d => value_or_undefined (value d)
                   | None => UndefinedValue
                   end); [|exact Hrun].
    destruct (dollar_GetPrototypeOf O realm1) as [[parent|f] realm2]; [|exact Hrun].
    destruct (throwIfNotConcrete parent realm2) as [[concrete|f] realm3]; [|exact Hrun].
    assert (Hrec : forall out1 realm4,
      parentPermitsChildPropertyCreation fuel parent P realm3 = (out1, realm4) ->
      out1 <> Fail OutOfFuel ->
      parentPermitsChildPropertyCreation fuel' parent P realm3 = (out1, realm4)).
    { intros out1 realm4 H1 H2. apply (IH fuel'); [lia|exact H1|exact H2]. }
    destruct parent; try exact Hrun.
    all: destruct (parentPermitsChildPropertyCreation fuel _ P realm3)
           as [[permitted|f] realm4] eqn:Hp.
    all: try (rewrite (Hrec _ _ eq_refl); [exact Hrun|discriminate]).
    all: injection Hrun as <- <-; rewrite (Hrec _ _ eq_refl Hout); reflexivity.
Qed.


(** C4: OrdinarySet on an object that has an own descriptor for P.  When
    the value of that descriptor is certain, the prototype is not asked
    for: the result is the same whatever [$GetPrototypeOf] would answer.
    When the value may have been deleted, the prototype is asked for, and
    OrdinarySet fails with IntrospectionError if the parent is abstract,
    or if the parent is an object for which
    parentPermitsChildPropertyCreation answers false or itself fails with
    IntrospectionError; it then neither returns false nor defines
    anything, the realm being the one those reads left. *)
Theorem OrdinarySet_prototype_chain fuel O P V Receiver realm desc realm1 :
  dollar_GetOwnProperty (ObjectValue O) P realm = (Normal (Some desc), realm1) ->
  (mightHaveBeenDeleted (value_or_undefined (value desc)) = false ->
   forall g,
     OrdinarySet (im := with_GetPrototypeOf g im) fuel O P V Receiver realm
     = OrdinarySet fuel O P V Receiver realm) /\
  (mightHaveBeenDeleted (value_or_undefined (value desc)) = true ->
   forall parent realm2,
     dollar_GetPrototypeOf (ObjectValue O) realm1 = (Normal parent, realm2) ->
     (isConcrete parent = false ->
      OrdinarySet fuel O P V Receiver realm = (Fail IntrospectionError, realm2)) /\
     (isConcrete parent = true -> parent <> NullValue ->
      forall fuel0 realm3,
        parentPermitsChildPropertyCreation fuel0 parent P realm2 = (Normal false, realm3) \/
        parentPermitsChildPropertyCreation fuel0 parent P realm2
          = (Fail IntrospectionError, realm3) ->
        fuel0 <= fuel ->
        OrdinarySet fuel O P V Receiver realm = (Fail IntrospectionError, realm3))).
Proof.
  intros Hown. assert (Hkey : IsPropertyKey P = true) by (destruct P; reflexivity).
  split.
  - intros Hcertain g. unfold OrdinarySet, bind, invariant. rewrite Hkey. cbn [ret].
    change (@dollar_GetOwnProperty (with_GetPrototypeOf g im)) with (@dollar_GetOwnProperty im).
    rewrite Hown. cbn [is_Some bool_decide]. rewrite Hcertain. reflexivity.
  - intros Huncertain parent realm2 Hproto.
    assert (Habstract : isConcrete (value_or_undefined (value desc)) = false).
    { destruct (value_or_undefined (value desc)); try discriminate. reflexivity. }
    split.
    + intros Hparent. unfold OrdinarySet, bind, invariant. rewrite Hkey. cbn [ret].
      rewrite Hown. rewrite Huncertain, orb_true_r, Hproto.
      unfold throwIfNotConcrete. rewrite Hparent. reflexivity.
    + intros Hparent Hnonnull fuel0 realm3 Hpermits Hfuel.
      assert (Hfalse : parentPermitsChildPropertyCreation fuel parent P realm2
                         = (Normal false, realm3) \/
                       parentPermitsChildPropertyCreation fuel parent P realm2
                         = (Fail IntrospectionError, realm3)).
      { destruct Hpermits as [H|H]; [left|right];
          apply (parentPermitsChildPropertyCreation_fuel fuel0 fuel _ _ _ _ _ Hfuel H);
          discriminate. }
      unfold OrdinarySet, bind, invariant. rewrite Hkey. cbn [ret].
      rewrite Hown. rewrite Huncertain, orb_true_r, Hproto.
      unfold throwIfNotConcrete. rewrite Hparent. cbn [ret].
      destruct parent; try congruence; try discriminate Hparent.
      all: destruct Hfalse as [-> | ->]; cbn [negb]; rewrite ?Habstract; reflexivity.
Qed.

End Set_facts.

(** On the object 1, whose "a" may have been deleted and whose parent 2
    holds a read-only "a", a set of "a" fails with IntrospectionError; on
    an object whose "a" is certain the prototype hook is never run. *)
Lemma OrdinarySet_prototype_chain_witness :
  OrdinarySet (ext := externals) (im := methods) 4 1 (PKstring "a") NullValue (ObjectValue 1)
    realm_chain = (Fail IntrospectionError, realm_chain) /\
  OrdinarySet (ext := externals)
    (im := with_GetPrototypeOf (fun _ => fail (HostError "asked")) methods)
    4 1 (PKstring "a") NullValue (ObjectValue 1) realm_calls
  = OrdinarySet (ext := externals) (im := methods) 4 1 (PKstring "a") NullValue (ObjectValue 1)
      realm_calls.
Proof.
  split.
  - apply (proj2 (proj2 (@OrdinarySet_prototype_chain externals methods 4 1 (PKstring "a")
                           NullValue (ObjectValue 1) realm_chain
                           (data maybe_deleted true true true) realm_chain eq_refl)
                    eq_refl (ObjectValue 2) realm_chain eq_refl) eq_refl)
      with (fuel0 := 2).
    + discriminate.
    + left. reflexivity.
    + lia.
  - apply (proj1 (@OrdinarySet_prototype_chain externals methods 4 1 (PKstring "a")
                    NullValue (ObjectValue 1) realm_calls
                    (data (NumberValue (of_Z 1)) true true true) realm_calls eq_refl)).
    reflexivity.
Defined.

(** ** ArraySetLength *)

Lemma insert_sorted_elem_of {A} (le : A -> A -> bool) x y l :
  x ∈ insert_sorted le y l <-> x = y \/ x ∈ l.
Proof.
  induction l as [|z l IH]; simpl.
  - rewrite list_elem_of_singleton, elem_of_nil. tauto.
  - destruct (le y z); rewrite !elem_of_cons; [tauto|]. rewrite IH. tauto.
Qed.

Lemma sort_elem_of x l : x ∈ sort l <-> x ∈ l.
Proof.
  unfold sort. induction l as [|y l IH]; simpl; [reflexivity|].
  rewrite insert_sorted_elem_of, elem_of_cons, IH. reflexivity.
Qed.

Lemma insert_sorted_Sorted x l :
  Sorted string_le l ->
  Sorted string_le
    (insert_sorted (fun x y => String.leb (ToString_int x) (ToString_int y)) x l).
Proof.
  induction l as [|a l IH]; simpl; intros Hl.
  - constructor; constructor.
  - destruct (String.leb (ToString_int x) (ToString_int a)) eqn:Hle.
    + constructor; [exact Hl|]. constructor. exact Hle.
    + inversion Hl as [|? ? Hl' Hhd]; subst.
      constructor; [apply IH; exact Hl'|].
      assert (Hax : string_le a x).
      { destruct (String.leb_total (ToString_int x) (ToString_int a)) as [H|H];
          [congruence|exact H]. }
      destruct l as [|b l]; simpl; [constructor; exact Hax|].
      destruct (String.leb (ToString_int x) (ToString_int b)); constructor;
        [exact Hax|]. inversion Hhd; subst. assumption.
Qed.

(** The default sort orders the indices by their decimal strings. *)
Lemma sort_Sorted l : Sorted string_le (sort l).
Proof.
  unfold sort. induction l as [|x l IH]; simpl; [constructor|].
  apply insert_sorted_Sorted. exact IH.
Qed.

(** Every index that step 16 visits is the integer read off a key of the
    property map and lies between the new and the old length. *)
Lemma ArraySetLength_keys_present properties newLen oldLen x :
  x ∈ ArraySetLength_keys properties newLen oldLen ->
  (exists k, k ∈ map fst properties /\ parseInt k = Some x) /\
  (newLen <= x)%Z /\ num_le (of_Z x) oldLen = true.
Proof.
  unfold ArraySetLength_keys.
  rewrite list_elem_of_In, <- in_rev, <- list_elem_of_In, sort_elem_of, list_elem_of_filter.
  intros [Hrange Hin]. apply andb_prop_elim in Hrange. destruct Hrange as [Hlo Hhi].
  apply list_elem_of_omap in Hin. destruct Hin as (k & Hk & Hparse).
  split; [eauto|]. split.
  - apply Z.leb_le. apply Is_true_true. exact Hlo.
  - apply Is_true_true. exact Hhi.
Qed.

Section Array_facts.
Context {ext : Externals} {im : InternalMethods}.

(** The loop goes on after a delete that succeeded. *)
Lemma ArraySetLength_loop_deleted A key keys newLenDesc newWritable realm realm1 :
  dollar_Delete (ObjectValue A) (PKstring (ToString_int key)) realm = (Normal true, realm1) ->
  ArraySetLength_loop A (key :: keys) newLenDesc newWritable realm
  = ArraySetLength_loop A keys newLenDesc newWritable realm1.
Proof. intros Hdel. cbn [ArraySetLength_loop]. unfold bind. rewrite Hdel. reflexivity. Qed.

(** At the first delete that is refused the length is defined as the
    refused index plus one and the loop leaves with false. *)
Lemma ArraySetLength_loop_refused A key keys newLenDesc newWritable realm realm1 :
  dollar_Delete (ObjectValue A) (PKstring (ToString_int key)) realm = (Normal false, realm1) ->
  ArraySetLength_loop A (key :: keys) newLenDesc newWritable realm
  = (OrdinaryDefineOwnProperty A (PKstring "length")
       (let newLenDesc := with_value (NumberValue (of_Z (key + 1))) newLenDesc in
        if newWritable then newLenDesc else with_writable false newLenDesc) ;;;
     ret false) realm1.
Proof.
  intros Hdel. cbn [ArraySetLength_loop]. unfold bind at 1. rewrite Hdel. cbn [negb].
  destruct newWritable; reflexivity.
Qed.

End Array_facts.

(** With one-digit indices the order of the strings is the order of the
    numbers: shrinking the array 0, 2, 4 from 5 to 1 visits 4 then 2, and
    when 2 refuses to go the length is left at 3. *)
Lemma ArraySetLength_single_digits :
  ArraySetLength_keys (properties (obj realm_array024 1)) 1 (of_Z 5) = [4; 2]%Z /\
  exists realm',
    ArraySetLength (ext := externals) (im := methods) 1
      (mkDesc (Some (NumberValue (of_Z 1))) None None None None None) realm_array024
      = (Normal false, realm') /\
    own_descriptor realm' 1 (StrKey "length")
      = Some (data (NumberValue (of_Z 3)) true false false) /\
    own_descriptor realm' 1 (StrKey "4") = None.
Proof.
  split; [reflexivity|].
  eexists. split; [vm_compute; reflexivity|].
  split; vm_compute; reflexivity.
Qed.

(** C1: the deletions of ArraySetLength are not in descending numeric
    order.  Shrinking to 0 the array of length 11 that holds the elements
    9 and 10 visits 9 before 10, the indices being sorted as strings.  The
    element 9 refuses to go, so the operation returns false with the
    length at 10 while the element 10, above that length, is still there:
    in descending numeric order it would have been deleted first. *)
Theorem ArraySetLength_not_descending :
  ArraySetLength_keys (properties (obj realm_array 1)) 0 (of_Z 11) = [9; 10]%Z /\
  exists realm',
    ArraySetLength (ext := externals) (im := methods) 1
      (mkDesc (Some (NumberValue (of_Z 0))) None None None None None) realm_array
      = (Normal false, realm') /\
    own_descriptor realm' 1 (StrKey "length")
      = Some (data (NumberValue (of_Z 10)) true false false) /\
    own_descriptor realm' 1 (StrKey "9") = Some (data (StringValue "a") true true false) /\
    own_descriptor realm' 1 (StrKey "10") = Some (data (StringValue "b") true true true).
Proof.
  split; [reflexivity|].
  eexists. split; [vm_compute; reflexivity|].
  repeat split; vm_compute; reflexivity.
Qed.

(** Splits a run of closure code along the results of its calls. *)
Ltac split_run :=
  repeat first
    [ progress (cbn [fst snd] in * )
    | progress simplify_eq
    | match goal with
      | p : (Enumerator * Realm)%type |- _ => destruct p
      | H : context [match ?x with _ => _ end] |- _ => destruct x eqn:?
      end ].

(** ** EnumerateObjectProperties *)

Section Enumeration_facts.
Context {ext : Externals} {im : InternalMethods}.

Lemma advance_visited e realm out e1 realm1 :
  advance (e, realm) = (out, (e1, realm1)) ->
  visited e1 = visited e /\
  match out with
  | Normal (Some res) =>
      res = done_result /\ e1 = e /\ length (keys e) <= index e /\
      dollar_GetPrototypeOf (enum_obj e) realm = (Normal NullValue, realm1)
  | _ => True
  end.
Proof.
  unfold advance, bind, gets, lift, assign, modify, ret. cbn [fst snd].
  intros H. split_run; cbn; auto.
  match goal with H : bool_decide _ = true |- _ => apply bool_decide_eq_true in H end.
  auto.
Qed.

Lemma visit_visited e realm out e1 realm1 :
  visit (e, realm) = (out, (e1, realm1)) ->
  visited e ⊆ visited e1 /\
  match out with
  | Normal (Returned res) => exists key, res = yield key /\ (key ∉ visited e) /\ key ∈ visited e1
  | Normal (Continued (omit_non_enumerable key)) => key ∈ visited e1
  | _ => True
  end.
Proof.
  unfold visit, bind, gets, lift, assign, modify, ret. cbn [fst snd].
  intros H. split_run; cbn; split; try set_solver.
  all: match goal with H : bool_decide _ = false |- _ => apply bool_decide_eq_false in H end.
  all: eexists; split; [reflexivity|]; set_solver.
Qed.

Lemma next_turn_visited e realm out e1 realm1 :
  next_turn (e, realm) = (out, (e1, realm1)) ->
  visited e ⊆ visited e1 /\
  match out with
  | Normal (Returned res) =>
      (res = done_result /\ e1 = e /\ length (keys e) <= index e /\
       dollar_GetPrototypeOf (enum_obj e) realm = (Normal NullValue, realm1)) \/
      (exists key, res = yield key /\ (key ∉ visited e) /\ key ∈ visited e1)
  | Normal (Continued (omit_non_enumerable key)) => key ∈ visited e1
  | _ => True
  end.
Proof.
  unfold next_turn, bind at 1.
  destruct (advance (e, realm)) as [[[res|]|f] [e2 realm2]] eqn:Hadv;
    apply advance_visited in Hadv; destruct Hadv as [Hsame Hadv].
  - intros H. injection H as <- <- <-. split; [set_solver|]. left. exact Hadv.
  - intros H. apply visit_visited in H. destruct H as [Hsub H]. rewrite Hsame in *.
    split; [exact Hsub|]. destruct out as [[res|[]]|]; auto.
  - intros H. injection H as <- <- <-. split; [set_solver|exact I].
Qed.

(** A call of [next] that returns either reports the end or yields a key
    that had not been visited. *)
Lemma next_visited fuel e realm res e1 realm1 :
  next fuel (e, realm) = (Normal res, (e1, realm1)) ->
  visited e ⊆ visited e1 /\
  (res = done_result \/ exists key, res = yield key /\ (key ∉ visited e) /\ key ∈ visited e1).
Proof.
  revert e realm. induction fuel as [|fuel IH]; intros e realm; [discriminate|].
  cbn [next]. unfold bind at 1.
  destruct (next_turn (e, realm)) as [[[res'|why]|f] [e2 realm2]] eqn:Hturn;
    [| |discriminate].
  - intros H. injection H as <- <- <-. apply next_turn_visited in Hturn.
    destruct Hturn as [Hsub [(-> & _)|Hyield]]; auto.
  - intros H. apply IH in H. apply next_turn_visited in Hturn.
    destruct Hturn as [Hsub _]. destruct H as [Hsub' [->|(key & -> & Hnew & Hin)]].
    + split; [set_solver|]. left. reflexivity.
    + split; [set_solver|]. right. exists key. split; [reflexivity|]. set_solver.
Qed.

(** The keys of an enumeration are pairwise distinct and none of them had
    been visited before. *)
Lemma enumerates_NoDup fuel e realm ks :
  enumerates fuel e realm ks -> NoDup ks /\ forall key, key ∈ ks -> key ∉ visited e.
Proof.
  induction 1 as [e realm s Hnext|e realm key e1 realm1 ks Hnext Hrest [IHnodup IHnew]].
  - split; [constructor|]. intros key Hin. apply elem_of_nil in Hin. contradiction.
  - apply next_visited in Hnext. destruct Hnext as [Hsub [Hdone|(key' & Heq & Hnew & Hin)]];
      [discriminate|]. injection Heq as <-.
    split.
    + constructor; [|exact IHnodup]. intros Hdup. apply (IHnew key Hdup). exact Hin.
    + intros k Hk. apply elem_of_cons in Hk. destruct Hk as [->|Hk]; [exact Hnew|].
      intros Hv. apply (IHnew k Hk). set_solver.
Qed.

Lemma turns_visited e ts e1 : turns e ts e1 -> visited e ⊆ visited e1.
Proof.
  induction 1 as [e|e realm t e1 realm1 ts e2 Hturn _ IH|e realm f e1 realm1 ts e2 Hturn _ IH].
  - reflexivity.
  - apply next_turn_visited in Hturn. set_solver.
  - apply next_turn_visited in Hturn. set_solver.
Qed.

(** A key yielded by a turn of the trace was not visited when the trace
    began. *)
Lemma turns_yield_new e ts e1 key :
  turns e ts e1 -> Returned (yield key) ∈ ts -> key ∉ visited e.
Proof.
  induction 1 as [e|e realm t e1 realm1 ts e2 Hturn _ IH|e realm f e1 realm1 ts e2 Hturn _ IH];
    intros Hin.
  - apply elem_of_nil in Hin. contradiction.
  - apply next_turn_visited in Hturn. destruct Hturn as [Hsub Hturn].
    apply elem_of_cons in Hin. destruct Hin as [<-|Hin].
    + destruct Hturn as [[Hdone _]|(key' & Heq & Hnew & _)]; [discriminate|].
      injection Heq as <-. exact Hnew.
    + specialize (IH Hin). set_solver.
  - apply next_turn_visited in Hturn. specialize (IH Hin). set_solver.
Qed.

Lemma turns_omitted_then_not_yielded e ts e1 key :
  turns e ts e1 ->
  forall i j, i < j ->
    ts !! i = Some (Continued (omit_non_enumerable key)) \/ ts !! i = Some (Returned (yield key)) ->
    ts !! j <> Some (Returned (yield key)).
Proof.
  induction 1 as [e|e realm t e1 realm1 ts e2 Hturn Hrest IH|e realm f e1 realm1 ts e2 Hturn _ IH];
    intros i j Hij Hi Hj.
  - rewrite lookup_nil in Hj. discriminate.
  - destruct j as [|j]; [lia|]. cbn in Hj. destruct i as [|i]; cbn in Hi.
    + assert (Hvisited : key ∈ visited e1).
      { apply next_turn_visited in Hturn. destruct Hturn as [_ Hturn].
        destruct Hi as [Hi|Hi]; injection Hi as ->; [exact Hturn|].
        destruct Hturn as [[Hdone _]|(key' & Heq & _ & Hin)]; [discriminate|].
        injection Heq as <-. exact Hin. }
      apply (turns_yield_new e1 ts e2 key Hrest); [|exact Hvisited].
      apply list_elem_of_lookup. exists j. exact Hj.
    + apply (IH i j); [lia|exact Hi|exact Hj].
  - apply (IH i j Hij Hi Hj).
Qed.

(** The end is reported exactly when the keys of the current object are
    used up and its prototype is null. *)
Lemma next_turn_done e realm e1 realm1 :
  next_turn (e, realm) = (Normal (Returned done_result), (e1, realm1)) <->
  length (keys e) <= index e /\
  dollar_GetPrototypeOf (enum_obj e) realm = (Normal NullValue, realm1) /\ e1 = e.
Proof.
  split.
  - intros Hturn. apply next_turn_visited in Hturn. destruct Hturn as [_ Hturn].
    destruct Hturn as [(_ & -> & Hend & Hproto)|(key & Heq & _)]; [auto|discriminate].
  - intros (Hend & Hproto & ->).
    unfold next_turn, advance, bind, gets, lift, ret. cbn [fst snd].
    rewrite bool_decide_eq_true_2 by exact Hend. cbn [fst snd]. rewrite Hproto. reflexivity.
Qed.

(** A call of [next] that returns is a run of turns that continue, closed
    by the turn that returns. *)
Lemma next_turns fuel e realm res e1 realm1 :
  next fuel (e, realm) = (Normal res, (e1, realm1)) ->
  exists ts, turns e (ts ++ [Returned res]) e1 /\
             Forall (fun t => exists why, t = Continued why) ts.
Proof.
  revert e realm. induction fuel as [|fuel IH]; intros e realm; [discriminate|].
  cbn [next]. unfold bind at 1.
  destruct (next_turn (e, realm)) as [[[res'|why]|f] [e2 realm2]] eqn:Hturn;
    [| |discriminate].
  - intros H. injection H as <- <- <-. exists []. split; [|constructor].
    eapply turns_turn; [exact Hturn|constructor].
  - intros H. apply IH in H. destruct H as (ts & Hts & Hall).
    exists (Continued why :: ts). split.
    + eapply turns_turn; [exact Hturn|exact Hts].
    + constructor; [eauto|exact Hall].
Qed.

(** When [next] reports the end, the keys of the current object are used
    up and its prototype is null. *)
Lemma next_done fuel e realm e1 realm1 :
  next fuel (e, realm) = (Normal done_result, (e1, realm1)) ->
  length (keys e1) <= index e1 /\
  exists realm0, dollar_GetPrototypeOf (enum_obj e1) realm0 = (Normal NullValue, realm1).
Proof.
  revert e realm. induction fuel as [|fuel IH]; intros e realm; [discriminate|].
  cbn [next]. unfold bind at 1.
  destruct (next_turn (e, realm)) as [[[res'|why]|f] [e2 realm2]] eqn:Hturn;
    [| |discriminate].
  - intros H. injection H as -> <- <-. apply next_turn_done in Hturn.
    destruct Hturn as (Hend & Hproto & ->). eauto.
  - intros H. apply IH in H. exact H.
Qed.

(** *** Termination on a chain that the internal methods read *)

Section Tables.
Context (realm : Realm) (proto : Value -> Value) (keysOf : Value -> list PropertyKeyValue)
        (descOf : Value -> string -> option Descriptor) (on_chain : Value -> Prop).
Hypothesis tables : forall v, on_chain v -> reads_tables realm proto keysOf descOf v.
Hypothesis closed : forall v, on_chain v -> proto v <> NullValue -> on_chain (proto v).

Lemma advance_tables e :
  on_chain (enum_obj e) ->
  advance (e, realm) =
  if bool_decide (length (keys e) <= index e) then
    match proto (enum_obj e) with
    | NullValue => (Normal (Some done_result), (e, realm))
    | p => (Normal None, (mkEnum (visited e) p (keysOf p) 0, realm))
    end
  else (Normal None, (e, realm)).
Proof using tables closed.
  intros Hon.
  unfold advance, bind, gets, lift, assign, modify, ret. cbn [fst snd].
  destruct (bool_decide (length (keys e) <= index e)); [|reflexivity].
  change (snd (e, realm)) with realm.
  rewrite (reads_proto _ _ _ _ _ (tables _ Hon)). cbn [fst snd].
  destruct (proto (enum_obj e)) eqn:Hp; try reflexivity.
  all: assert (Hnext : on_chain (proto (enum_obj e)))
         by (apply closed; [exact Hon|rewrite Hp; discriminate]).
  all: rewrite Hp in Hnext.
  all: cbv beta iota delta [fst snd]; rewrite (reads_keys _ _ _ _ _ (tables _ Hnext)); reflexivity.
Qed.

Lemma visit_tables e :
  on_chain (enum_obj e) ->
  keys e = keysOf (enum_obj e) ->
  visit (e, realm) =
  match keys e !! index e with
  | Some (PKStringValue key) =>
      if match descOf (enum_obj e) key with
         | Some d => negb (truthy (enumerable d))
         | None => false
         end
      then (Normal (Continued (omit_non_enumerable key)),
            (mkEnum ({[key]} ∪ visited e) (enum_obj e) (keys e) (index e + 1), realm))
      else if bool_decide (key ∈ visited e)
      then (Normal (Continued (omit_duplicate key)),
            (mkEnum (visited e) (enum_obj e) (keys e) (index e + 1), realm))
      else (Normal (Returned (yield key)),
            (mkEnum ({[key]} ∪ visited e) (enum_obj e) (keys e) (index e), realm))
  | _ => (Normal (Continued omit_symbol),
          (mkEnum (visited e) (enum_obj e) (keys e) (index e + 1), realm))
  end.
Proof using tables.
  intros Hon Hkeys.
  unfold visit, bind, gets, lift, assign, modify, ret. cbn [fst snd].
  destruct (keys e !! index e) as [[p|key|y]|] eqn:Hcursor; try reflexivity.
  assert (Hin : PKStringValue key ∈ keysOf (enum_obj e)).
  { rewrite <- Hkeys. apply list_elem_of_lookup. exists (index e). exact Hcursor. }
  change (snd (e, realm)) with realm.
  rewrite (reads_desc _ _ _ _ _ (tables _ Hon) key Hin). cbn [fst snd].
  destruct (descOf (enum_obj e) key) as [d|] eqn:Hd; cbn [fst snd].
  - destruct (negb (truthy (enumerable d))) eqn:Hhidden; cbn [fst snd].
    + unfold ThrowIfMightHaveBeenDeleted.
      apply negb_true_iff in Hhidden.
      pose proof (reads_certain _ _ _ _ _ (tables _ Hon) key d Hin Hd Hhidden) as Hcertain.
      destruct (value d) as [v|]; cbn [fst snd]; [|reflexivity].
      cbn in Hcertain. rewrite Hcertain. reflexivity.
    + destruct (bool_decide (key ∈ visited e)); reflexivity.
  - destruct (bool_decide (key ∈ visited e)); reflexivity.
Qed.

Lemma cursor_flag_le (e : Enumerator) :
  match keys e !! index e with
  | Some (PKStringValue key) => if bool_decide (key ∈ visited e) then 0 else 1
  | _ => 0
  end <= 1.
Proof. destruct (keys e !! index e) as [[p|key|y]|]; try case_bool_decide; lia. Qed.

(** On such a chain a turn does not raise and leaves the realm alone, and
    unless it reports the end it leaves fewer turns to take. *)
Lemma next_turn_tables e n :
  on_chain (enum_obj e) ->
  keys e = keysOf (enum_obj e) ->
  reaches_null proto (enum_obj e) n ->
  exists t e1,
    next_turn (e, realm) = (Normal t, (e1, realm)) /\
    (t = Returned done_result \/
     exists n1, on_chain (enum_obj e1) /\ keys e1 = keysOf (enum_obj e1) /\
       reaches_null proto (enum_obj e1) n1 /\
       turns_left proto keysOf n1 e1 < turns_left proto keysOf n e /\
       (t = Continued omit_symbol \/ (exists key, t = Continued (omit_non_enumerable key))
        \/ (exists key, t = Continued (omit_duplicate key)) \/ exists key, t = Returned (yield key))).
Proof using tables closed.
  intros Hon Hkeys Hchain. unfold next_turn, bind at 1. rewrite (advance_tables e Hon).
  destruct (bool_decide (length (keys e) <= index e)) eqn:Hend.
  - apply bool_decide_eq_true in Hend.
    assert (Hcursor : keys e !! index e = None) by (apply lookup_ge_None; exact Hend).
    inversion Hchain as [v Hnull Hv Hn|v n' Hnonnull Hchain' Hv Hn]; subst.
    { rewrite Hnull. eauto. }
    rename n' into n. rename Hchain' into Hchain1. clear Hchain.
    assert (Hon1 : on_chain (proto (enum_obj e))) by (apply closed; assumption).
    set (p := proto (enum_obj e)) in *.
    set (e2 := mkEnum (visited e) p (keysOf p) 0).
    assert (Hturn : exists t e1,
      visit (e2, realm) = (Normal t, (e1, realm)) /\
      on_chain (enum_obj e1) /\ keys e1 = keysOf (enum_obj e1) /\
      reaches_null proto (enum_obj e1) n /\
      turns_left proto keysOf n e1 < turns_left proto keysOf (S n) e /\
      (t = Continued omit_symbol \/ (exists key, t = Continued (omit_non_enumerable key))
        \/ (exists key, t = Continued (omit_duplicate key)) \/ exists key, t = Returned (yield key))).
    { rewrite (visit_tables e2 Hon1 eq_refl). unfold turns_left at 2. rewrite Hcursor.
      cbn [rest_cost]. fold p. unfold e2. cbn [keys index enum_obj visited].
      destruct (keysOf p !! 0) as [[q|key|y]|] eqn:Hc2.
      4: { eexists _, _. split; [reflexivity|]. cbn [enum_obj keys].
           split; [exact Hon1|]. split; [reflexivity|]. split; [exact Hchain1|].
           split; [|auto].
           apply lookup_ge_None in Hc2.
           unfold turns_left.
           match goal with |- context [keys ?e1 !! index ?e1] =>
             pose proof (cursor_flag_le e1) end.
           cbn [keys index enum_obj visited] in *. lia. }
      all: apply lookup_lt_Some in Hc2 as Hlt.
      2: { destruct (match descOf p key with
                     | Some d => negb (truthy (enumerable d)) | None => false end);
           [|destruct (bool_decide (key ∈ visited e)) eqn:Hv].
           all: eexists _, _; (split; [reflexivity|]); cbn [enum_obj keys];
             (split; [exact Hon1|]); (split; [reflexivity|]);
             (split; [exact Hchain1|]); (split; [|eauto 6]).
           all: unfold turns_left.
           1, 2: match goal with |- context [keys ?e1 !! index ?e1] =>
                   pose proof (cursor_flag_le e1) end.
           all: cbn [keys index enum_obj visited] in *; try lia.
           rewrite Hc2. rewrite bool_decide_eq_true_2 by set_solver. lia. }
      all: eexists _, _; (split; [reflexivity|]); cbn [enum_obj keys];
        (split; [exact Hon1|]); (split; [reflexivity|]);
        (split; [exact Hchain1|]); (split; [|auto]).
      all: unfold turns_left;
        match goal with |- context [keys ?e1 !! index ?e1] =>
          pose proof (cursor_flag_le e1) end;
        cbn [keys index enum_obj visited] in *; lia. }
    destruct Hturn as (t & e1 & Hvisit & Hon2 & Hkeys2 & Hchain2 & Hless & Ht).
    exists t, e1. split; [|right; exists n; auto].
    subst e2. clearbody p. destruct p; try congruence; exact Hvisit.
  - apply bool_decide_eq_false in Hend.
    assert (Hlt : index e < length (keys e)) by lia.
    rewrite (visit_tables e Hon Hkeys).
    destruct (keys e !! index e) as [[q|key|y]|] eqn:Hc.
    4: { apply lookup_ge_None in Hc. lia. }
    2: { destruct (match descOf (enum_obj e) key with
                   | Some d => negb (truthy (enumerable d)) | None => false end);
         [|destruct (bool_decide (key ∈ visited e)) eqn:Hv].
         all: eexists _, _; (split; [reflexivity|]); right; exists n; cbn [enum_obj keys];
           (split; [exact Hon|]); (split; [exact Hkeys|]);
           (split; [exact Hchain|]); (split; [|eauto 6]).
         all: unfold turns_left; rewrite Hc.
         1, 2: match goal with |- context [keys ?e1 !! index ?e1] =>
                 pose proof (cursor_flag_le e1) end.
         all: cbn [keys index enum_obj visited] in *; try (case_bool_decide; lia).
         rewrite Hc, Hv. rewrite bool_decide_eq_true_2 by set_solver. lia. }
    all: eexists _, _; (split; [reflexivity|]); right; exists n; cbn [enum_obj keys];
      (split; [exact Hon|]); (split; [exact Hkeys|]);
      (split; [exact Hchain|]); (split; [|auto]).
    all: unfold turns_left; rewrite Hc;
      match goal with |- context [keys ?e1 !! index ?e1] =>
        pose proof (cursor_flag_le e1) end;
      cbn [keys index enum_obj visited] in *; lia.
Qed.

(** On such a chain, with fuel for the turns left, a call of [next]
    returns: it reports the end or yields a key and leaves fewer turns to
    take. *)
Lemma next_tables fuel e n :
  on_chain (enum_obj e) ->
  keys e = keysOf (enum_obj e) ->
  reaches_null proto (enum_obj e) n ->
  turns_left proto keysOf n e < fuel ->
  exists res e1,
    next fuel (e, realm) = (Normal res, (e1, realm)) /\
    (res = done_result \/
     exists key n1, res = yield key /\
       on_chain (enum_obj e1) /\ keys e1 = keysOf (enum_obj e1) /\
       reaches_null proto (enum_obj e1) n1 /\
       turns_left proto keysOf n1 e1 < turns_left proto keysOf n e).
Proof using tables closed.
  revert e n. induction fuel as [|fuel IH]; intros e n Hon Hkeys Hchain Hfuel; [lia|].
  destruct (next_turn_tables e n Hon Hkeys Hchain) as (t & e1 & Hturn & Ht).
  cbn [next]. unfold bind at 1. rewrite Hturn.
  destruct Ht as [->|(n1 & Hon1 & Hkeys1 & Hchain1 & Hless & Ht)].
  { eexists _, _. split; [reflexivity|]. left. reflexivity. }
  assert (Hgo : exists res e2,
    next fuel (e1, realm) = (Normal res, (e2, realm)) /\
    (res = done_result \/
     exists key n2, res = yield key /\
       on_chain (enum_obj e2) /\ keys e2 = keysOf (enum_obj e2) /\
       reaches_null proto (enum_obj e2) n2 /\
       turns_left proto keysOf n2 e2 < turns_left proto keysOf n e)).
  { destruct (IH e1 n1 Hon1 Hkeys1 Hchain1) as (res & e2 & Hnext & Hres); [lia|].
    exists res, e2. split; [exact Hnext|].
    destruct Hres as [->|(key & n2 & -> & Hon2 & Hkeys2 & Hchain2 & Hless2)];
      [left; reflexivity|].
    right. exists key, n2. repeat (split; [assumption || reflexivity|]). lia. }
  destruct Ht as [->|[(key & ->)|[(key & ->)|(key & ->)]]]; try exact Hgo.
  eexists _, _. split; [reflexivity|]. right. exists key, n1. auto.
Qed.

(** On such a chain, one that reaches null, the calls of [next] come to an
    end: with fuel for the turns left they yield some keys and then report
    the end. *)
Lemma enumerates_tables fuel e n :
  on_chain (enum_obj e) ->
  keys e = keysOf (enum_obj e) ->
  reaches_null proto (enum_obj e) n ->
  turns_left proto keysOf n e < fuel ->
  exists ks, enumerates fuel e realm ks.
Proof using tables closed.
  remember (turns_left proto keysOf n e) as m eqn:Hm.
  revert e n Hm. induction m as [m IH] using lt_wf_ind. intros e n -> Hon Hkeys Hchain Hfuel.
  destruct (next_tables fuel e n Hon Hkeys Hchain Hfuel) as (res & e1 & Hnext & Hres).
  destruct Hres as [->|(key & n1 & -> & Hon1 & Hkeys1 & Hchain1 & Hless)].
  - exists []. eapply enumerates_done. exact Hnext.
  - destruct (IH _ Hless e1 n1 eq_refl Hon1 Hkeys1 Hchain1) as [ks Hks]; [lia|].
    exists (key :: ks). eapply enumerates_yield; [exact Hnext|exact Hks].
Qed.

End Tables.

(** Where the walk ends, the answers of the internal methods serve as
    tables. *)
Lemma walk_ends_tables realm v n :
  walk_ends realm v n ->
  reads_tables realm (proto_in realm) (keys_in realm) (desc_in realm) v.
Proof.
  intros Hwalk.
  assert (H : lists_keys realm v /\ exists p, dollar_GetPrototypeOf v realm = (Normal p, realm)).
  { destruct Hwalk; eauto. }
  destruct H as [(ks & Hks & Hdescs) (p & Hp)].
  assert (Hkeys : keys_in realm v = ks) by (unfold keys_in; rewrite Hks; reflexivity).
  split.
  - unfold proto_in. rewrite Hp. reflexivity.
  - rewrite Hkeys. exact Hks.
  - intros key Hin. rewrite Hkeys in Hin. destruct (Hdescs key Hin) as (d & Hd & _).
    unfold desc_in. rewrite Hd. reflexivity.
  - intros key d Hin Hdesc Hhidden. rewrite Hkeys in Hin.
    destruct (Hdescs key Hin) as (d' & Hd & Hcertain).
    apply Hcertain; [|exact Hhidden]. unfold desc_in in Hdesc. rewrite Hd in Hdesc. exact Hdesc.
Qed.

Lemma walk_ends_reaches_null realm v n :
  walk_ends realm v n -> reaches_null (proto_in realm) v n.
Proof.
  induction 1 as [v Hlists Hproto|v p n Hlists Hproto Hnonnull Hwalk IH].
  - apply reaches_null_here. unfold proto_in. rewrite Hproto. reflexivity.
  - assert (Hp : proto_in realm v = p) by (unfold proto_in; rewrite Hproto; reflexivity).
    apply reaches_null_next; rewrite Hp; assumption.
Qed.

Lemma walk_ends_closed realm v :
  (exists n, walk_ends realm v n) -> proto_in realm v <> NullValue ->
  exists n, walk_ends realm (proto_in realm v) n.
Proof.
  intros [n Hwalk] Hnonnull. destruct Hwalk as [v Hlists Hproto|v p n Hlists Hproto Hp Hwalk].
  - exfalso. apply Hnonnull. unfold proto_in. rewrite Hproto. reflexivity.
  - exists n. unfold proto_in. rewrite Hproto. exact Hwalk.
Qed.

(** Where the walk from [O] ends, EnumerateObjectProperties returns and
    the calls of [next] come to an end, with fuel for twice the keys and
    objects of the chain. *)
Lemma walk_ends_enumerates realm O n :
  walk_ends realm O n ->
  exists e fuel ks,
    EnumerateObjectProperties O realm = (Normal e, realm) /\
    enumerates fuel e realm ks.
Proof.
  intros Hwalk.
  set (e := mkEnum ∅ O (keys_in realm O) 0).
  set (fuel := S (turns_left (proto_in realm) (keys_in realm) n e)).
  destruct (enumerates_tables realm (proto_in realm) (keys_in realm) (desc_in realm)
              (fun v => exists m, walk_ends realm v m)
              (fun v Hv => let '(ex_intro _ m Hm) := Hv in walk_ends_tables realm v m Hm)
              (walk_ends_closed realm) fuel e n) as [ks Hks].
  - exists n. exact Hwalk.
  - reflexivity.
  - exact (walk_ends_reaches_null realm O n Hwalk).
  - unfold fuel. lia.
  - exists e, fuel, ks. split; [|exact Hks].
    unfold EnumerateObjectProperties, bind.
    rewrite (reads_keys _ _ _ _ _ (walk_ends_tables realm O n Hwalk)). reflexivity.
Qed.


End Enumeration_facts.



(** ** Failures are reported as false *)

Lemma generic_not_data D :
  IsGenericDescriptor (Some D) = true -> IsDataDescriptor (Some D) = false.
Proof.
  unfold IsGenericDescriptor. destruct (IsDataDescriptor (Some D)); [|reflexivity].
  rewrite andb_false_r. discriminate.
Qed.

Lemma ThrowIfMightHaveBeenDeleted_run v realm :
  ThrowIfMightHaveBeenDeleted v realm =
  (if mightHaveBeenDeleted (value_or_undefined v) then Fail IntrospectionError else Normal tt,
   realm).
Proof. destruct v as [[]|]; try reflexivity. simpl. destruct (abs_mightHaveBeenDeleted a); reflexivity. Qed.

Section Failure_reports.
Context {ext : Externals} {im : InternalMethods}.

(** A descriptor that differs from the current one has a field. *)
Lemma not_identical_has_fields Desc current :
  identical_fields (desc_keys Desc) Desc current true = false ->
  bool_decide (length (desc_keys Desc) = 0) = false.
Proof.
  intros Hident. apply bool_decide_eq_false. intros Hlen.
  destruct (desc_keys Desc); [discriminate Hident|discriminate Hlen].
Qed.

(** OrdinaryDefineOwnProperty on a property that is there, with a certain
    value, and from which [Desc] differs, is steps 5 to 11 of the
    validation; here up to step 5. *)
Lemma OrdinaryDefineOwnProperty_differs O P Desc realm current realm1 :
  dollar_GetOwnProperty (ObjectValue O) P realm = (Normal (Some current), realm1) ->
  mightHaveBeenDeleted (value_or_undefined (value current)) = false ->
  identical_fields (desc_keys Desc) Desc current true = false ->
  OrdinaryDefineOwnProperty O P Desc realm =
  ValidateAndApplyPropertyDescriptor (Some O) (Some P) (Extensible (obj realm1 O)) Desc
    (Some current) realm1.
Proof.
  intros Hown _ _. unfold OrdinaryDefineOwnProperty, bind at 1. rewrite Hown. reflexivity.
Qed.

(** The validation of a differing descriptor against a property that is
    not configurable: the rejections of steps 5, 7 and 8.a.i. *)
Lemma validation_rejects O P extensible Desc current realm :
  mightHaveBeenDeleted (value_or_undefined (value current)) = false ->
  identical_fields (desc_keys Desc) Desc current true = false ->
  truthy (configurable current) = false ->
  truthy (configurable Desc) = true \/
  (field_in f_enumerable Desc = true /\ enumerable Desc <> enumerable current) \/
  (IsGenericDescriptor (Some Desc) = false /\
   IsDataDescriptor (Some current) <> IsDataDescriptor (Some Desc)) \/
  (IsDataDescriptor (Some current) = true /\ IsDataDescriptor (Some Desc) = true /\
   truthy (writable current) = false /\ truthy (writable Desc) = true) ->
  ValidateAndApplyPropertyDescriptor (Some O) (Some P) extensible Desc (Some current) realm
  = (Normal false, realm).
Proof.
  intros Hcertain Hident Hconf Hcases.
  assert (Hkey : IsPropertyKey P = true) by (destruct P; reflexivity).
  unfold ValidateAndApplyPropertyDescriptor. cbv zeta.
  unfold bind at 1, invariant. rewrite Hkey. cbn [ret].
  unfold bind at 1. rewrite ThrowIfMightHaveBeenDeleted_run, Hcertain.
  rewrite (not_identical_has_fields Desc current Hident), Hident, Hconf.
  cbn [negb andb].
  destruct (truthy (configurable Desc)) eqn:Hdc; [reflexivity|].
  destruct (field_in f_enumerable Desc && negb (bool_decide (enumerable Desc = enumerable current)))
    eqn:Henum; [reflexivity|].
  destruct Hcases as [H5a|[[Hin Hne]|[[Hgen Hkind]|(Hc & Hd & Hw & Hdw)]]].
  - discriminate H5a.
  - rewrite Hin, bool_decide_eq_false_2 in Henum by exact Hne. discriminate Henum.
  - rewrite Hgen.
    destruct (IsDataDescriptor (Some current)), (IsDataDescriptor (Some Desc));
      try reflexivity; exfalso; apply Hkind; reflexivity.
  - assert (Hgen : IsGenericDescriptor (Some Desc) = false).
    { destruct (IsGenericDescriptor (Some Desc)) eqn:Hg; [|reflexivity].
      apply generic_not_data in Hg. congruence. }
    rewrite Hgen, Hc, Hd. cbn [Bool.eqb negb andb]. rewrite Hw, Hdw. reflexivity.
Qed.


(** The rejection of step 8.a.ii: the value of a property that is neither
    configurable nor writable is compared with the new one. *)
Lemma validation_rejects_value O P extensible Desc current realm v realm2 :
  mightHaveBeenDeleted (value_or_undefined (value current)) = false ->
  identical_fields (desc_keys Desc) Desc current true = false ->
  truthy (configurable current) = false ->
  IsDataDescriptor (Some current) = true ->
  IsDataDescriptor (Some Desc) = true ->
  truthy (writable current) = false ->
  value Desc = Some v ->
  SameValuePartial v (value_or_undefined (value current)) realm = (Normal false, realm2) ->
  exists realm',
    ValidateAndApplyPropertyDescriptor (Some O) (Some P) extensible Desc (Some current) realm
    = (Normal false, realm') /\ (realm' = realm \/ realm' = realm2).
Proof.
  intros Hcertain Hident Hconf Hc Hd Hw Hv Hsame.
  destruct (truthy (configurable Desc) ||
            field_in f_enumerable Desc && negb (bool_decide (enumerable Desc = enumerable current)) ||
            truthy (writable Desc)) eqn:Hearly.
  { exists realm. split; [|left; reflexivity].
    apply validation_rejects; try assumption.
    apply orb_true_iff in Hearly. destruct Hearly as [Hearly|Hdw]; [|auto 10].
    apply orb_true_iff in Hearly. destruct Hearly as [Hdc|Henum]; [auto|].
    apply andb_true_iff in Henum. destruct Henum as [Hin Hne].
    right. left. split; [exact Hin|].
    apply negb_true_iff, bool_decide_eq_false in Hne. exact Hne. }
  apply orb_false_iff in Hearly. destruct Hearly as [Hearly Hdw].
  apply orb_false_iff in Hearly. destruct Hearly as [Hdc Henum].
  exists realm2. split; [|right; reflexivity].
  assert (Hkey : IsPropertyKey P = true) by (destruct P; reflexivity).
  assert (Hgen : IsGenericDescriptor (Some Desc) = false).
  { destruct (IsGenericDescriptor (Some Desc)) eqn:Hg; [|reflexivity].
    apply generic_not_data in Hg. congruence. }
  unfold ValidateAndApplyPropertyDescriptor. cbv zeta.
  unfold bind at 1, invariant. rewrite Hkey. cbn [ret].
  unfold bind at 1. rewrite ThrowIfMightHaveBeenDeleted_run, Hcertain.
  rewrite (not_identical_has_fields Desc current Hident), Hident, Hconf, Hdc.
  cbn [negb andb]. rewrite Henum, Hgen, Hc, Hd. cbn [Bool.eqb negb andb].
  rewrite Hw, Hdw, Hv. cbn [negb andb]. unfold bind at 1. rewrite Hsame. reflexivity.
Qed.

(** The rejections of step 9.a: the setter, then the getter, of an
    accessor property that is not configurable is compared with the new
    one. *)
Lemma validation_rejects_accessor O P extensible Desc current realm realm1 realm2 :
  mightHaveBeenDeleted (value_or_undefined (value current)) = false ->
  identical_fields (desc_keys Desc) Desc current true = false ->
  truthy (configurable current) = false ->
  IsGenericDescriptor (Some Desc) = false ->
  IsDataDescriptor (Some current) = false ->
  IsDataDescriptor (Some Desc) = false ->
  (exists s, set Desc = Some s /\
     SameValuePartial s (value_or_undefined (set current)) realm = (Normal false, realm2)) \/
  ((set Desc = None /\ realm1 = realm \/
    exists s, set Desc = Some s /\
      SameValuePartial s (value_or_undefined (set current)) realm = (Normal true, realm1)) /\
   exists g, get Desc = Some g /\
     SameValuePartial g (value_or_undefined (get current)) realm1 = (Normal false, realm2)) ->
  exists realm',
    ValidateAndApplyPropertyDescriptor (Some O) (Some P) extensible Desc (Some current) realm
    = (Normal false, realm') /\ (realm' = realm \/ realm' = realm2).
Proof.
  intros Hcertain Hident Hconf Hgen Hc Hd Hcases.
  destruct (truthy (configurable Desc) ||
            field_in f_enumerable Desc && negb (bool_decide (enumerable Desc = enumerable current)))
    eqn:Hearly.
  { exists realm. split; [|left; reflexivity].
    apply validation_rejects; try assumption.
    apply orb_true_iff in Hearly. destruct Hearly as [Hdc|Henum]; [auto|].
    apply andb_true_iff in Henum. destruct Henum as [Hin Hne].
    right. left. split; [exact Hin|].
    apply negb_true_iff, bool_decide_eq_false in Hne. exact Hne. }
  apply orb_false_iff in Hearly. destruct Hearly as [Hdc Henum].
  exists realm2. split; [|right; reflexivity].
  assert (Hkey : IsPropertyKey P = true) by (destruct P; reflexivity).
  unfold ValidateAndApplyPropertyDescriptor. cbv zeta.
  unfold bind at 1, invariant. rewrite Hkey. cbn [ret].
  unfold bind at 1. rewrite ThrowIfMightHaveBeenDeleted_run, Hcertain.
  rewrite (not_identical_has_fields Desc current Hident), Hident, Hconf, Hdc.
  cbn [negb andb]. rewrite Henum, Hgen, Hc, Hd. cbn [Bool.eqb negb andb].
  destruct Hcases as [(s & Hs & Hsame)|[Hset (g & Hg & Hsame)]].
  - rewrite Hs. unfold bind at 1. rewrite Hsame. reflexivity.
  - destruct Hset as [[Hs ->]|(s & Hs & Hsame1)]; rewrite Hs, Hg.
    + unfold bind at 1. cbn [ret negb]. unfold bind at 1. rewrite Hsame. reflexivity.
    + unfold bind at 1. rewrite Hsame1. cbn [negb]. unfold bind at 1. rewrite Hsame.
      reflexivity.
Qed.


(** Runs steps 1 to 3 of OrdinarySet along the way they settle. *)
Ltac settle_set Hsettles :=
  unfold OrdinarySet, bind, invariant;
  match goal with |- context [IsPropertyKey ?P] =>
    replace (IsPropertyKey P) with true by (destruct P; reflexivity) end;
  cbn [ret];
  destruct Hsettles as [own r1 Hown Hcertain|r1 r2 Hown Hproto
                        |own r1 r2 Hown Hmaybe Hproto
                        |own r1 parent r2 r3 Hown Hmaybe Hproto Hconcrete Hnonnull Hpermits];
  rewrite Hown;
  [rewrite bool_decide_eq_true_2 by eauto; cbn [negb orb]; rewrite Hcertain
  |rewrite bool_decide_eq_false_2 by (intros [? ?]; discriminate); cbn [negb orb];
   rewrite Hproto; cbn [throwIfNotConcrete isConcrete ret]
  |rewrite bool_decide_eq_true_2 by eauto; cbn [negb orb]; rewrite Hmaybe, Hproto;
   cbn [throwIfNotConcrete isConcrete ret]
  |rewrite bool_decide_eq_true_2 by eauto; cbn [negb orb]; rewrite Hmaybe, Hproto;
   unfold throwIfNotConcrete at 1; rewrite Hconcrete; cbn [ret];
   destruct parent; try (exfalso; apply Hnonnull; reflexivity);
   rewrite Hpermits; cbn [negb]].

(** Step 4.b: a data property that can be written is not set on a
    receiver that is not an object. *)
Lemma OrdinarySet_no_receiver fuel O P V Receiver realm d realm1 :
  settles fuel O P realm d realm1 ->
  IsDataDescriptor (Some d) = true ->
  truthy (writable d) = true \/ mightHaveBeenDeleted V = true ->
  isConcrete Receiver = true ->
  (forall r, Receiver <> ObjectValue r) ->
  OrdinarySet fuel O P V Receiver realm = (Normal false, realm1).
Proof.
  intros Hsettles Hdata Hwritable Hrec Hnot.
  assert (Hgo : negb (truthy (writable d)) && negb (mightHaveBeenDeleted V) = false).
  { destruct Hwritable as [-> | ->]; [reflexivity|apply andb_false_r]. }
  settle_set Hsettles.
  all: rewrite Hdata, Hgo; unfold throwIfNotConcrete; rewrite Hrec; cbn [ret].
  all: destruct Receiver; try reflexivity; exfalso; eapply Hnot; reflexivity.
Qed.

(** Steps 4.d.i and 4.d.ii: a data property that can be written is not
    set on a receiver that holds an accessor, or a data property that is
    not writable, under the same key. *)
Lemma OrdinarySet_receiver_refuses fuel O P V R realm d realm1 existing realm2 :
  settles fuel O P realm d realm1 ->
  IsDataDescriptor (Some d) = true ->
  truthy (writable d) = true \/ mightHaveBeenDeleted V = true ->
  dollar_GetOwnProperty (ObjectValue R) P realm1 = (Normal (Some existing), realm2) ->
  mightHaveBeenDeleted (value_or_undefined (value existing)) = false ->
  IsAccessorDescriptor (Some existing) = true \/
  (truthy (writable existing) = false /\
   (mightHaveBeenDeleted V = false \/ truthy (configurable existing) = false)) ->
  OrdinarySet fuel O P V (ObjectValue R) realm = (Normal false, realm2).
Proof.
  intros Hsettles Hdata Hwritable Hexisting Hsure Hcases.
  assert (Hgo : negb (truthy (writable d)) && negb (mightHaveBeenDeleted V) = false).
  { destruct Hwritable as [-> | ->]; [reflexivity|apply andb_false_r]. }
  assert (Hstop : (if IsAccessorDescriptor (Some existing) then true
                   else negb (truthy (writable existing)) &&
                        negb (mightHaveBeenDeleted V && truthy (configurable existing))) = true).
  { destruct (IsAccessorDescriptor (Some existing)); [reflexivity|].
    destruct Hcases as [Hacc|[-> [-> | ->]]]; [discriminate Hacc|reflexivity|].
    rewrite andb_false_r. reflexivity. }
  settle_set Hsettles.
  all: rewrite Hdata, Hgo; cbn [throwIfNotConcrete isConcrete ret]; rewrite Hexisting;
    cbv zeta; rewrite Hsure; cbn [negb ret].
  all: destruct (IsAccessorDescriptor (Some existing)); [reflexivity|].
  all: rewrite Hstop; reflexivity.
Qed.

(** Step 7: an accessor property without a setter is not set. *)
Lemma OrdinarySet_no_setter fuel O P V Receiver realm d realm1 :
  settles fuel O P realm d realm1 ->
  IsDataDescriptor (Some d) = false ->
  IsAccessorDescriptor (Some d) = true ->
  set d = None \/ set d = Some UndefinedValue ->
  OrdinarySet fuel O P V Receiver realm = (Normal false, realm1).
Proof.
  intros Hsettles Hdata Hacc Hset.
  settle_set Hsettles.
  all: rewrite ?Hdata, ?Hacc; try discriminate Hdata; cbn [ret].
  all: destruct Hset as [-> | ->]; reflexivity.
Qed.


(** C7: the ordinary algorithms report a failure as the boolean false.
    OrdinaryDelete returns false for a property that is not configurable.
    OrdinaryDefineOwnProperty returns false at each of its rejections: a
    new property on an object that is not extensible; on a property that
    is not configurable and from which the descriptor differs, a
    descriptor that is configurable, that changes enumerable, that changes
    the kind of the property, that makes a non-writable property
    writable, that changes the value of a non-writable property, or that
    changes the setter or the getter.  OrdinarySet returns false at each
    of its failures: a data property that is not writable, a receiver that
    is not an object, a receiver that has an accessor or a non-writable
    data property under the key, an accessor without setter.
    DeletePropertyOrThrow and DefinePropertyOrThrow turn a false result of
    the internal method into a thrown TypeError, and so does Set when its
    Throw flag is true; every other result is passed on as it is. *)
Theorem failures_are_false_wrappers_throw :
  (forall O P realm desc realm1,
     dollar_GetOwnProperty (ObjectValue O) P realm = (Normal (Some desc), realm1) ->
     truthy (configurable desc) = false ->
     OrdinaryDelete O P realm = (Normal false, realm1)) /\
  (forall O P Desc realm realm1,
     dollar_GetOwnProperty (ObjectValue O) P realm = (Normal None, realm1) ->
     Extensible (obj realm1 O) = false ->
     OrdinaryDefineOwnProperty O P Desc realm = (Normal false, realm1)) /\
  (forall O P Desc realm current realm1,
     dollar_GetOwnProperty (ObjectValue O) P realm = (Normal (Some current), realm1) ->
     mightHaveBeenDeleted (value_or_undefined (value current)) = false ->
     identical_fields (desc_keys Desc) Desc current true = false ->
     truthy (configurable current) = false ->
     (truthy (configurable Desc) = true \/
      (field_in f_enumerable Desc = true /\ enumerable Desc <> enumerable current) \/
      (IsGenericDescriptor (Some Desc) = false /\
       IsDataDescriptor (Some current) <> IsDataDescriptor (Some Desc)) \/
      (IsDataDescriptor (Some current) = true /\ IsDataDescriptor (Some Desc) = true /\
       truthy (writable current) = false /\ truthy (writable Desc) = true) ->
      OrdinaryDefineOwnProperty O P Desc realm = (Normal false, realm1)) /\
     (forall v realm2,
        IsDataDescriptor (Some current) = true -> IsDataDescriptor (Some Desc) = true ->
        truthy (writable current) = false ->
        value Desc = Some v ->
        SameValuePartial v (value_or_undefined (value current)) realm1 = (Normal false, realm2) ->
        exists realm',
          OrdinaryDefineOwnProperty O P Desc realm = (Normal false, realm') /\
          (realm' = realm1 \/ realm' = realm2)) /\
     (forall realm2 realm3,
        IsGenericDescriptor (Some Desc) = false ->
        IsDataDescriptor (Some current) = false -> IsDataDescriptor (Some Desc) = false ->
        (exists s, set Desc = Some s /\
           SameValuePartial s (value_or_undefined (set current)) realm1 = (Normal false, realm3)) \/
        ((set Desc = None /\ realm2 = realm1 \/
          exists s, set Desc = Some s /\
            SameValuePartial s (value_or_undefined (set current)) realm1 = (Normal true, realm2)) /\
         exists g, get Desc = Some g /\
           SameValuePartial g (value_or_undefined (get current)) realm2 = (Normal false, realm3)) ->
        exists realm',
          OrdinaryDefineOwnProperty O P Desc realm = (Normal false, realm') /\
          (realm' = realm1 \/ realm' = realm3))) /\
  (forall fuel O P V Receiver realm desc realm1,
     dollar_GetOwnProperty (ObjectValue O) P realm = (Normal (Some desc), realm1) ->
     IsDataDescriptor (Some desc) = true ->
     truthy (writable desc) = false ->
     mightHaveBeenDeleted (value_or_undefined (value desc)) = false ->
     mightHaveBeenDeleted V = false ->
     OrdinarySet fuel O P V Receiver realm = (Normal false, realm1)) /\
  (forall fuel O P V realm d realm1,
     settles fuel O P realm d realm1 ->
     (IsDataDescriptor (Some d) = true ->
      truthy (writable d) = true \/ mightHaveBeenDeleted V = true ->
      (forall Receiver,
         isConcrete Receiver = true -> (forall r, Receiver <> ObjectValue r) ->
         OrdinarySet fuel O P V Receiver realm = (Normal false, realm1)) /\
      (forall R existing realm2,
         dollar_GetOwnProperty (ObjectValue R) P realm1 = (Normal (Some existing), realm2) ->
         mightHaveBeenDeleted (value_or_undefined (value existing)) = false ->
         IsAccessorDescriptor (Some existing) = true \/
         (truthy (writable existing) = false /\
          (mightHaveBeenDeleted V = false \/ truthy (configurable existing) = false)) ->
         OrdinarySet fuel O P V (ObjectValue R) realm = (Normal false, realm2))) /\
     (IsDataDescriptor (Some d) = false -> IsAccessorDescriptor (Some d) = true ->
      set d = None \/ set d = Some UndefinedValue ->
      forall Receiver, OrdinarySet fuel O P V Receiver realm = (Normal false, realm1))) /\
  (forall O P realm,
     DeletePropertyOrThrow O P realm =
     match dollar_Delete (ObjectValue O) P realm with
     | (Normal false, realm1) =>
         (Fail (Abrupt (ThrowCompletion TypeError (Some "couldn't delete property"))), realm1)
     | result => result
     end) /\
  (forall O P desc realm,
     DefinePropertyOrThrow (ObjectValue O) P desc realm =
     match dollar_DefineOwnProperty (ObjectValue O) P desc realm with
     | (Normal false, realm1) => (Fail (Abrupt (ThrowCompletion TypeError None)), realm1)
     | result => result
     end) /\
  (forall O P V Throw realm,
     Set_ (ObjectValue O) P V Throw realm =
     match dollar_Set (ObjectValue O) P V (ObjectValue O) realm with
     | (Normal false, realm1) =>
         if Throw then (Fail (Abrupt (ThrowCompletion TypeError None)), realm1)
         else (Normal false, realm1)
     | result => result
     end).
Proof.
  split; [|split; [|split; [|split; [|split; [|split; [|split]]]]]].
  - intros O P realm desc realm1 Hown Hconf.
    unfold OrdinaryDelete. run. destruct P; simpl; rewrite Hown, Hconf; reflexivity.
  - intros O P Desc realm realm1 Hown Hext.
    unfold OrdinaryDefineOwnProperty, bind at 1. rewrite Hown. run. rewrite Hext.
    destruct P; reflexivity.
  - intros O P Desc realm current realm1 Hown Hcertain Hident Hconf.
    rewrite (OrdinaryDefineOwnProperty_differs O P Desc realm current realm1 Hown Hcertain Hident).
    split; [|split].
    + intros Hcases. apply validation_rejects; assumption.
    + intros v realm2 Hc Hd Hw Hv Hsame.
      exact (validation_rejects_value O P _ Desc current realm1 v realm2
               Hcertain Hident Hconf Hc Hd Hw Hv Hsame).
    + intros realm2 realm3 Hgen Hc Hd Hcases.
      exact (validation_rejects_accessor O P _ Desc current realm1 realm2 realm3
               Hcertain Hident Hconf Hgen Hc Hd Hcases).
  - intros fuel O P V Receiver realm desc realm1 Hown Hdata Hwritable Hcertain HV.
    unfold OrdinarySet. unfold bind, invariant.
    destruct P; cbn [IsPropertyKey ret]; rewrite Hown;
      cbn [is_Some bool_decide]; rewrite Hcertain.
    all: cbn -[IsDataDescriptor truthy mightHaveBeenDeleted].
    all: rewrite Hdata, Hwritable, HV; reflexivity.
  - intros fuel O P V realm d realm1 Hsettles. split.
    + intros Hdata Hwritable. split.
      * intros Receiver Hconcrete Hnot.
        exact (OrdinarySet_no_receiver fuel O P V Receiver realm d realm1
                 Hsettles Hdata Hwritable Hconcrete Hnot).
      * intros R existing realm2 Hexisting Hsure Hcases.
        exact (OrdinarySet_receiver_refuses fuel O P V R realm d realm1 existing realm2
                 Hsettles Hdata Hwritable Hexisting Hsure Hcases).
    + intros Hdata Hacc Hset Receiver.
      exact (OrdinarySet_no_setter fuel O P V Receiver realm d realm1 Hsettles Hdata Hacc Hset).
  - intros O P realm. unfold DeletePropertyOrThrow. run.
    destruct P; simpl; destruct (dollar_Delete _ _ realm) as [[[]|f] realm1]; reflexivity.
  - intros O P desc realm. unfold DefinePropertyOrThrow. run.
    destruct P; simpl;
      destruct (dollar_DefineOwnProperty _ _ _ realm) as [[[]|f] realm1]; reflexivity.
  - intros O P V Throw realm. unfold Set_. run.
    destruct P; simpl; destruct (dollar_Set _ _ _ _ realm) as [[[]|f] realm1];
      destruct Throw; reflexivity.
Qed.

End Failure_reports.

(** On the sealed object 1, whose "a" holds 1 and is neither writable nor
    configurable: the delete is refused with false and
    DeletePropertyOrThrow throws; making "a" configurable, or giving it
    the value 2, is refused with false and DefinePropertyOrThrow throws;
    a set is refused with false, also on a receiver that is not an
    object. *)
Lemma failures_are_false_wrappers_throw_witness :
  let realm := realm_of [(1, object_with 1 NullValue
                               [("a", data (NumberValue (of_Z 1)) false true false);
                                ("b", data (NumberValue (of_Z 1)) true true true)])] in
  OrdinaryDelete (im := methods) 1 (PKstring "a") realm = (Normal false, realm) /\
  DeletePropertyOrThrow (im := methods) 1 (PKstring "a") realm
  = (Fail (Abrupt (ThrowCompletion TypeError (Some "couldn't delete property"))), realm) /\
  OrdinaryDefineOwnProperty (ext := externals) (im := methods) 1 (PKstring "a")
    (mkDesc None None None None None (Some true)) realm = (Normal false, realm) /\
  OrdinaryDefineOwnProperty (ext := externals) (im := methods) 1 (PKstring "a")
    (mkDesc (Some (NumberValue (of_Z 2))) None None None None None) realm
  = (Normal false, realm) /\
  DefinePropertyOrThrow (im := methods) (ObjectValue 1) (PKstring "a")
    (mkDesc None None None None None (Some true)) realm
  = (Fail (Abrupt (ThrowCompletion TypeError None)), realm) /\
  OrdinarySet (ext := externals) (im := methods) 1 1 (PKstring "a") NullValue (ObjectValue 1) realm
  = (Normal false, realm) /\
  OrdinarySet (ext := externals) (im := methods) 1 1 (PKstring "b") NullValue NullValue realm
  = (Normal false, realm).
Proof.
  cbv zeta.
  set (realm := realm_of [(1, object_with 1 NullValue
                                [("a", data (NumberValue (of_Z 1)) false true false);
                                 ("b", data (NumberValue (of_Z 1)) true true true)])]).
  pose proof (@failures_are_false_wrappers_throw externals methods)
    as (Hdelete & _ & Hdefine & Hset & Hsettled & Hdelete' & Hdefine' & _).
  split; [|split; [|split; [|split; [|split; [|split]]]]].
  - apply Hdelete with (desc := data (NumberValue (of_Z 1)) false true false); reflexivity.
  - rewrite Hdelete'. reflexivity.
  - apply (proj1 (Hdefine 1 (PKstring "a") (mkDesc None None None None None (Some true)) realm
                    (data (NumberValue (of_Z 1)) false true false) realm
                    eq_refl eq_refl eq_refl eq_refl)).
    left. reflexivity.
  - destruct (proj1 (proj2 (Hdefine 1 (PKstring "a")
                              (mkDesc (Some (NumberValue (of_Z 2))) None None None None None)
                              realm (data (NumberValue (of_Z 1)) false true false) realm
                              eq_refl eq_refl eq_refl eq_refl))
                (NumberValue (of_Z 2)) realm eq_refl eq_refl eq_refl eq_refl eq_refl)
      as (realm' & Hrun & [-> | ->]); exact Hrun.
  - rewrite Hdefine'. reflexivity.
  - apply Hset with (desc := data (NumberValue (of_Z 1)) false true false); reflexivity.
  - assert (Hsettles : settles (im := methods) 1 1 (PKstring "b") realm
                         (data (NumberValue (of_Z 1)) true true true) realm)
      by (apply settles_own; reflexivity).
    apply (proj1 (proj1 (Hsettled 1 1 (PKstring "b") NullValue realm _ realm Hsettles)
                        eq_refl (or_introl eq_refl))).
    + reflexivity.
    + intros r. discriminate.
Defined.


(** * The other functions *)

(** ** Descriptors *)

(** X1: CompletePropertyDescriptor.  The completed descriptor keeps every
    field that Desc had, always has the enumerable and configurable
    fields, is never generic, has both value and writable when it is a
    data descriptor and both get and set when it is not, and completing it
    again changes nothing. *)
Theorem CompletePropertyDescriptor_complete (Desc : Descriptor) :
  let D := CompletePropertyDescriptor Desc in
  (forall field, field_in field Desc = true -> field_get D field = field_get Desc field) /\
  field_in f_enumerable D = true /\ field_in f_configurable D = true /\
  IsGenericDescriptor (Some D) = false /\
  (if IsDataDescriptor (Some D)
   then field_in f_value D = true /\ field_in f_writable D = true
   else field_in f_get D = true /\ field_in f_set D = true) /\
  (IsDataDescriptor (Some D) = IsDataDescriptor (Some Desc) || IsGenericDescriptor (Some Desc)) /\
  CompletePropertyDescriptor D = D.
Proof.
  destruct Desc as [[v|] [w|] [g|] [s|] [e|] [c|]]; cbv zeta.
  all: repeat split; try reflexivity.
  all: intros [] Hin; try reflexivity; discriminate Hin.
Qed.


(** ** OrdinarySetPrototypeOf *)

Lemma SameValue_std_on_objects : SameValue_on_objects (ext := externals).
Proof.
  intros r r'. simpl. destruct (Nat.eqb_spec r r'); case_bool_decide; congruence.
Qed.

Section Prototype_facts.
Context {ext : Externals}.

(** Over a chain that ends in null the loop of step 8 finds out whether
    [O] is on the chain, and changes nothing. *)
Lemma OrdinarySetPrototypeOf_loop_chain fuel O p realm chain :
  SameValue_on_objects ->
  prototype_chain realm p chain ->
  length chain < fuel ->
  OrdinarySetPrototypeOf_loop fuel O p realm
  = (Normal (negb (bool_decide (O ∈ chain))), realm).
Proof.
  intros Hsame Hchain. revert fuel.
  induction Hchain as [|r rest Hrest IH]; intros [|fuel] Hfuel; simpl in Hfuel; try lia.
  - reflexivity.
  - cbn [OrdinarySetPrototypeOf_loop]. rewrite Hsame.
    destruct (decide (r = O)) as [->|Hr].
    + rewrite !bool_decide_eq_true_2 by set_solver. reflexivity.
    + rewrite (bool_decide_eq_false_2 (r = O)) by exact Hr.
      unfold bind, gets. rewrite IH by lia. do 3 f_equal.
      apply bool_decide_ext. set_solver.
Qed.

(** The loop only reads. *)
Lemma OrdinarySetPrototypeOf_loop_realm fuel O p realm out realm' :
  OrdinarySetPrototypeOf_loop fuel O p realm = (out, realm') -> realm' = realm.
Proof.
  revert p. induction fuel as [|fuel IH]; intros p Hrun; [injection Hrun as _ <-; reflexivity|].
  cbn [OrdinarySetPrototypeOf_loop] in Hrun.
  destruct p; try (destruct (SameValue _ _); injection Hrun as _ <-; reflexivity).
  - injection Hrun as _ <-. reflexivity.
  - destruct (SameValue _ _); [injection Hrun as _ <-; reflexivity|].
    unfold bind, gets in Hrun. apply IH in Hrun. exact Hrun.
Qed.

(** When the loop comes to its end, the chain ends in null and [O] is not
    on it. *)
Lemma OrdinarySetPrototypeOf_loop_done fuel O p realm realm' :
  SameValue_on_objects ->
  OrdinarySetPrototypeOf_loop fuel O p realm = (Normal true, realm') ->
  realm' = realm /\ exists chain, prototype_chain realm p chain /\ O ∉ chain.
Proof.
  intros Hsame. revert p.
  induction fuel as [|fuel IH]; intros p Hrun; [discriminate|].
  cbn [OrdinarySetPrototypeOf_loop] in Hrun.
  destruct p; try (destruct (SameValue _ _); discriminate Hrun).
  - injection Hrun as <-. split; [reflexivity|]. exists []. split; [constructor|set_solver].
  - rewrite Hsame in Hrun. case_bool_decide as Hr; [discriminate|].
    unfold bind, gets in Hrun. apply IH in Hrun. destruct Hrun as (-> & chain & Hchain & Hnot).
    split; [reflexivity|]. exists (r :: chain). split; [constructor; exact Hchain|set_solver].
Qed.

(** A chain that does not pass through [O] does not see the slots of [O]. *)
Lemma prototype_chain_frame realm p chain O o :
  prototype_chain realm p chain -> O ∉ chain ->
  prototype_chain (set_obj O o realm) p chain.
Proof.
  induction 1 as [|r rest Hrest IH]; intros Hnot; [constructor|].
  constructor. rewrite obj_set_obj. case_decide; [set_solver|]. apply IH. set_solver.
Qed.

(** X2: OrdinarySetPrototypeOf refuses exactly the prototypes that would
    close a cycle.  For an extensible object O whose prototype is not V
    already, and a chain from V that ends in null within the fuel, the call
    returns false and changes nothing when O is on the chain from V;
    otherwise it returns true and only the prototype slot of O changes, to
    V. *)
Theorem OrdinarySetPrototypeOf_refuses_cycles fuel O V realm chain :
  SameValue_on_objects ->
  prototype_chain realm V chain ->
  length chain < fuel ->
  SameValue V (Prototype (obj realm O)) = false ->
  Extensible (obj realm O) = true ->
  OrdinarySetPrototypeOf fuel O V realm =
    if bool_decide (O ∈ chain) then (Normal false, realm)
    else (Normal true, set_obj O (set_Prototype V (obj realm O)) realm).
Proof.
  intros Hsame Hchain Hfuel Hcurrent Hext.
  unfold OrdinarySetPrototypeOf, bind, invariant, gets.
  assert (HV : match V with ObjectValue _ | NullValue => true | _ => false end = true)
    by (destruct Hchain; reflexivity).
  rewrite HV. cbn [ret]. rewrite Hcurrent, Hext. cbn [negb].
  rewrite (OrdinarySetPrototypeOf_loop_chain fuel O V realm chain Hsame Hchain Hfuel).
  destruct (bool_decide (O ∈ chain)); reflexivity.
Qed.

(** X3: OrdinarySetPrototypeOf keeps the prototype chains finite.  When
    the call returns true, every chain that ended in null before the call
    ends in null after it; and when the call returns false the realm is
    the one before the call. *)
Theorem OrdinarySetPrototypeOf_chains_end fuel O V realm out realm' :
  SameValue_on_objects ->
  OrdinarySetPrototypeOf fuel O V realm = (Normal out, realm') ->
  (out = false -> realm' = realm) /\
  (out = true ->
   forall p chain, prototype_chain realm p chain ->
                   exists chain', prototype_chain realm' p chain').
Proof.
  intros Hsame Hrun. unfold OrdinarySetPrototypeOf, bind, invariant, gets in Hrun.
  destruct (match V with ObjectValue _ | NullValue => true | _ => false end);
    [|discriminate Hrun]. cbn [ret] in Hrun.
  destruct (SameValue V (Prototype (obj realm O))).
  { injection Hrun as <- <-. split; [discriminate|]. intros _ p chain Hp. eauto. }
  destruct (Extensible (obj realm O)); cbn [negb] in Hrun.
  2:{ injection Hrun as <- <-. split; [reflexivity|discriminate]. }
  destruct (OrdinarySetPrototypeOf_loop fuel O V realm) as [[[|]|f] realm1] eqn:Hloop;
    cbn [negb] in Hrun; [| |discriminate Hrun].
  - apply (OrdinarySetPrototypeOf_loop_done _ _ _ _ _ Hsame) in Hloop.
    destruct Hloop as (-> & chainV & HchainV & Hnot).
    unfold modify, ret in Hrun. injection Hrun as <- <-.
    split; [discriminate|]. intros _ p chain Hp.
    induction Hp as [|r rest Hrest IH]; [exists []; constructor|].
    destruct IH as [chain' Hchain'].
    destruct (decide (r = O)) as [->|Hr].
    + exists (O :: chainV). constructor. rewrite obj_set_obj. rewrite decide_True by reflexivity.
      cbn [set_Prototype Prototype]. apply prototype_chain_frame; assumption.
    + exists (r :: chain'). constructor. rewrite obj_set_obj.
      rewrite decide_False by congruence. exact Hchain'.
  - apply OrdinarySetPrototypeOf_loop_realm in Hloop. subst realm1.
    injection Hrun as <- <-. split; [reflexivity|discriminate].
Qed.

End Prototype_facts.


(** ** Reading, storing and deleting a property *)

Lemma map_set_keys {K V} `{EqDecision K} (k : K) (v : V) (m : list (K * V)) :
  map fst (map_set k v m) = map fst m ++ (if bool_decide (k ∈ map fst m) then [] else [k]).
Proof.
  induction m as [|[k0 v0] m IH]; simpl.
  - reflexivity.
  - destruct (decide (k = k0)) as [->|Hne]; simpl.
    + rewrite bool_decide_eq_true_2 by set_solver. rewrite app_nil_r. reflexivity.
    + rewrite IH. cbn [app]. do 2 f_equal.
      rewrite (bool_decide_ext (k ∈ k0 :: map fst m) (k ∈ map fst m)) by set_solver.
      reflexivity.
Qed.

Lemma map_get_keys {K V} `{EqDecision K} (k : K) (m : list (K * V)) :
  k ∈ map fst m <-> is_Some (map_get k m).
Proof.
  induction m as [|[k0 v0] m IH]; simpl.
  - split; [set_solver|]. intros [? ?]. discriminate.
  - destruct (decide (k = k0)) as [->|Hne]; [split; [eauto|set_solver]|].
    rewrite <- IH. set_solver.
Qed.

Section Store_facts.
Context {ext : Externals} {im : InternalMethods}.

(** X4: OrdinaryGetOwnProperty.  A key with no binding reads as undefined,
    unless the object is partial and not simple, when the lookup fails
    with IntrospectionError; a binding whose descriptor was deleted reads
    as undefined; both leave the realm as it is, and so does every lookup
    on an object that is not partial.  A descriptor that is returned comes
    from the stored one, with its enumerable, configurable and writable
    fields, its get and set fields when it is an accessor and, on an
    object that is not partial, its value; it is either a data descriptor
    without get and set or an accessor descriptor without value and
    writable. *)
Theorem OrdinaryGetOwnProperty_reads O P realm out realm' :
  OrdinaryGetOwnProperty O P realm = (out, realm') ->
  let key := InternalGetPropertiesKey P in
  (isPartial (obj realm O) = false -> realm' = realm) /\
  (binding_get (obj realm O) key = None ->
   realm' = realm /\
   out = if isPartial (obj realm O) && negb (isSimple (obj realm O))
         then Fail IntrospectionError else Normal None) /\
  (is_Some (binding_get (obj realm O) key) -> own_descriptor realm O key = None ->
   realm' = realm /\ out = Normal None) /\
  (forall D, out = Normal (Some D) ->
   exists X, own_descriptor realm O key = Some X /\
     enumerable D = enumerable X /\ configurable D = configurable X /\
     writable D = (if IsDataDescriptor (Some X) then writable X else None) /\
     (isPartial (obj realm O) = false -> value D = if IsDataDescriptor (Some X) then value X else None) /\
     get D = (if IsDataDescriptor (Some X) then None else get X) /\
     set D = (if IsDataDescriptor (Some X) then None else set X) /\
     IsDataDescriptor (Some D) = IsDataDescriptor (Some X) /\
     IsAccessorDescriptor (Some D) = negb (IsDataDescriptor (Some X))).
Proof.
  intros Hrun key. subst key.
  assert (Hkey : IsPropertyKey P = true) by (destruct P; reflexivity).
  unfold OrdinaryGetOwnProperty, bind, invariant, gets in Hrun. rewrite Hkey in Hrun.
  cbn [ret] in Hrun. unfold own_descriptor.
  assert (Hshape : forall X v, IsDataDescriptor (Some X) = true ->
            (v = value X \/ is_Some v) ->
            IsDataDescriptor (Some (mkDesc v (writable X) None None (enumerable X) (configurable X))) = true).
  { intros X v HdX Hv. unfold IsDataDescriptor, field_in, field_get in *. simpl in *.
    destruct Hv as [->|[v' ->]]; [|reflexivity].
    destruct (value X), (writable X); try reflexivity. discriminate HdX. }
  destruct (binding_get (obj realm O) (InternalGetPropertiesKey P)) as [b|] eqn:Hb.
  - destruct (descriptor b) as [X|] eqn:HX.
    + assert (Hdone : forall v realm1,
                IsDataDescriptor (Some X) = true ->
                (v = value X \/ is_Some v) ->
                (isPartial (obj realm O) = false -> v = value X /\ realm1 = realm) ->
                (out, realm') = (Normal (Some (mkDesc v (writable X) None None (enumerable X) (configurable X))), realm1) ->
                (isPartial (obj realm O) = false -> realm' = realm) /\
                (Some b = None -> realm' = realm /\
                   out = if isPartial (obj realm O) && negb (isSimple (obj realm O))
                         then Fail IntrospectionError else Normal None) /\
                (is_Some (Some b) -> Some X = None -> realm' = realm /\ out = Normal None) /\
                (forall D, out = Normal (Some D) ->
                 exists X0, Some X = Some X0 /\
                   enumerable D = enumerable X0 /\ configurable D = configurable X0 /\
                   writable D = (if IsDataDescriptor (Some X0) then writable X0 else None) /\
                   (isPartial (obj realm O) = false ->
                    value D = if IsDataDescriptor (Some X0) then value X0 else None) /\
                   get D = (if IsDataDescriptor (Some X0) then None else get X0) /\
                   set D = (if IsDataDescriptor (Some X0) then None else set X0) /\
                   IsDataDescriptor (Some D) = IsDataDescriptor (Some X0) /\
                   IsAccessorDescriptor (Some D) = negb (IsDataDescriptor (Some X0)))).
      { intros v realm1 Hdata Hv Hpartial [= -> ->].
        split; [intros Hp; apply Hpartial; exact Hp|].
        split; [discriminate|]. split; [discriminate|].
        intros D [= <-]. exists X. rewrite Hdata. cbn [enumerable configurable writable value get set].
        split; [reflexivity|]. split; [reflexivity|]. split; [reflexivity|]. split; [reflexivity|].
        split; [intros Hp; apply Hpartial; exact Hp|].
        split; [reflexivity|]. split; [reflexivity|].
        split; [apply Hshape; assumption|reflexivity]. }
      destruct (IsDataDescriptor (Some X)) eqn:Hdata.
      * destruct (value X) as [v|] eqn:Hv.
        -- destruct v as [| | | | | | | |a];
             try (cbv beta iota delta [ret] in Hrun; symmetry in Hrun; apply Hdone in Hrun;
                  [exact Hrun|reflexivity|right; eauto
                  |intros _; split; [first [reflexivity|symmetry; exact Hv]|reflexivity]]).
           destruct (isPartial (obj realm O)) eqn:Hpartial; cbn [andb] in Hrun.
           ++ destruct (negb (abs_resolved a)).
              ** destruct (generator realm); cbn [is_Some bool_decide ret] in Hrun.
                 --- rewrite bool_decide_eq_true_2 in Hrun by eauto. cbn [ret] in Hrun.
                     destruct (derive a realm) as [[v'|f] realm1].
                     +++ destruct (InternalSetProperty_descriptor O P
                           (mkDesc (Some v')
                              (Some (match writable X with Some w => w | None => false end)) None None
                              (Some (match enumerable X with Some e => e | None => false end))
                              (Some (match configurable X with Some c => c | None => false end))) realm1)
                           as (realm2 & Hset & _).
                         rewrite Hset in Hrun. cbv beta iota delta [ret] in Hrun; symmetry in Hrun; apply Hdone in Hrun;
                           [exact Hrun|reflexivity|right; eauto|discriminate].
                     +++ injection Hrun as <- <-.
                         split; [discriminate|]. split; [discriminate|].
                         split; [discriminate|]. discriminate.
                 --- rewrite bool_decide_eq_false_2 in Hrun by (intros [? ?]; discriminate).
                     injection Hrun as <- <-.
                     split; [discriminate|]. split; [discriminate|].
                     split; [discriminate|]. discriminate.
              ** cbv beta iota delta [ret] in Hrun; symmetry in Hrun; apply Hdone in Hrun;
                   [exact Hrun|reflexivity|right; eauto|discriminate].
           ++ cbv beta iota delta [ret] in Hrun; symmetry in Hrun; apply Hdone in Hrun;
                [exact Hrun|reflexivity|right; eauto
                |intros _; split; [first [reflexivity|symmetry; exact Hv]|reflexivity]].
        -- cbv beta iota delta [ret] in Hrun; symmetry in Hrun; apply Hdone in Hrun;
             [exact Hrun|reflexivity|left; reflexivity
             |intros _; split; reflexivity].
      * destruct (IsAccessorDescriptor (Some X)) eqn:Hacc; cbn [ret] in Hrun;
          injection Hrun as <- <-.
        -- split; [reflexivity|]. split; [discriminate|]. split; [discriminate|].
           intros D [= <-]. exists X. rewrite Hdata.
           cbn [enumerable configurable writable value get set].
           repeat (split; [first [reflexivity|intros _; reflexivity]|]).
           unfold IsAccessorDescriptor, field_in, field_get in *. simpl in *. exact Hacc.
        -- split; [reflexivity|]. split; [discriminate|]. split; [discriminate|].
           discriminate.
    + injection Hrun as <- <-.
      split; [reflexivity|]. split; [discriminate|]. split; [intros _ _; split; reflexivity|].
      discriminate.
  - destruct (isPartial (obj realm O) && negb (isSimple (obj realm O)));
      injection Hrun as <- <-.
    all: split; [reflexivity|]; split; [intros _; split; reflexivity|];
      split; [intros [? ?]; discriminate|]; discriminate.
Qed.

End Store_facts.


Section Binding_facts.
Context {ext : Externals} {im : InternalMethods}.

Lemma recordModifiedProperty_run O k realm :
  exists realm', recordModifiedProperty O k realm = (Normal tt, realm') /\
    heap realm' = heap realm /\ generator realm' = generator realm /\
    (O, k) ∈ modifiedProperties realm' /\
    (forall x, x ∈ modifiedProperties realm -> x ∈ modifiedProperties realm').
Proof.
  unfold recordModifiedProperty, modify. eexists. split; [reflexivity|].
  case_bool_decide; simpl; repeat split; try assumption; try set_solver.
Qed.

Lemma set_descriptor_run O k d realm :
  set_descriptor O k d realm
  = (Normal tt, set_obj O (binding_set k (mkBinding d O k) (obj realm O)) realm).
Proof. reflexivity. Qed.

(** The keys of the string-keyed property map, in creation order. *)
Lemma binding_set_keys k b o :
  map fst (properties (binding_set k b o)) =
  map fst (properties o) ++
  match k with
  | StrKey s => if bool_decide (s ∈ map fst (properties o)) then [] else [s]
  | SymKey _ => []
  end.
Proof.
  destruct k as [s|y]; simpl; [apply map_set_keys|rewrite app_nil_r; reflexivity].
Qed.

Lemma binding_set_slots k b o :
  Prototype (binding_set k b o) = Prototype o /\
  Extensible (binding_set k b o) = Extensible o /\
  isPartial (binding_set k b o) = isPartial o /\
  isSimple (binding_set k b o) = isSimple o /\
  isIntrinsic (binding_set k b o) = isIntrinsic o /\
  StringData (binding_set k b o) = StringData o.
Proof. destruct k; repeat split. Qed.

(** X5: InternalSetProperty.  The call never fails; afterwards the binding
    of P in O holds the descriptor, no other binding has changed, the
    binding is in the modified set, which has lost nothing, and the keys of
    the property map are in the order of their creation: a key that was
    there keeps its place, a new key goes to the end. *)
Theorem InternalSetProperty_stores O P desc realm :
  let key := InternalGetPropertiesKey P in
  exists realm', InternalSetProperty O P desc realm = (Normal tt, realm') /\
    own_descriptor realm' O key = Some desc /\
    (forall O' k', (O, key) <> (O', k') ->
                   own_descriptor realm' O' k' = own_descriptor realm O' k') /\
    (O, key) ∈ modifiedProperties realm' /\
    (forall x, x ∈ modifiedProperties realm -> x ∈ modifiedProperties realm') /\
    map fst (properties (obj realm' O)) =
      map fst (properties (obj realm O)) ++
      match key with
      | StrKey s => if bool_decide (s ∈ map fst (properties (obj realm O))) then [] else [s]
      | SymKey _ => []
      end.
Proof.
  intros key. subst key. set (key := InternalGetPropertiesKey P).
  destruct (InternalSetProperty_descriptor O P desc realm) as (realm' & Hrun & Hdesc).
  exists realm'. split; [exact Hrun|].
  split; [rewrite Hdesc, decide_True by reflexivity; reflexivity|].
  split; [intros O' k' Hne; rewrite Hdesc, decide_False by exact Hne; reflexivity|].
  revert Hrun. unfold InternalSetProperty, bind, gets. fold key.
  destruct (binding_get (obj realm O) key) as [b|] eqn:Hb; cbn [ret].
  - destruct (recordModifiedProperty_run O key realm) as (realm1 & -> & Hheap & _ & Hin & Hmono).
    rewrite set_descriptor_run. intros [= <-].
    split; [exact Hin|]. split; [exact Hmono|].
    rewrite obj_set_obj, decide_True by reflexivity. rewrite binding_set_keys.
    assert (Hobj : obj realm1 O = obj realm O) by (unfold obj; rewrite Hheap; reflexivity).
    rewrite Hobj.
    destruct key as [s|y]; [|reflexivity].
    simpl in Hb. rewrite !bool_decide_eq_true_2 by (apply map_get_keys; eauto).
    reflexivity.
  - rewrite set_descriptor_run.
    match goal with |- context [recordModifiedProperty O key ?r] =>
      destruct (recordModifiedProperty_run O key r) as (realm1 & -> & Hheap & _ & Hin & Hmono)
    end.
    rewrite set_descriptor_run. intros [= <-].
    split; [exact Hin|]. split; [intros x Hx; apply Hmono; exact Hx|].
    rewrite obj_set_obj, decide_True by reflexivity. rewrite binding_set_keys.
    match type of Hheap with _ = heap ?r =>
      assert (Hobj : obj realm1 O = obj r O) by (unfold obj; rewrite Hheap; reflexivity)
    end.
    rewrite Hobj, obj_set_obj, decide_True by reflexivity. rewrite binding_set_keys.
    destruct key as [s|y]; [|rewrite !app_nil_r; reflexivity].
    simpl in Hb.
    assert (Hnot : s ∉ map fst (properties (obj realm O))).
    { intros Hin'. apply map_get_keys in Hin'. rewrite Hb in Hin'. destruct Hin'; discriminate. }
    rewrite (bool_decide_eq_false_2 _ Hnot).
    rewrite bool_decide_eq_true_2 by set_solver. rewrite app_nil_r. reflexivity.
Qed.

(** The generator hook leaves the heap and the modified set alone. *)
Lemma InternalUpdatedProperty_modified O P realm :
  exists realm', InternalUpdatedProperty O P realm = (Normal tt, realm') /\
                 heap realm' = heap realm /\
                 modifiedProperties realm' = modifiedProperties realm.
Proof.
  unfold InternalUpdatedProperty, emit. run.
  destruct (isIntrinsic (obj realm O)); simpl; [|eauto].
  destruct (generator realm) as [log|] eqn:Hgen; simpl; [|eauto].
  destruct P as [P|P|y]; simpl; [| |eauto].
  all: destruct (own_descriptor realm O (StrKey P)) as [desc|]; simpl.
  all: repeat first
       [ rewrite Hgen
       | match goal with
         | |- context [match ?x with _ => _ end] => destruct x eqn:?; simpl
         end ]; eauto.
Qed.

(** X6: InternalUpdatedProperty only talks to the generator.  The call
    never fails and leaves the heap and the modified set as they are.  It
    leaves the whole realm as it is when the object is not intrinsic, when
    the realm has no generator, or when the key is a symbol.  Otherwise it
    appends one entry to the log of the generator; for a property that was
    deleted the entry is a global delete on the global object and a
    property delete on any other object. *)
Theorem InternalUpdatedProperty_logs O P realm :
  exists realm', InternalUpdatedProperty O P realm = (Normal tt, realm') /\
    heap realm' = heap realm /\
    modifiedProperties realm' = modifiedProperties realm /\
    (isIntrinsic (obj realm O) = false \/ generator realm = None \/
     (exists y, P = PKSymbolValue y) -> realm' = realm) /\
    (forall log name,
       isIntrinsic (obj realm O) = true -> generator realm = Some log ->
       P = PKstring name \/ P = PKStringValue name ->
       exists entry, generator realm' = Some (log ++ [entry]) /\
         (own_descriptor realm O (StrKey name) = None ->
          entry = if bool_decide (O = GlobalObject realm) then emitGlobalDelete name
                  else emitPropertyDelete O name)).
Proof.
  unfold InternalUpdatedProperty, emit. run.
  destruct (isIntrinsic (obj realm O)) eqn:Hint; simpl.
  2:{ eexists. split; [reflexivity|]. repeat split; try reflexivity. discriminate. }
  destruct (generator realm) as [log|] eqn:Hgen; simpl.
  2:{ eexists. split; [reflexivity|]. repeat split; try reflexivity. discriminate. }
  destruct P as [name|name|y]; simpl.
  3:{ eexists. split; [reflexivity|]. repeat split; try reflexivity.
      intros log' name _ _ [H|H]; discriminate H. }
  all: destruct (own_descriptor realm O (StrKey name)) as [desc|] eqn:Hdesc; simpl.
  all: repeat first
       [ rewrite Hgen
       | match goal with
         | |- context [match ?x with _ => _ end] => destruct x eqn:?; simpl
         end ].
  all: eexists; (split; [reflexivity|]); simpl.
  all: split; [reflexivity|]; split; [reflexivity|].
  all: split; [intros [H|[H|[y H]]]; discriminate H|].
  all: intros log' name' _ [= <-] [[= <-]|[= <-]]; eexists; (split; [reflexivity|]).
  all: try discriminate; try (intros _; reflexivity); congruence.
Qed.

End Binding_facts.


Section Delete_facts.
Context {ext : Externals} {im : InternalMethods}.

(** X7: OrdinaryDelete.  A property that the object does not have is
    deleted with no effect: the result is true.  A configurable property
    whose binding is in the property map is deleted: the result is true,
    the binding stays in the map with no descriptor, so that the keys of
    the map keep their order, no other binding changes, the binding is in
    the modified set, and OrdinaryGetOwnProperty then answers undefined
    for the key. *)
Theorem OrdinaryDelete_removes O P realm :
  let key := InternalGetPropertiesKey P in
  (forall realm1,
     dollar_GetOwnProperty (ObjectValue O) P realm = (Normal None, realm1) ->
     OrdinaryDelete O P realm = (Normal true, realm1)) /\
  (forall d realm1,
     dollar_GetOwnProperty (ObjectValue O) P realm = (Normal (Some d), realm1) ->
     truthy (configurable d) = true ->
     is_Some (binding_get (obj realm1 O) key) ->
     exists realm',
       OrdinaryDelete O P realm = (Normal true, realm') /\
       own_descriptor realm' O key = None /\
       (forall O' k', (O, key) <> (O', k') ->
                      own_descriptor realm' O' k' = own_descriptor realm1 O' k') /\
       (O, key) ∈ modifiedProperties realm' /\
       map fst (properties (obj realm' O)) = map fst (properties (obj realm1 O)) /\
       OrdinaryGetOwnProperty O P realm' = (Normal None, realm')).
Proof.
  intros key. subst key. set (key := InternalGetPropertiesKey P).
  assert (Hkey : IsPropertyKey P = true) by (destruct P; reflexivity).
  split.
  - intros realm1 Hown. unfold OrdinaryDelete, bind, invariant. rewrite Hkey. cbn [ret].
    rewrite Hown. reflexivity.
  - intros d realm1 Hown Hconf Hbinding.
    destruct (recordModifiedProperty_run O key realm1) as (realm2 & Hrec & Hheap2 & _ & Hin & _).
    assert (Hobj : obj realm2 O = obj realm1 O) by (unfold obj; rewrite Hheap2; reflexivity).
    set (realm3 := set_obj O (binding_set key (mkBinding None O key) (obj realm2 O)) realm2).
    destruct (InternalUpdatedProperty_modified O P realm3) as (realm4 & Hupd & Hheap4 & Hmod4).
    assert (Hbinding4 : binding_get (obj realm4 O) key = Some (mkBinding None O key)).
    { unfold obj. rewrite Hheap4. fold (obj realm3 O). unfold realm3.
      rewrite obj_set_obj, decide_True by reflexivity.
      rewrite binding_get_set, decide_True by reflexivity. reflexivity. }
    exists realm4. split.
    { unfold OrdinaryDelete, bind, invariant, gets. rewrite Hkey. cbn [ret].
      rewrite Hown, Hconf. fold key. rewrite bool_decide_eq_true_2 by exact Hbinding.
      cbn [ret]. rewrite Hrec, set_descriptor_run. fold realm3. rewrite Hupd. reflexivity. }
    split.
    { unfold own_descriptor. rewrite Hbinding4. reflexivity. }
    split.
    { intros O' k' Hne. rewrite (own_descriptor_heap realm3 realm4 O' k' Hheap4).
      unfold realm3. rewrite own_descriptor_set, decide_False by exact Hne.
      apply own_descriptor_heap. exact Hheap2. }
    split.
    { rewrite Hmod4. exact Hin. }
    split.
    { assert (Hobj4 : obj realm4 O = obj realm3 O) by (unfold obj; rewrite Hheap4; reflexivity).
      rewrite Hobj4. unfold realm3. rewrite obj_set_obj, decide_True by reflexivity.
      rewrite binding_set_keys, Hobj.
      destruct key as [s|y]; [|apply app_nil_r].
      rewrite bool_decide_eq_true_2 by (apply map_get_keys; exact Hbinding). apply app_nil_r. }
    unfold OrdinaryGetOwnProperty, bind, invariant, gets. rewrite Hkey. cbn [ret].
    fold key. rewrite Hbinding4. reflexivity.
Qed.

End Delete_facts.


(** ** ValidateAndApplyPropertyDescriptor on a property that exists *)

Lemma SameValuePartial_std_reads : SameValuePartial_reads (ext := externals).
Proof. intros x y realm. simpl. destruct (isConcrete x && isConcrete y); reflexivity. Qed.

Lemma field_get_copy f g Desc property :
  field_get (field_copy f Desc property) g =
  if bool_decide (f = g) then field_get Desc g else field_get property g.
Proof. destruct f, g; reflexivity. Qed.

(** The fields of [Desc] overwrite those of the property, which keeps its
    other fields. *)
Lemma field_get_copy_fields Desc property g :
  field_get (copy_fields Desc property) g =
  if field_in g Desc then field_get Desc g else field_get property g.
Proof.
  unfold copy_fields.
  assert (Hgen : forall fields property,
            field_get (fold_left (fun property field => field_copy field Desc property)
                                 fields property) g =
            if bool_decide (g ∈ fields) then field_get Desc g else field_get property g).
  { induction fields as [|f fields IH]; intros property'; simpl; [reflexivity|].
    rewrite IH, field_get_copy.
    destruct (decide (f = g)) as [->|Hne].
    - rewrite (bool_decide_eq_true_2 (g = g)) by reflexivity.
      rewrite (bool_decide_eq_true_2 (g ∈ g :: fields)) by set_solver.
      destruct (bool_decide (g ∈ fields)); reflexivity.
    - rewrite (bool_decide_eq_false_2 (f = g)) by exact Hne.
      rewrite (bool_decide_ext (g ∈ f :: fields) (g ∈ fields)) by set_solver. reflexivity. }
  rewrite Hgen. unfold desc_keys.
  destruct (field_in g Desc) eqn:Hin.
  - rewrite bool_decide_eq_true_2; [reflexivity|].
    apply list_elem_of_filter. split; [exact Hin|]. destruct g; set_solver.
  - rewrite bool_decide_eq_false_2; [reflexivity|].
    rewrite list_elem_of_filter. intros [H _]. congruence.
Qed.

Lemma copy_fields_eq Desc property :
  copy_fields Desc property =
  mkDesc (match value Desc with Some v => Some v | None => value property end)
         (match writable Desc with Some w => Some w | None => writable property end)
         (match get Desc with Some g => Some g | None => get property end)
         (match set Desc with Some s => Some s | None => set property end)
         (match enumerable Desc with Some e => Some e | None => enumerable property end)
         (match configurable Desc with Some c => Some c | None => configurable property end).
Proof.
  destruct Desc as [[v|] [w|] [g|] [s|] [e|] [c|]], property as [v' w' g' s' e' c'];
    reflexivity.
Qed.

Lemma IsDataDescriptor_copy_fields Desc property :
  IsDataDescriptor (Some (copy_fields Desc property))
  = IsDataDescriptor (Some Desc) || IsDataDescriptor (Some property).
Proof.
  rewrite copy_fields_eq. unfold IsDataDescriptor, field_in, field_get. simpl.
  destruct (value Desc), (writable Desc), (value property), (writable property); reflexivity.
Qed.

Section Apply_facts.
Context {ext : Externals} {im : InternalMethods}.

(** Step 10 on a property that has a stored descriptor. *)
Lemma apply_run O P Desc current realm stored :
  own_descriptor realm O (InternalGetPropertiesKey P) = Some stored ->
  exists realm',
    ((propertyBinding <- gets (fun realm => binding_get (obj realm O) (InternalGetPropertiesKey P)) ;;
      property <-
        (match propertyBinding with
         | None =>
             recordModifiedProperty O (InternalGetPropertiesKey P) ;;;
             set_descriptor O (InternalGetPropertiesKey P) (Some current) ;;;
             ret current
         | Some b =>
             match descriptor b with
             | None =>
                 recordModifiedProperty O (InternalGetPropertiesKey P) ;;;
                 set_descriptor O (InternalGetPropertiesKey P) (Some current) ;;;
                 ret current
             | Some property =>
                 recordModifiedProperty O (InternalGetPropertiesKey P) ;;;
                 ret property
             end
         end) ;;
      set_descriptor O (InternalGetPropertiesKey P) (Some (copy_fields Desc property)) ;;;
      InternalUpdatedProperty O P) ;;;
     ret true) realm = (Normal true, realm') /\
    own_descriptor realm' O (InternalGetPropertiesKey P) = Some (copy_fields Desc stored) /\
    (forall O' k', (O, (InternalGetPropertiesKey P)) <> (O', k') ->
                   own_descriptor realm' O' k' = own_descriptor realm O' k') /\
    (O, (InternalGetPropertiesKey P)) ∈ modifiedProperties realm'.
Proof.
  set (key := InternalGetPropertiesKey P) in *.
  intros Hstored. unfold own_descriptor in Hstored.
  destruct (binding_get (obj realm O) key) as [b|] eqn:Hb; [|discriminate].
  destruct (recordModifiedProperty_run O key realm) as (realm1 & Hrec & Hheap1 & _ & Hin & _).
  set (realm2 := set_obj O (binding_set key (mkBinding (Some (copy_fields Desc stored)) O key)
                                        (obj realm1 O)) realm1).
  destruct (InternalUpdatedProperty_modified O P realm2) as (realm3 & Hupd & Hheap3 & Hmod3).
  exists realm3. split.
  { unfold bind, gets. rewrite Hb, Hstored. rewrite Hrec. cbn [ret].
    rewrite set_descriptor_run. fold realm2. rewrite Hupd. reflexivity. }
  split.
  { rewrite (own_descriptor_heap realm2 realm3 _ _ Hheap3). unfold realm2.
    rewrite own_descriptor_set, decide_True by reflexivity. reflexivity. }
  split.
  { intros O' k' Hne. rewrite (own_descriptor_heap realm2 realm3 _ _ Hheap3). unfold realm2.
    rewrite own_descriptor_set, decide_False by exact Hne.
    apply own_descriptor_heap. exact Hheap1. }
  rewrite Hmod3. exact Hin.
Qed.

(** Step 7 on a property that has a stored descriptor: the descriptor is
    rewritten in place. *)
Lemma convert_run (f : Descriptor -> Descriptor) O P realm stored
    :
  own_descriptor realm O (InternalGetPropertiesKey P) = Some stored ->
  exists realm',
    (propertyBinding <- gets (fun realm => binding_get (obj realm O) (InternalGetPropertiesKey P)) ;;
     match propertyBinding with
     | None => invariant false "propertyBinding !== undefined"
     | Some b =>
         match descriptor b with
         | Some desc => set_descriptor O (InternalGetPropertiesKey P) (Some (f desc))
         | None => ret tt
         end
     end) realm = (Normal tt, realm') /\
    own_descriptor realm' O (InternalGetPropertiesKey P) = Some (f stored) /\
    (forall O' k', (O, (InternalGetPropertiesKey P)) <> (O', k') ->
                   own_descriptor realm' O' k' = own_descriptor realm O' k').
Proof.
  set (key := InternalGetPropertiesKey P) in *.
  intros Hstored. unfold own_descriptor in Hstored.
  destruct (binding_get (obj realm O) key) as [b|] eqn:Hb; [|discriminate].
  eexists. split.
  { unfold bind, gets. rewrite Hb, Hstored. rewrite set_descriptor_run. reflexivity. }
  split.
  - rewrite own_descriptor_set, decide_True by reflexivity. reflexivity.
  - intros O' k' Hne. rewrite own_descriptor_set, decide_False by exact Hne. reflexivity.
Qed.

(** Code that ends in [return true] does not return false. *)
Lemma returns_true_not_false {A} (m : M A) realm realm' :
  (m ;;; ret true) realm <> (Normal false, realm').
Proof. unfold bind. destruct (m realm) as [[a|f] r]; discriminate. Qed.

Lemma then_returns_true_not_false {A B} (m : M A) (k : M B) realm realm' :
  (m ;;; k ;;; ret true) realm <> (Normal false, realm').
Proof.
  unfold bind at 1. destruct (m realm) as [[a|f] r]; [|discriminate].
  apply returns_true_not_false.
Qed.

(** SameValuePartial, when it only compares. *)
Lemma SameValuePartial_run x y realm :
  SameValuePartial_reads ->
  exists out, SameValuePartial x y realm = (out, realm).
Proof.
  intros Hreads. specialize (Hreads x y realm).
  destruct (SameValuePartial x y realm) as [out r]. simpl in Hreads. subst r. eauto.
Qed.

(** Splits a run of steps 3 to 9 along the tests it makes, down to the
    places where it returns or goes on to step 10. *)
Ltac validate_split Hrun Hreads :=
  repeat match type of Hrun with
  | (if ?c then _ else _) _ = _ => let E := fresh "Hc" in destruct c eqn:E
  | (match ?c with Some _ => _ | None => _ end) _ = _ =>
      let E := fresh "Hc" in destruct c eqn:E
  | bind (SameValuePartial ?x ?y) _ ?r = _ =>
      let out := fresh "same" in
      let E := fresh "Hsame" in
      destruct (SameValuePartial_run x y r Hreads) as [out E];
      unfold bind at 1 in Hrun; rewrite E in Hrun; destruct out as [[]|?];
      cbn [negb] in Hrun
  | bind (ret true) _ _ = _ => unfold bind at 1 in Hrun; cbn [ret negb] in Hrun
  | bind (match ?c with Some _ => _ | None => _ end) _ _ = _ =>
      let E := fresh "Hc" in destruct c eqn:E
  end.

(** X8: a definition that is rejected changes nothing, and testing for
    compatibility changes nothing.  When SameValuePartial only compares,
    a call of ValidateAndApplyPropertyDescriptor that returns false leaves
    the realm as it is, whatever the object, the key and the descriptors;
    and IsCompatiblePropertyDescriptor leaves the realm as it is whatever
    it answers. *)
Theorem rejected_definition_changes_nothing extensible Desc current realm :
  SameValuePartial_reads ->
  (forall O P realm',
     ValidateAndApplyPropertyDescriptor O P extensible Desc current realm
       = (Normal false, realm') -> realm' = realm) /\
  (forall out realm',
     IsCompatiblePropertyDescriptor extensible Desc current realm = (out, realm') ->
     realm' = realm).
Proof.
  intros Hreads. split.
  - intros O P realm' Hrun.
    unfold ValidateAndApplyPropertyDescriptor in Hrun. cbv zeta in Hrun.
    unfold bind at 1 in Hrun.
    destruct (match O, P with
              | Some _, None => invariant false "P !== undefined"
              | Some _, Some P => invariant (IsPropertyKey P) "IsPropertyKey(realm, P)"
              | None, _ => ret tt
              end realm) as [[[]|f] realm0] eqn:Hassert; [|discriminate Hrun].
    assert (realm0 = realm) as ->.
    { destruct O as [O|], P as [P|]; try (injection Hassert as <-; reflexivity);
        try discriminate Hassert.
      unfold invariant in Hassert. destruct (IsPropertyKey P); [|discriminate].
      injection Hassert as <-. reflexivity. }
    clear Hassert.
    destruct current as [current|].
    + unfold bind at 1 in Hrun. rewrite ThrowIfMightHaveBeenDeleted_run in Hrun.
      destruct (mightHaveBeenDeleted (value_or_undefined (value current)));
        [discriminate Hrun|].
      validate_split Hrun Hreads.
      all: try (injection Hrun as <-; reflexivity).
      all: try discriminate Hrun.
      all: try (exfalso; revert Hrun; apply returns_true_not_false).
      all: try (exfalso; revert Hrun; apply then_returns_true_not_false).
    + destruct extensible; cbn [negb] in Hrun; [|injection Hrun as <-; reflexivity].
      exfalso; revert Hrun; apply returns_true_not_false.
  - intros out realm' Hrun.
    unfold IsCompatiblePropertyDescriptor, ValidateAndApplyPropertyDescriptor in Hrun.
    cbv zeta in Hrun. unfold bind at 1 in Hrun. cbn [ret] in Hrun.
    destruct current as [current|].
    + unfold bind at 1 in Hrun. rewrite ThrowIfMightHaveBeenDeleted_run in Hrun.
      destruct (mightHaveBeenDeleted (value_or_undefined (value current)));
        [injection Hrun as _ <-; reflexivity|].
      validate_split Hrun Hreads.
      all: try (injection Hrun as _ <-; reflexivity).
    + destruct extensible; cbn [negb] in Hrun; [|injection Hrun as _ <-; reflexivity].
      destruct (IsGenericDescriptor (Some Desc) || IsDataDescriptor (Some Desc));
        injection Hrun as _ <-; reflexivity.
Qed.

(** Runs step 10, or steps 7 and 10, at a leaf of the split. *)
Ltac run_apply Hrun Hstored Desc current :=
  let realm2 := fresh "realm2" in
  let Happly := fresh "Happly" in
  let Hnew := fresh "Hnew" in
  let Hframe := fresh "Hframe" in
  let Hmod := fresh "Hmod" in
  lazymatch type of Hrun with
  | bind _ (fun _ => ret true) ?r = _ =>
      destruct (apply_run _ _ Desc current r _ Hstored)
        as (realm2 & Happly & Hnew & Hframe & Hmod);
      rewrite Happly in Hrun; injection Hrun as <-
  | bind _ _ ?r = _ =>
      let realm1 := fresh "realm1" in
      let Hconv := fresh "Hconv" in
      let Hnew1 := fresh "Hnew1" in
      let Hframe1 := fresh "Hframe1" in
      unfold bind at 1 in Hrun;
      first
        [ destruct (convert_run
                      (fun desc => mkDesc None None (Some UndefinedValue) (Some UndefinedValue)
                                          (enumerable desc) (configurable desc))
                      _ _ r _ Hstored)
            as (realm1 & Hconv & Hnew1 & Hframe1);
          cbv beta in Hconv, Hnew1; rewrite Hconv in Hrun
        | destruct (convert_run
                      (fun desc => mkDesc (Some UndefinedValue) (Some false) None None
                                          (enumerable desc) (configurable desc))
                      _ _ r _ Hstored)
            as (realm1 & Hconv & Hnew1 & Hframe1);
          cbv beta in Hconv, Hnew1; rewrite Hconv in Hrun ];
      destruct (apply_run _ _ Desc current realm1 _ Hnew1)
        as (realm2 & Happly & Hnew & Hframe & Hmod);
      rewrite Happly in Hrun; injection Hrun as <-
  end.

(** Settles the tests that a leaf of the split has recorded. *)
Ltac settle_tests Desc current :=
  let Hgeneric := fresh "Hgeneric" in
  pose proof (generic_not_data Desc) as Hgeneric;
  destruct (IsGenericDescriptor (Some Desc)) eqn:?,
           (IsDataDescriptor (Some Desc)) eqn:?,
           (IsDataDescriptor (Some current)) eqn:?;
  cbn [negb andb orb eqb Bool.eqb] in *; try congruence; try discriminate;
  try reflexivity; try (specialize (Hgeneric eq_refl); discriminate Hgeneric).

(** X10: a definition that is accepted is stored.  On a property whose
    stored descriptor is current, when ValidateAndApplyPropertyDescriptor
    returns true, either Desc has no field or only fields identical to
    those of current, and the realm is as it was; or the binding of P in O
    holds a descriptor with every field of Desc, with the enumerable and
    configurable fields of current where Desc has none, with every other
    field of current too unless the property changed its kind, and of the
    kind of Desc unless Desc is generic; no other binding has changed and
    the binding is in the modified set. *)
Theorem accepted_definition_is_stored O P extensible Desc current realm realm' :
  SameValuePartial_reads ->
  own_descriptor realm O (InternalGetPropertiesKey P) = Some current ->
  ValidateAndApplyPropertyDescriptor (Some O) (Some P) extensible Desc (Some current) realm
    = (Normal true, realm') ->
  (realm' = realm /\
   (length (desc_keys Desc) = 0 \/
    identical_fields (desc_keys Desc) Desc current true = true)) \/
  (exists stored,
     own_descriptor realm' O (InternalGetPropertiesKey P) = Some stored /\
     (forall f, field_in f Desc = true -> field_get stored f = field_get Desc f) /\
     (forall f, field_in f Desc = false -> f = f_enumerable \/ f = f_configurable ->
                field_get stored f = field_get current f) /\
     (IsGenericDescriptor (Some Desc) = true \/
      IsDataDescriptor (Some Desc) = IsDataDescriptor (Some current) ->
      forall f, field_in f Desc = false -> field_get stored f = field_get current f) /\
     (IsGenericDescriptor (Some Desc) = false ->
      IsDataDescriptor (Some stored) = IsDataDescriptor (Some Desc)) /\
     (forall O' k', (O, InternalGetPropertiesKey P) <> (O', k') ->
                    own_descriptor realm' O' k' = own_descriptor realm O' k') /\
     (O, InternalGetPropertiesKey P) ∈ modifiedProperties realm').
Proof.
  intros Hreads Hstored Hrun.
  assert (Hkey : IsPropertyKey P = true) by (destruct P; reflexivity).
  unfold ValidateAndApplyPropertyDescriptor in Hrun. cbv zeta in Hrun.
  rewrite Hkey in Hrun. unfold bind at 1, invariant at 1 in Hrun. cbn [ret] in Hrun.
  unfold bind at 1 in Hrun. rewrite ThrowIfMightHaveBeenDeleted_run in Hrun.
  destruct (mightHaveBeenDeleted (value_or_undefined (value current))); [discriminate Hrun|].
  validate_split Hrun Hreads.
  all: try discriminate Hrun.
  1: { injection Hrun as <-. left. split; [reflexivity|]. left.
       apply bool_decide_eq_true in Hc. exact Hc. }
  1: { injection Hrun as <-. left. split; [reflexivity|]. right. reflexivity. }
  all: run_apply Hrun Hstored Desc current; clear Happly; try clear Hconv.
  all: right; eexists; split; [exact Hnew|].
  all: split; [intros f Hin; rewrite field_get_copy_fields, Hin; reflexivity|].
  all: split; [intros f Hin [-> | ->]; rewrite field_get_copy_fields, Hin; reflexivity|].
  all: split; [intros Hkind f Hin; rewrite field_get_copy_fields, Hin;
               first [reflexivity | exfalso; destruct Hkind; settle_tests Desc current]|].
  all: split; [intros Hgeneric; rewrite IsDataDescriptor_copy_fields; settle_tests Desc current|].
  all: split; [|exact Hmod].
  all: first [exact Hframe | intros O' k' Hne; rewrite Hframe, Hframe1 by exact Hne; reflexivity].
Qed.

(** X9: a property that is not configurable keeps its attributes.  On a
    property whose stored descriptor is current and is not configurable,
    when ValidateAndApplyPropertyDescriptor returns true the property is
    still not configurable, has the enumerable field and the kind it had,
    and, if it is a data property that is not writable, is still not
    writable and has the value it had or a value that SameValuePartial
    finds the same; if it is an accessor property, each of its get and set
    is the one it had or one that SameValuePartial finds the same. *)
Theorem nonconfigurable_property_stays O P extensible Desc current realm realm' :
  SameValuePartial_reads ->
  own_descriptor realm O (InternalGetPropertiesKey P) = Some current ->
  truthy (configurable current) = false ->
  ValidateAndApplyPropertyDescriptor (Some O) (Some P) extensible Desc (Some current) realm
    = (Normal true, realm') ->
  exists stored,
    own_descriptor realm' O (InternalGetPropertiesKey P) = Some stored /\
    truthy (configurable stored) = false /\
    enumerable stored = enumerable current /\
    IsDataDescriptor (Some stored) = IsDataDescriptor (Some current) /\
    (IsDataDescriptor (Some current) = true -> truthy (writable current) = false ->
     truthy (writable stored) = false /\
     (value stored = value current \/
      exists v, value stored = Some v /\
        SameValuePartial v (value_or_undefined (value current)) realm = (Normal true, realm))) /\
    (IsDataDescriptor (Some current) = false ->
     (get stored = get current \/
      exists g, get stored = Some g /\
        SameValuePartial g (value_or_undefined (get current)) realm = (Normal true, realm)) /\
     (set stored = set current \/
      exists s, set stored = Some s /\
        SameValuePartial s (value_or_undefined (set current)) realm = (Normal true, realm))).
Proof.
  intros Hreads Hstored Hconf Hrun.
  assert (Hkey : IsPropertyKey P = true) by (destruct P; reflexivity).
  unfold ValidateAndApplyPropertyDescriptor in Hrun. cbv zeta in Hrun.
  rewrite Hkey, Hconf in Hrun. unfold bind at 1, invariant at 1 in Hrun. cbn [ret negb andb] in Hrun.
  unfold bind at 1 in Hrun. rewrite ThrowIfMightHaveBeenDeleted_run in Hrun.
  destruct (mightHaveBeenDeleted (value_or_undefined (value current))); [discriminate Hrun|].
  validate_split Hrun Hreads.
  all: try discriminate Hrun.
  1,2: injection Hrun as <-; exists current; split; [exact Hstored|];
    split; [exact Hconf|]; split; [reflexivity|]; split; [reflexivity|];
    split; [intros _ Hw; split; [exact Hw|left; reflexivity]|];
    intros _; split; left; reflexivity.
  all: run_apply Hrun Hstored Desc current; clear Happly; try clear Hconv.
  all: eexists; split; [exact Hnew|].
  all: split; [rewrite copy_fields_eq; cbn [configurable];
               destruct (configurable Desc) as [[]|]; simpl in *; congruence|].
  all: split; [rewrite copy_fields_eq; cbn [enumerable];
               destruct (enumerable Desc) as [e|] eqn:He; [|reflexivity];
               unfold field_in, field_get in *; rewrite He in *; simpl in *;
               match goal with H : negb (bool_decide _) = false |- _ =>
                 apply negb_false_iff, bool_decide_eq_true in H; exact H end|].
  all: split; [rewrite IsDataDescriptor_copy_fields; settle_tests Desc current|].
  all: clear Hnew Hframe Hmod Hstored Hkey; try clear Hframe1 Hnew1.
  all: rewrite copy_fields_eq; cbn [writable value get set].
  all: destruct (IsDataDescriptor (Some current)) eqn:Hkind.
  all: clear Hkind.
  all: unfold IsGenericDescriptor, IsDataDescriptor, IsAccessorDescriptor, field_in, field_get in *.
  all: destruct (value Desc) as [dv|] eqn:Hdv, (writable Desc) as [[]|] eqn:Hdw,
         (get Desc) as [dg|] eqn:Hdg, (set Desc) as [ds|] eqn:Hds;
       simpl in *; simplify_eq; try discriminate.
  all: (split; [intros Hd Hw; try discriminate Hd | intros Hd; try discriminate Hd]).
  all: try (rewrite Hw in *; cbn [negb andb] in *; discriminate).
  all: try (split; first [reflexivity | congruence | left; reflexivity | right; eauto]).
Qed.

End Apply_facts.


(** ** Setting a property *)

Section Set_more.
Context {ext : Externals} {im : InternalMethods}.




End Set_more.


(** ** ArraySetLength before its loop *)

Section Length_facts.
Context {ext : Externals} {im : InternalMethods}.

(** On an object that is not partial, a data property is read as it is
    stored. *)
Lemma OrdinaryGetOwnProperty_data O P realm X :
  isPartial (obj realm O) = false ->
  own_descriptor realm O (InternalGetPropertiesKey P) = Some X ->
  IsDataDescriptor (Some X) = true ->
  OrdinaryGetOwnProperty O P realm =
  (Normal (Some (mkDesc (value X) (writable X) None None (enumerable X) (configurable X))), realm).
Proof.
  intros Hpartial Hstored Hdata.
  assert (Hkey : IsPropertyKey P = true) by (destruct P; reflexivity).
  unfold own_descriptor in Hstored.
  destruct (binding_get (obj realm O) (InternalGetPropertiesKey P)) as [b|] eqn:Hb;
    [|discriminate].
  unfold OrdinaryGetOwnProperty, bind, invariant, gets. rewrite Hkey. cbn [ret].
  rewrite Hb, Hstored, Hdata, Hpartial. cbn [andb].
  destruct (value X) as [[]|]; reflexivity.
Qed.

(** X14: ArraySetLength before it deletes anything.  Without a value in
    Desc the call is OrdinaryDefineOwnProperty of "length".  A value whose
    ToUint32 differs from its ToNumber raises a RangeError and nothing has
    been defined.  Otherwise, on an array that is not partial and whose
    length is a data property holding a number: a new length that is not
    below the old one is defined by OrdinaryDefineOwnProperty, with the
    value converted to the number, and no element is deleted; a new length
    below the old one is refused with false, the realm unchanged, when the
    length is not writable. *)
Theorem ArraySetLength_guards A Desc realm :
  (value Desc = None ->
   ArraySetLength A Desc realm = OrdinaryDefineOwnProperty A (PKstring "length") Desc realm) /\
  (forall v newLen realm1 numberLen realm2,
     value Desc = Some v ->
     ToUint32 v realm = (Normal newLen, realm1) ->
     ToNumber v realm1 = (Normal numberLen, realm2) ->
     (num_eq (of_Z newLen) numberLen = false ->
      ArraySetLength A Desc realm =
      (Fail (Abrupt (ThrowCompletion RangeError (Some "should be a uint"))), realm2)) /\
     (num_eq (of_Z newLen) numberLen = true ->
      forall X oldLen,
        isPartial (obj realm2 A) = false ->
        own_descriptor realm2 A (StrKey "length") = Some X ->
        IsDataDescriptor (Some X) = true ->
        value X = Some (NumberValue oldLen) ->
        (num_le oldLen (of_Z newLen) = true ->
         ArraySetLength A Desc realm =
         OrdinaryDefineOwnProperty A (PKstring "length")
           (with_value (NumberValue (of_Z newLen)) Desc) realm2) /\
        (num_le oldLen (of_Z newLen) = false -> truthy (writable X) = false ->
         ArraySetLength A Desc realm = (Normal false, realm2)))).
Proof.
  split.
  - intros Hvalue. unfold ArraySetLength. rewrite Hvalue. reflexivity.
  - intros v newLen realm1 numberLen realm2 Hvalue Huint Hnumber. split.
    + intros Hne. unfold ArraySetLength. rewrite Hvalue. unfold bind.
      rewrite Huint, Hnumber, Hne. reflexivity.
    + intros Heq X oldLen Hpartial Hstored Hdata HX.
      pose proof (OrdinaryGetOwnProperty_data A (PKstring "length") realm2 X
                    Hpartial Hstored Hdata) as Hget.
      split.
      * intros Hle. unfold ArraySetLength. rewrite Hvalue. unfold bind at 1 2.
        rewrite Huint, Hnumber, Heq. cbn [negb]. unfold bind at 1. rewrite Hget.
        unfold bind at 1, invariant at 1.
        rewrite bool_decide_eq_true_2 by eauto.
        cbn [IsAccessorDescriptor field_in field_get get set fmap option_fmap option_map negb andb ret].
        unfold bind at 1. cbn [mbind option_bind value]. rewrite HX.
        unfold bind at 1. cbn [throwIfNotConcrete isConcrete ret]. rewrite Hle. reflexivity.
      * intros Hlt Hwritable. unfold ArraySetLength. rewrite Hvalue. unfold bind at 1 2.
        rewrite Huint, Hnumber, Heq. cbn [negb]. unfold bind at 1. rewrite Hget.
        unfold bind at 1, invariant at 1.
        rewrite bool_decide_eq_true_2 by eauto.
        cbn [IsAccessorDescriptor field_in field_get get set fmap option_fmap option_map negb andb ret].
        unfold bind at 1. cbn [mbind option_bind value]. rewrite HX.
        unfold bind at 1. cbn [throwIfNotConcrete isConcrete ret]. rewrite Hlt.
        cbn [mbind option_bind writable]. rewrite Hwritable. reflexivity.
Qed.

End Length_facts.

(** ** IsInteger *)

(** X15: IsInteger is true exactly of negative zero and of the finite
    numbers that are equal to an integer. *)
Theorem IsInteger_integral (n : number) :
  IsInteger n = true <->
  n = NegZero \/ exists q z, n = Fin q /\ (q == inject_Z z)%Q.
Proof.
  split.
  - destruct n as [|neg| |q]; try discriminate; [left; reflexivity|].
    intros Hint. right. exists q. unfold IsInteger in Hint.
    destruct (Qeq_bool (inject_Z (Qfloor (Qabs q))) (Qabs q)) eqn:Heq; [|discriminate].
    apply Qeq_bool_eq in Heq.
    destruct (Qlt_le_dec q 0) as [Hneg|Hpos].
    + exists (- Qfloor (Qabs q))%Z. split; [reflexivity|].
      rewrite inject_Z_opp, Heq. rewrite Qabs_neg by (apply Qlt_le_weak; exact Hneg).
      symmetry. apply Qopp_involutive.
    + exists (Qfloor (Qabs q)). split; [reflexivity|].
      rewrite Heq. symmetry. apply Qabs_pos. exact Hpos.
  - intros [->|(q & z & -> & Hq)]; [reflexivity|].
    unfold IsInteger.
    assert (Habs : (Qabs q == inject_Z (Z.abs z))%Q).
    { rewrite Hq. reflexivity. }
    rewrite (Qfloor_comp _ _ Habs), Qfloor_Z.
    rewrite (Qeq_eq_bool (inject_Z (Z.abs z)) (Qabs q)); [reflexivity|].
    symmetry. exact Habs.
Qed.


(** ** Calls *)

Section Call_more.
Context {ext : Externals} {im : InternalMethods}.

(** IsCallable of an object only reads its slots. *)
Lemma IsCallable_object r realm :
  IsCallable (ObjectValue r) realm
  = (Normal (isFunctionValue (obj realm r) || hasCall (obj realm r)), realm).
Proof.
  unfold IsCallable, bind, gets.
  destruct (isFunctionValue (obj realm r)); [reflexivity|].
  destruct (hasCall (obj realm r)); reflexivity.
Qed.

(** X16: Call.  A value that IsCallable finds not callable makes Call
    throw a TypeError, and no [$Call] method is run; in particular every
    concrete value that is not an object, and every object that is no
    function and has no [$Call] method.  On an object with a [$Call]
    method, Call is that method applied to the this value and the
    arguments. *)
Theorem Call_callable_or_TypeError V argsList realm :
  (forall F realm1,
     IsCallable F realm = (Normal false, realm1) ->
     Call F V argsList realm
     = (Fail (Abrupt (ThrowCompletion TypeError (Some "not callable"))), realm1)) /\
  (forall F, isConcrete F = true -> (forall r, F <> ObjectValue r) ->
     Call F V argsList realm
     = (Fail (Abrupt (ThrowCompletion TypeError (Some "not callable"))), realm)) /\
  (forall r, isFunctionValue (obj realm r) = false -> hasCall (obj realm r) = false ->
     Call (ObjectValue r) V argsList realm
     = (Fail (Abrupt (ThrowCompletion TypeError (Some "not callable"))), realm)) /\
  (forall r, hasCall (obj realm r) = true ->
     Call (ObjectValue r) V argsList realm = dollar_Call (ObjectValue r) V argsList realm).
Proof.
  split; [|split; [|split]].
  - intros F realm1 Hcallable. unfold Call, bind. rewrite Hcallable. reflexivity.
  - intros F Hconcrete Hnot. unfold Call, bind.
    destruct F; try reflexivity; try discriminate Hconcrete.
    exfalso. eapply Hnot. reflexivity.
  - intros r Hfunction Hcall. unfold Call, bind. rewrite IsCallable_object.
    rewrite Hfunction, Hcall. reflexivity.
  - intros r Hcall. unfold Call, bind, invariant, gets. rewrite IsCallable_object.
    rewrite Hcall, orb_true_r. cbn [negb ret]. rewrite Hcall. cbn [ret].
    destruct (dollar_Call (ObjectValue r) V argsList realm) as [[v|f] realm1]; reflexivity.
Qed.

(** X17: EvaluateDirectCall evaluates the arguments before it looks at the
    callee.  When the evaluation of the arguments fails, the call fails in
    the same way whatever the callee is.  Once the arguments have their
    values: a concrete callee that is not an object throws a TypeError; an
    abstract callee of function type makes the call the abstract value
    that the realm derives from the callee and the arguments; any other
    abstract callee fails with IntrospectionError; an object that is no
    function and has no [$Call] method throws a TypeError; and for an
    object with a [$Call] method and no tail position flag the call is
    that method applied to the this value and the argument values. *)
Theorem EvaluateDirectCall_outcomes strictCode env func thisValue args realm :
  (forall f realm1,
     ArgumentListEvaluation strictCode env args realm = (Fail f, realm1) ->
     forall tailPosition,
       EvaluateDirectCall strictCode env func thisValue args tailPosition realm
       = (Fail f, realm1)) /\
  (forall argList realm1,
     ArgumentListEvaluation strictCode env args realm = (Normal argList, realm1) ->
     forall tailPosition,
     (isConcrete func = true -> (forall r, func <> ObjectValue r) ->
      EvaluateDirectCall strictCode env func thisValue args tailPosition realm
      = (Fail (Abrupt (ThrowCompletion TypeError (Some "not an object"))), realm1)) /\
     (forall a, func = AbstractValue a ->
      EvaluateDirectCall strictCode env func thisValue args tailPosition realm
      = if bool_decide (abs_type a = TFunction) then deriveAbstract (func :: argList) realm1
        else (Fail IntrospectionError, realm1)) /\
     (forall r, func = ObjectValue r ->
      isFunctionValue (obj realm1 r) = false -> hasCall (obj realm1 r) = false ->
      EvaluateDirectCall strictCode env func thisValue args tailPosition realm
      = (Fail (Abrupt (ThrowCompletion TypeError (Some "not callable"))), realm1)) /\
     (forall r, func = ObjectValue r -> hasCall (obj realm1 r) = true ->
      tailPosition <> Some true ->
      EvaluateDirectCall strictCode env func thisValue args tailPosition realm
      = dollar_Call func thisValue argList realm1)).
Proof.
  split.
  - intros f realm1 Hargs tailPosition. unfold EvaluateDirectCall, bind. rewrite Hargs.
    reflexivity.
  - intros argList realm1 Hargs tailPosition.
    split; [|split; [|split]].
    + intros Hconcrete Hnot. unfold EvaluateDirectCall, bind at 1. rewrite Hargs.
      destruct func; try reflexivity; try discriminate Hconcrete.
      exfalso. eapply Hnot. reflexivity.
    + intros a ->. unfold EvaluateDirectCall, bind at 1. rewrite Hargs.
      destruct (bool_decide (abs_type a = TFunction)); reflexivity.
    + intros r -> Hfunction Hcall. unfold EvaluateDirectCall, bind at 1 2. rewrite Hargs.
      rewrite IsCallable_object, Hfunction, Hcall. reflexivity.
    + intros r -> Hcall Htail. unfold EvaluateDirectCall, bind at 1 2. rewrite Hargs.
      rewrite IsCallable_object, Hcall, orb_true_r. cbn [negb].
      rewrite bool_decide_eq_false_2 by exact Htail.
      unfold bind at 1. cbn [ret]. unfold bind at 1.
      unfold Call, bind, invariant, gets. rewrite IsCallable_object, Hcall, orb_true_r.
      cbn [negb ret]. rewrite Hcall. cbn [ret].
      destruct (dollar_Call (ObjectValue r) thisValue argList realm1) as [[v|f] realm2];
        reflexivity.
Qed.

End Call_more.

(** ** Statements *)

Section Statement_facts.
Context {ext : Externals}.

(** X18: a return statement never completes normally.  Without an
    argument it completes with a return completion that carries
    undefined, the realm unchanged; with an argument, the evaluation of
    the argument and then GetValue decide, a failure of either being the
    failure of the statement and a value being carried by the return
    completion. *)
Theorem ReturnStatement_always_returns ast strictCode env realm :
  (forall v realm', ReturnStatement ast strictCode env realm <> (Normal v, realm')) /\
  (argument ast = None ->
   ReturnStatement ast strictCode env realm
   = (Fail (Abrupt (ReturnCompletion UndefinedValue)), realm)) /\
  (forall node, argument ast = Some node ->
   ReturnStatement ast strictCode env realm =
   match evaluate env node strictCode realm with
   | (Normal ref, realm1) =>
       match GetValue ref realm1 with
       | (Normal arg, realm2) => (Fail (Abrupt (ReturnCompletion arg)), realm2)
       | (Fail f, realm2) => (Fail f, realm2)
       end
   | (Fail f, realm1) => (Fail f, realm1)
   end).
Proof.
  unfold ReturnStatement, bind, throw, fail.
  split; [|split].
  - intros v realm'. destruct (argument ast) as [node|]; [|discriminate].
    destruct (evaluate env node strictCode realm) as [[ref|f] realm1]; [|discriminate].
    destruct (GetValue ref realm1) as [[arg|f] realm2]; discriminate.
  - intros ->. reflexivity.
  - intros node ->.
    destruct (evaluate env node strictCode realm) as [[ref|f] realm1]; [|reflexivity].
    destruct (GetValue ref realm1) as [[arg|f] realm2]; reflexivity.
Qed.

End Statement_facts.

(** X19: LoopContinues.  A normal completion lets the loop go on, and so
    does a continue completion without a target.  A break, return or throw
    completion never does.  A continue completion with a target lets the
    loop go on exactly when the target is in the label set of the loop, a
    loop without label set having none; hence a completion that lets a
    loop go on lets every loop with more labels go on. *)
Theorem LoopContinues_labels :
  (forall v labelSet, LoopContinues (CompletionValue v) labelSet = true) /\
  (forall labelSet, LoopContinues CompletionReference labelSet = true) /\
  (forall v labelSet, LoopContinues (ContinueCompletion v None) labelSet = true) /\
  (forall c labelSet, LoopContinues (OtherCompletion c) labelSet = false) /\
  (forall v target labelSet, target <> "" ->
     LoopContinues (ContinueCompletion v (Some target)) labelSet = true <->
     exists labels, labelSet = Some labels /\ target ∈ labels) /\
  (forall completion labels labels',
     labels ⊆ labels' ->
     LoopContinues completion (Some labels) = true ->
     LoopContinues completion (Some labels') = true).
Proof.
  split; [|split; [|split; [|split; [|split]]]]; try reflexivity.
  - intros v target labelSet Hne. unfold LoopContinues.
    destruct target as [|a target]; [congruence|].
    destruct labelSet as [labels|].
    + case_bool_decide; split; try discriminate; eauto.
      intros (labels' & [= <-] & Hin). contradiction.
    + split; [discriminate|]. intros (labels & Hnone & _). discriminate.
  - intros completion labels labels' Hsub. unfold LoopContinues.
    destruct completion as [v| |v [[|a target]|]|c]; try reflexivity; [|exact id].
    repeat case_bool_decide; try reflexivity; try discriminate.
    intros _. exfalso. set_solver.
Qed.


(** ** The head of a for-in/of loop and the context stack *)

Lemma keeps_contexts_ret {A} (a : A) : keeps_contexts (ret a).
Proof. intros realm. reflexivity. Qed.

Lemma keeps_contexts_fail {A} f : keeps_contexts (@fail Realm A f).
Proof. intros realm. reflexivity. Qed.

Lemma keeps_contexts_bind {A B} (m : M A) (k : A -> M B) :
  keeps_contexts m -> (forall a, keeps_contexts (k a)) -> keeps_contexts (bind m k).
Proof.
  intros Hm Hk realm. unfold bind. specialize (Hm realm).
  destruct (m realm) as [[a|f] realm1]; simpl in *; [|exact Hm].
  rewrite Hk. exact Hm.
Qed.

Section Head_facts.
Context {ext : Externals} {im : InternalMethods}.

Lemma keeps_contexts_bindings (envRec : EnvironmentRecord) (names : list string) (m : M unit) :
  head_collaborators_keep_contexts ->
  keeps_contexts m ->
  keeps_contexts
    (fold_left (fun done name => done ;;; CreateMutableBinding envRec name false) names m).
Proof.
  intros Hkeeps. revert m. induction names as [|name names IH]; intros m Hm; simpl; [exact Hm|].
  apply IH. apply keeps_contexts_bind; [exact Hm|]. intros _.
  apply keeps_CreateMutableBinding. exact Hkeeps.
Qed.

(** Steps 1 to 5 leave the stack of contexts as they found it: the
    environment of the running context is set back even when the
    evaluation of the expression fails. *)
Lemma ForInOfHeadEvaluation_exprValue_contexts env TDZnames expr strictCode :
  head_collaborators_keep_contexts ->
  keeps_contexts (ForInOfHeadEvaluation_exprValue env TDZnames expr strictCode).
Proof.
  intros Hkeeps realm. unfold ForInOfHeadEvaluation_exprValue.
  unfold bind at 1. unfold getRunningContext, bind at 1, gets.
  destruct (contextStack realm) as [|leaf rest] eqn:Hstack; [simpl; exact Hstack|].
  cbn [ret].
  assert (Hbody : forall env0 running realm0,
            contextStack realm0 = mkContext running (suspended leaf) :: rest ->
            contextStack (snd ((exprRef <- try_finally (evaluate env0 expr strictCode)
                                  (set_running_lexicalEnvironment (lexicalEnvironment leaf)) ;;
                                GetValue exprRef) realm0)) = leaf :: rest).
  { intros env0 running realm0 Hstack0. unfold bind, try_finally.
    pose proof (keeps_evaluate Hkeeps env0 expr strictCode realm0) as Heval.
    destruct (evaluate env0 expr strictCode realm0) as [r realm1]. simpl in Heval.
    unfold set_running_lexicalEnvironment, modify. rewrite Heval, Hstack0.
    destruct r as [exprRef|f]; simpl.
    - rewrite (keeps_GetValue Hkeeps exprRef). simpl. destruct leaf; reflexivity.
    - destruct leaf; reflexivity. }
  destruct TDZnames as [|name names].
  - unfold bind at 1. cbn [ret]. apply (Hbody env (lexicalEnvironment leaf)).
    rewrite Hstack. destruct leaf; reflexivity.
  - unfold bind at 1 2.
    pose proof (keeps_NewDeclarativeEnvironment Hkeeps (lexicalEnvironment leaf) realm) as Hnew.
    destruct (NewDeclarativeEnvironment (lexicalEnvironment leaf) realm) as [[TDZ|f] realm1];
      simpl in Hnew; [|simpl; rewrite Hnew; exact Hstack].
    unfold bind at 1.
    pose proof (keeps_contexts_bindings (environmentRecord TDZ) (name :: names) (ret tt) Hkeeps
                  (keeps_contexts_ret tt) realm1) as Hfold.
    destruct (fold_left _ (name :: names) (ret tt) realm1) as [[[]|f] realm2];
      simpl in Hfold; [|simpl; rewrite Hfold, Hnew; exact Hstack].
    unfold bind at 1, set_running_lexicalEnvironment at 1, modify. cbn [ret].
    unfold bind at 1. cbn [ret].
    apply (Hbody TDZ (Some TDZ)). simpl. rewrite Hfold, Hnew, Hstack. reflexivity.
Qed.

(** X20: the head of a for-in/of loop leaves the stack of execution
    contexts as it found it.  When what the head calls leaves the stack as
    it found it, so does ForInOfHeadEvaluation, whether it returns or
    fails: the environment that holds the names in their dead zone has
    been taken off the running context again, also when the evaluation of
    the expression fails. *)
Theorem ForInOfHeadEvaluation_restores_environment env TDZnames expr iterationKind strictCode :
  head_collaborators_keep_contexts ->
  keeps_contexts (ForInOfHeadEvaluation env TDZnames expr iterationKind strictCode).
Proof.
  intros Hkeeps. unfold ForInOfHeadEvaluation.
  apply keeps_contexts_bind;
    [apply ForInOfHeadEvaluation_exprValue_contexts; exact Hkeeps|].
  intros exprValue. destruct iterationKind.
  - apply keeps_contexts_bind; [apply keeps_GetIterator; exact Hkeeps|].
    intros iterator. apply keeps_contexts_ret.
  - destruct (HasSomeCompatibleType exprValue [TNull; TUndefined]);
      [apply keeps_contexts_fail|].
    apply keeps_contexts_bind.
    { unfold throwIfNotConcrete. destruct (isConcrete exprValue);
        [apply keeps_contexts_ret|apply keeps_contexts_fail]. }
    intros concrete. apply keeps_contexts_bind; [apply keeps_ToObject; exact Hkeeps|].
    intros object. apply keeps_contexts_bind; [|intros e; apply keeps_contexts_ret].
    unfold EnumerateObjectProperties. apply keeps_contexts_bind;
      [apply keeps_OwnPropertyKeys; exact Hkeeps|]. intros keys. apply keeps_contexts_ret.
Qed.

End Head_facts.


(** ** Defining a property and reading it back *)

Section Round_trip.
Context {ext : Externals} {im : InternalMethods}.

Lemma isPartial_set_obj realm O k b O' :
  isPartial (obj (set_obj O (binding_set k b (obj realm O)) realm) O')
  = isPartial (obj realm O').
Proof.
  rewrite obj_set_obj. case_decide; [subst O'|reflexivity].
  apply (binding_set_slots k b (obj realm O)).
Qed.

Lemma InternalSetProperty_partial O P desc realm realm' :
  InternalSetProperty O P desc realm = (Normal tt, realm') ->
  forall O', isPartial (obj realm' O') = isPartial (obj realm O').
Proof.
  intros Hrun O'. revert Hrun. unfold InternalSetProperty, bind, gets.
  set (key := InternalGetPropertiesKey P).
  assert (Hrec : forall r, exists r', recordModifiedProperty O key r = (Normal tt, r') /\
                                      obj r' = obj r).
  { intros r. destruct (recordModifiedProperty_run O key r) as (r' & Hrun & Hheap & _).
    exists r'. split; [exact Hrun|]. unfold obj. rewrite Hheap. reflexivity. }
  destruct (binding_get (obj realm O) key); cbn [ret].
  - destruct (Hrec realm) as (realm1 & -> & Hobj). rewrite set_descriptor_run.
    intros [= <-]. rewrite isPartial_set_obj, Hobj. reflexivity.
  - rewrite set_descriptor_run.
    match goal with |- context [recordModifiedProperty O key ?r] =>
      destruct (Hrec r) as (realm1 & -> & Hobj) end.
    rewrite set_descriptor_run. intros [= <-].
    rewrite isPartial_set_obj, Hobj, isPartial_set_obj. reflexivity.
Qed.

(** X21: a property that was just created reads back as the completion of
    its descriptor.  On an extensible object that is not partial and has
    no property P, OrdinaryDefineOwnProperty of a descriptor that does not
    mix data and accessor fields returns true, and OrdinaryGetOwnProperty
    then answers the descriptor that CompletePropertyDescriptor makes of
    Desc. *)
Theorem created_property_reads_back_complete O P Desc realm realm1 :
  dollar_GetOwnProperty (ObjectValue O) P realm = (Normal None, realm1) ->
  Extensible (obj realm1 O) = true ->
  isPartial (obj realm1 O) = false ->
  IsDataDescriptor (Some Desc) && IsAccessorDescriptor (Some Desc) = false ->
  exists realm',
    OrdinaryDefineOwnProperty O P Desc realm = (Normal true, realm') /\
    OrdinaryGetOwnProperty O P realm'
    = (Normal (Some (CompletePropertyDescriptor Desc)), realm').
Proof.
  intros Hown Hext Hpartial Hkind.
  assert (Hkey : IsPropertyKey P = true) by (destruct P; reflexivity).
  set (created := CompletePropertyDescriptor Desc).
  destruct (InternalSetProperty_descriptor O P created realm1) as (realm2 & Hset & Hdesc).
  destruct (InternalUpdatedProperty_modified O P realm2) as (realm3 & Hupd & Hheap & _).
  assert (Hstored : own_descriptor realm3 O (InternalGetPropertiesKey P) = Some created).
  { rewrite (own_descriptor_heap realm2 realm3 _ _ Hheap), Hdesc.
    rewrite decide_True by reflexivity. reflexivity. }
  assert (Hpartial3 : isPartial (obj realm3 O) = false).
  { unfold obj. rewrite Hheap. fold (obj realm2 O).
    rewrite (InternalSetProperty_partial _ _ _ _ _ Hset). exact Hpartial. }
  exists realm3. split.
  - unfold OrdinaryDefineOwnProperty, bind at 1 2, gets. rewrite Hown, Hext.
    unfold ValidateAndApplyPropertyDescriptor, bind, invariant. rewrite Hkey.
    cbn [ret negb]. revert Hset. subst created.
    unfold CompletePropertyDescriptor, IsGenericDescriptor, IsDataDescriptor,
      IsAccessorDescriptor, field_in, field_get in *.
    destruct Desc as [[v|] [w|] [g|] [s|] [e|] [c|]]; simpl in *; try discriminate;
      intros Hset; rewrite Hset, Hupd; reflexivity.
  - assert (Hkind' : IsDataDescriptor (Some created) = true /\
                       created = mkDesc (value created) (writable created) None None
                                        (enumerable created) (configurable created) \/
                     IsDataDescriptor (Some created) = false /\
                       IsAccessorDescriptor (Some created) = true /\
                       created = mkDesc None None (get created) (set created)
                                        (enumerable created) (configurable created)).
    { subst created. clear -Hkind.
      unfold CompletePropertyDescriptor, IsGenericDescriptor, IsDataDescriptor,
        IsAccessorDescriptor, field_in, field_get in *.
      destruct Desc as [[v|] [w|] [g|] [s|] [e|] [c|]]; simpl in *; try discriminate;
        first [left; split; reflexivity | right; split; [|split]; reflexivity]. }
    destruct Hkind' as [[Hdata Hshape]|(Hdata & Hacc & Hshape)].
    + rewrite (OrdinaryGetOwnProperty_data O P realm3 created Hpartial3 Hstored Hdata).
      rewrite <- Hshape. reflexivity.
    + unfold own_descriptor in Hstored.
      destruct (binding_get (obj realm3 O) (InternalGetPropertiesKey P)) as [b|] eqn:Hb;
        [|discriminate].
      unfold OrdinaryGetOwnProperty, bind, invariant, gets. rewrite Hkey. cbn [ret].
      rewrite Hb, Hstored, Hdata, Hacc. cbn [ret]. rewrite <- Hshape. reflexivity.
Qed.

End Round_trip.


(** ** Instances *)

(** In the chain 1, 2, 3 the object 1 is refused as prototype of 3, which
    would close a cycle. *)
Lemma OrdinarySetPrototypeOf_refuses_cycles_witness :
  OrdinarySetPrototypeOf (ext := externals) 4 3 (ObjectValue 1) realm_owner
  = (Normal false, realm_owner).
Proof.
  assert (Hchain : prototype_chain realm_owner (ObjectValue 1) [1; 2; 3]).
  { apply chain_object. change (prototype_chain realm_owner (ObjectValue 2) [2; 3]).
    apply chain_object. change (prototype_chain realm_owner (ObjectValue 3) [3]).
    apply chain_object. apply chain_null. }
  pose proof (OrdinarySetPrototypeOf_refuses_cycles (ext := externals) 4 3 (ObjectValue 1)
                realm_owner [1; 2; 3] SameValue_std_on_objects Hchain
                ltac:(simpl; lia) eq_refl eq_refl) as Hrun.
  rewrite bool_decide_eq_true_2 in Hrun by set_solver. exact Hrun.
Defined.

(** The object 1 of the chain 1, 2, 3 takes 3 as its prototype, and the
    chains still end. *)
Lemma OrdinarySetPrototypeOf_chains_end_witness :
  OrdinarySetPrototypeOf (ext := externals) 4 1 (ObjectValue 3) realm_owner
  = (Normal true, set_obj 1 (set_Prototype (ObjectValue 3) (obj realm_owner 1)) realm_owner) /\
  forall p chain,
    prototype_chain realm_owner p chain ->
    exists chain',
      prototype_chain (set_obj 1 (set_Prototype (ObjectValue 3) (obj realm_owner 1)) realm_owner)
                      p chain'.
Proof.
  assert (Hrun : OrdinarySetPrototypeOf (ext := externals) 4 1 (ObjectValue 3) realm_owner
                 = (Normal true,
                    set_obj 1 (set_Prototype (ObjectValue 3) (obj realm_owner 1)) realm_owner))
    by reflexivity.
  split; [exact Hrun|].
  exact (proj2 (OrdinarySetPrototypeOf_chains_end (ext := externals) 4 1 (ObjectValue 3)
                  realm_owner true _ SameValue_std_on_objects Hrun) eq_refl).
Defined.

(** The property "a" of the object 1 is read as it is stored. *)
Lemma OrdinaryGetOwnProperty_reads_witness :
  OrdinaryGetOwnProperty (ext := externals) 1 (PKstring "a") realm_calls
  = (Normal (Some (data (NumberValue (of_Z 1)) true true true)), realm_calls) /\
  exists X, own_descriptor realm_calls 1 (StrKey "a") = Some X /\
            enumerable X = Some true /\ configurable X = Some true.
Proof.
  assert (Hrun : OrdinaryGetOwnProperty (ext := externals) 1 (PKstring "a") realm_calls
                 = (Normal (Some (data (NumberValue (of_Z 1)) true true true)), realm_calls))
    by reflexivity.
  split; [exact Hrun|].
  destruct (proj2 (proj2 (proj2 (OrdinaryGetOwnProperty_reads (ext := externals) 1 (PKstring "a")
                                   realm_calls _ _ Hrun))) _ eq_refl)
    as (X & HX & He & Hc & _).
  exists X. split; [exact HX|]. split; [symmetry; exact He|symmetry; exact Hc].
Defined.

(** The element 9 of the array is not configurable: an attempt to make it
    configurable is rejected and leaves the realm as it is. *)
Lemma rejected_definition_changes_nothing_witness :
  ValidateAndApplyPropertyDescriptor (ext := externals) (Some 1) (Some (PKstring "9")) true
    (mkDesc None None None None None (Some true))
    (Some (data (StringValue "a") true true false)) realm_array
  = (Normal false, realm_array) /\
  forall O P realm',
    ValidateAndApplyPropertyDescriptor (ext := externals) O P true
      (mkDesc None None None None None (Some true))
      (Some (data (StringValue "a") true true false)) realm_array
    = (Normal false, realm') ->
    realm' = realm_array.
Proof.
  split; [reflexivity|].
  exact (proj1 (rejected_definition_changes_nothing (ext := externals) true
                  (mkDesc None None None None None (Some true))
                  (Some (data (StringValue "a") true true false)) realm_array
                  SameValuePartial_std_reads)).
Defined.

(** The element 9 of the array is writable and not configurable: it takes
    a new value and is still not configurable and enumerable. *)
Lemma nonconfigurable_property_stays_witness :
  exists realm' stored,
    ValidateAndApplyPropertyDescriptor (ext := externals) (Some 1) (Some (PKstring "9")) true
      (mkDesc (Some (StringValue "z")) None None None None None)
      (Some (data (StringValue "a") true true false)) realm_array
    = (Normal true, realm') /\
    own_descriptor realm' 1 (StrKey "9") = Some stored /\
    truthy (configurable stored) = false /\
    enumerable stored = Some true.
Proof.
  eexists.
  assert (Hrun : ValidateAndApplyPropertyDescriptor (ext := externals) (Some 1)
                   (Some (PKstring "9")) true
                   (mkDesc (Some (StringValue "z")) None None None None None)
                   (Some (data (StringValue "a") true true false)) realm_array
                 = (Normal true, _)) by (vm_compute; reflexivity).
  destruct (nonconfigurable_property_stays (ext := externals) 1 (PKstring "9") true _ _
              realm_array _ SameValuePartial_std_reads eq_refl eq_refl Hrun)
    as (stored & Hstored & Hconf & Henum & _).
  exists stored. split; [exact Hrun|]. split; [exact Hstored|]. split; [exact Hconf|exact Henum].
Defined.

(** The element 9 of the array takes a new value, which is then stored,
    and stays writable. *)
Lemma accepted_definition_is_stored_witness :
  exists realm' stored,
    ValidateAndApplyPropertyDescriptor (ext := externals) (Some 1) (Some (PKstring "9")) true
      (mkDesc (Some (StringValue "z")) None None None None None)
      (Some (data (StringValue "a") true true false)) realm_array
    = (Normal true, realm') /\
    own_descriptor realm' 1 (StrKey "9") = Some stored /\
    field_get stored f_value = Some (FVal (StringValue "z")) /\
    field_get stored f_writable = Some (FBool true).
Proof.
  eexists.
  assert (Hrun : ValidateAndApplyPropertyDescriptor (ext := externals) (Some 1)
                   (Some (PKstring "9")) true
                   (mkDesc (Some (StringValue "z")) None None None None None)
                   (Some (data (StringValue "a") true true false)) realm_array
                 = (Normal true, _)) by (vm_compute; reflexivity).
  destruct (accepted_definition_is_stored (ext := externals) 1 (PKstring "9") true _ _
              realm_array _ SameValuePartial_std_reads eq_refl Hrun)
    as [[Hsame _]|(stored & Hstored & Hin & _ & Hother & _)].
  - apply (f_equal modifiedProperties) in Hsame. vm_compute in Hsame. discriminate Hsame.
  - exists stored. split; [exact Hrun|]. split; [exact Hstored|].
    split; [exact (Hin f_value eq_refl)|].
    exact (Hother (or_intror eq_refl) f_writable eq_refl).
Defined.




Lemma keeps_contexts_gets {A} (f : Realm -> A) : keeps_contexts (gets f).
Proof. intros realm. reflexivity. Qed.

Lemma keeps_contexts_filterM {A} (f : A -> M bool) (l : list A) :
  (forall x, keeps_contexts (f x)) -> keeps_contexts (filterM f l).
Proof.
  intros Hf. induction l as [|x l IH]; simpl; [apply keeps_contexts_ret|].
  apply keeps_contexts_bind; [apply Hf|]. intros keep.
  apply keeps_contexts_bind; [exact IH|]. intros rest. apply keeps_contexts_ret.
Qed.

Lemma keeps_contexts_mapM {A B} (f : A -> M B) (l : list A) :
  (forall x, keeps_contexts (f x)) -> keeps_contexts (mapM f l).
Proof.
  intros Hf. induction l as [|x l IH]; simpl; [apply keeps_contexts_ret|].
  apply keeps_contexts_bind; [apply Hf|]. intros y.
  apply keeps_contexts_bind; [exact IH|]. intros rest. apply keeps_contexts_ret.
Qed.

(** The key listings of the examples leave the stack of contexts alone. *)
Lemma keeps_contexts_std_keys (im : InternalMethods) literal :
  let ext := std_externals im literal in
  let kext := std_key_externals in
  (forall P, keeps_contexts (IsArrayIndex P)) /\
  (forall r, keeps_contexts (StringExotic_OwnPropertyKeys r)) /\
  (forall r, keeps_contexts (OrdinaryOwnPropertyKeys r)).
Proof.
  intros ext kext.
  assert (HToString : forall v, keeps_contexts (ToString v)).
  { intros v realm. destruct v as [| | |b|n|s|y|r|a]; try reflexivity.
    destruct n as [| | |q]; try reflexivity. simpl.
    destruct (Qeq_bool q (inject_Z (Qfloor q))); reflexivity. }
  assert (Hkeys : forall r, keeps_contexts (getOwnPropertyKeysArray r)).
  { intros r realm. simpl. unfold bind, gets. destruct (isPartial (obj realm r)); reflexivity. }
  assert (Hindex : forall P, keeps_contexts (IsArrayIndex P)).
  { intros P. unfold IsArrayIndex. destruct P as [key|key|y]; [| |apply keeps_contexts_ret].
    all: apply keeps_contexts_bind; [intros realm; reflexivity|]; intros i.
    all: destruct (negb (Z.eqb i (2 ^ 32 - 1))); [|apply keeps_contexts_ret].
    all: apply keeps_contexts_bind; [apply HToString|]; intros s; apply keeps_contexts_ret. }
  split; [exact Hindex|]. split.
  - intros r. unfold StringExotic_OwnPropertyKeys.
    apply keeps_contexts_bind; [apply keeps_contexts_gets|]. intros [str|].
    2: { apply keeps_contexts_bind; [apply keeps_contexts_fail|]. intros _.
         apply keeps_contexts_ret. }
    apply keeps_contexts_bind.
    { apply keeps_contexts_mapM. intros i.
      apply keeps_contexts_bind; [apply HToString|]. intros s. apply keeps_contexts_ret. }
    intros indices. apply keeps_contexts_bind; [apply Hkeys|]. intros properties.
    apply keeps_contexts_bind; [apply keeps_contexts_filterM; intros x; apply Hindex|].
    intros own. apply keeps_contexts_bind.
    { apply keeps_contexts_filterM. intros x.
      apply keeps_contexts_bind; [intros realm; reflexivity|]. intros n.
      apply keeps_contexts_ret. }
    intros above. apply keeps_contexts_bind.
    { apply keeps_contexts_filterM. intros x.
      apply keeps_contexts_bind; [apply Hindex|]. intros b. apply keeps_contexts_ret. }
    intros others. apply keeps_contexts_bind; [apply keeps_contexts_gets|].
    intros symbolKeys. apply keeps_contexts_ret.
  - intros r. unfold OrdinaryOwnPropertyKeys.
    apply keeps_contexts_bind; [apply Hkeys|]. intros properties.
    apply keeps_contexts_bind; [apply keeps_contexts_filterM; intros x; apply Hindex|].
    intros own. apply keeps_contexts_bind.
    { apply keeps_contexts_filterM. intros x.
      apply keeps_contexts_bind; [apply Hindex|]. intros b. apply keeps_contexts_ret. }
    intros others. apply keeps_contexts_bind; [apply keeps_contexts_gets|].
    intros symbolKeys. apply keeps_contexts_ret.
Qed.

(** The key listing of the method table, by the kind of the object. *)
Lemma kind_methods_keys literal fuel r :
  dollar_OwnPropertyKeys (InternalMethods := kind_methods literal (S fuel)) (ObjectValue r) =
  (str <- gets (fun realm => StringData (obj realm r)) ;;
   match str with
   | Some _ => StringExotic_OwnPropertyKeys
                 (ext := std_externals (kind_methods literal fuel) literal)
                 (kext := std_key_externals) r
   | None => OrdinaryOwnPropertyKeys
               (ext := std_externals (kind_methods literal fuel) literal)
               (kext := std_key_externals) r
   end).
Proof. reflexivity. Qed.

Lemma std_collaborators_keep_contexts :
  head_collaborators_keep_contexts (ext := externals) (im := methods).
Proof.
  split; try (intros; intros realm; reflexivity).
  - intros v realm. destruct v; try reflexivity.
    simpl. destruct (bool_decide (abs_type a = TObject)); reflexivity.
  - intros v. destruct v as [| | |b|n|s|y|r|a]; try (intros realm; reflexivity).
    unfold methods. rewrite kind_methods_keys.
    apply keeps_contexts_bind; [apply keeps_contexts_gets|]. intros [str|].
    + apply (keeps_contexts_std_keys (kind_methods (literal_of UndefinedValue) 7)
               (literal_of UndefinedValue)).
    + apply (keeps_contexts_std_keys (kind_methods (literal_of UndefinedValue) 7)
               (literal_of UndefinedValue)).
Qed.

(** The head of a for-in over null, with a name in its dead zone, leaves
    the stack of contexts as it found it. *)
Lemma ForInOfHeadEvaluation_restores_environment_witness :
  contextStack
    (snd (ForInOfHeadEvaluation (ext := externals) (im := methods) env0 ["x"]
            (mkNode "NullLiteral") enumerate false realm_calls))
  = contextStack realm_calls.
Proof.
  exact (ForInOfHeadEvaluation_restores_environment (ext := externals) (im := methods)
           env0 ["x"] (mkNode "NullLiteral") enumerate false std_collaborators_keep_contexts
           realm_calls).
Defined.

(** The object 1 takes a new property "b" that holds 5: it reads back with
    the three attributes false. *)
Lemma created_property_reads_back_complete_witness :
  exists realm',
    OrdinaryDefineOwnProperty (ext := externals) (im := methods) 1 (PKstring "b")
      (mkDesc (Some (NumberValue (of_Z 5))) None None None None None) realm_calls
    = (Normal true, realm') /\
    OrdinaryGetOwnProperty (ext := externals) 1 (PKstring "b") realm'
    = (Normal (Some (data (NumberValue (of_Z 5)) false false false)), realm').
Proof.
  exact (created_property_reads_back_complete (ext := externals) (im := methods) 1
           (PKstring "b") (mkDesc (Some (NumberValue (of_Z 5))) None None None None None)
           realm_calls realm_calls eq_refl eq_refl eq_refl eq_refl).
Defined.
